(** * Custom-design fulfilment pipeline: order webhook and manual recovery

    A shallow embedding of the order-processing code of the Shopify custom
    design app:
    - the live [webhookHandler], in its current revision
      ([src/unnamed/part_000], lines 76-216) and in the earlier revision
      that stores a PNG (lines 317-413, module [LivePng]); the earliest
      revision, further down that file, calls an image service and is not
      modelled;
    - the replay script [src/manual-recovery.js]: [processOrderPayload] and
      [main], and its earlier revision [src/unnamed/part_001] (module
      [RecoveryV1]), which has the same [main];
    - [registerWebhook] of [src/unnamed/part_000] (module [Registration]).

    Conventions of the model.
    - JavaScript strings are [string]s of one-byte characters.  Case mapping
      and the whitespace class act on the ASCII range; other code units pass
      through every operation unchanged.
    - The handlers start from the parsed payload ([JSON.parse(body)] and the
      [topic] argument play no part afterwards).
    - The archive held by JSZip ([zip.files], an object keyed by relative
      path) is a [gmap string bytes]; directory entries are not modelled.
      Where several entries match [/template\.png$/], JSZip takes the first
      in archive order and the model the first in the map's enumeration.
    - [variant_title] of a line item is [null] for a product without
      variants; calling a method on it raises a [TypeError], which unwinds
      like any other exception.
    - [Number] is modelled on runs of decimal digits, as an exact integer
      (JavaScript rounds above 2^53); any other text is taken to be [NaN].
    - The services the code talks to (S3, the image compositor, the archive
      codec, the order platform, the clock) are fields of an environment
      record; every call the code makes is recorded in the world, and a call
      that rejects raises an exception that unwinds to the enclosing
      [try]/[catch] exactly as in the source.
    - [console.log] lines are not modelled, [console.error] lines are. *)

From Stdlib Require Import String Ascii List ZArith Bool Lia.
From stdpp Require Import base option list strings gmap fin_maps pretty.

Local Open Scope string_scope.

(** ** JavaScript string primitives used by the code *)

Module Js.

(** One-byte view of the [\s] class: TAB, LF, VT, FF, CR and SPACE. *)
Definition isSpace (c : ascii) : bool :=
  let n := nat_of_ascii c in
  ((9 <=? n)%nat && (n <=? 13)%nat) || (n =? 32)%nat.

Definition upperChar (c : ascii) : ascii :=
  let n := nat_of_ascii c in
  if ((97 <=? n)%nat && (n <=? 122)%nat) then ascii_of_nat (n - 32) else c.

Definition lowerChar (c : ascii) : ascii :=
  let n := nat_of_ascii c in
  if ((65 <=? n)%nat && (n <=? 90)%nat) then ascii_of_nat (n + 32) else c.

Fixpoint mapChars (f : ascii -> ascii) (s : string) : string :=
  match s with
  | EmptyString => EmptyString
  | String c r => String (f c) (mapChars f r)
  end.

(** [s.toUpperCase()] and [s.toLowerCase()]. *)
Definition toUpperCase : string -> string := mapChars upperChar.
Definition toLowerCase : string -> string := mapChars lowerChar.

(** [s.startsWith(p)]. *)
Fixpoint startsWith (s p : string) {struct p} : bool :=
  match p, s with
  | EmptyString, _ => true
  | String _ _, EmptyString => false
  | String a p', String b s' => if Ascii.eqb a b then startsWith s' p' else false
  end.

(** [s.includes(p)]: [p] occurs somewhere in [s]. *)
Fixpoint includes (s p : string) : bool :=
  startsWith s p ||
  match s with
  | EmptyString => false
  | String _ r => includes r p
  end.

(** [s.endsWith(p)]: some suffix of [s] is [p]. *)
Fixpoint endsWith (s p : string) : bool :=
  String.eqb s p ||
  match s with
  | EmptyString => false
  | String _ r => endsWith r p
  end.

Fixpoint dropChars (n : nat) (s : string) : string :=
  match n, s with
  | O, _ => s
  | S _, EmptyString => EmptyString
  | S k, String _ r => dropChars k r
  end.

(** [s.replace(pat, rep)] with a string pattern: only the leftmost
    occurrence is replaced.  None of the replacement texts the code uses
    contains a dollar sign, so [rep] is inserted literally. *)
Fixpoint replaceFirst (s pat rep : string) : string :=
  if startsWith s pat then rep ++ dropChars (String.length pat) s
  else match s with
       | EmptyString => EmptyString
       | String c r => String c (replaceFirst r pat rep)
       end.

(** [s.replace(/\s+/g, rep)]: every maximal run of whitespace becomes one
    copy of [rep]; [inRun] tells that the previous character was
    whitespace too. *)
Fixpoint replaceSpaceRuns (inRun : bool) (rep : string) (s : string) : string :=
  match s with
  | EmptyString => EmptyString
  | String c r =>
      if isSpace c
      then (if inRun then replaceSpaceRuns true rep r
            else rep ++ replaceSpaceRuns true rep r)
      else String c (replaceSpaceRuns false rep r)
  end.

Fixpoint trimStart (s : string) : string :=
  match s with
  | EmptyString => EmptyString
  | String c r => if isSpace c then trimStart r else s
  end.

Fixpoint trimEnd (s : string) : string :=
  match s with
  | EmptyString => EmptyString
  | String c r =>
      let r' := trimEnd r in
      if isSpace c && String.eqb r' EmptyString then EmptyString else String c r'
  end.

(** [s.trim()]. *)
Definition trim (s : string) : string := trimEnd (trimStart s).

(** [s.split(sep)] for a non-empty separator: [skip] counts the characters
    of a separator just matched that are still to be passed over and [cur]
    holds the current piece, last character first. *)
Fixpoint splitGo (sep : string) (skip : nat) (cur : string) (s : string)
  : list string :=
  match s with
  | EmptyString => [String.rev cur]
  | String c r =>
      match skip with
      | S k => splitGo sep k cur r
      | O =>
          if startsWith s sep
          then String.rev cur :: splitGo sep (String.length sep - 1) EmptyString r
          else splitGo sep 0 (String c cur) r
      end
  end.

Definition split (s sep : string) : list string := splitGo sep 0 EmptyString s.

(** [l.join(sep)]. *)
Definition join (l : list string) (sep : string) : string := String.concat sep l.

(** Truthiness of a string value. *)
Definition truthy (s : string) : bool := negb (String.eqb s EmptyString).

(** The line-feed character of the template literals. *)
Definition LF : string := String (ascii_of_nat 10) EmptyString.

End Js.

(** ** Data model *)

Abbreviation bytes := (list Byte.byte).

(** A JavaScript number as far as the code uses one: the line-item id,
    printed into the storage key by a template literal. *)
Inductive JsNumber := JsInt (z : Z) | JsNaN.

Definition showNumber (n : JsNumber) : string :=
  match n with
  | JsInt z => pretty z
  | JsNaN => "NaN"
  end.

(** [{name, value}] of a line item; [value] may be [null]. *)
Record Property := mkProperty {
  p_name : string;
  p_value : option string
}.

(** [{id, title, variant_title, properties}]; [properties] may be absent,
    which is why the code reads it through [?.], and [variant_title] is
    [null] for a product without variants. *)
Record LineItem := mkLineItem {
  item_id : JsNumber;
  item_title : string;
  item_variant_title : option string;
  item_properties : option (list Property)
}.

(** The order payload of the webhook, also rebuilt by the replay script. *)
Record Payload := mkPayload {
  pl_name : string;
  pl_note : option string;
  pl_admin_graphql_api_id : string;
  pl_line_items : list LineItem
}.

(** An order as the platform's query API returns it. *)
Record LineItemNode := mkLineItemNode {
  li_id : string;
  li_title : string;
  li_variantTitle : option string;
  li_customAttributes : list (string * option string)
}.

Record OrderNode := mkOrderNode {
  node_id : string;
  node_name : string;
  node_note : option string;
  node_tags : list string;
  node_lineItems : list LineItemNode
}.

(** ** Exceptions, calls and the world *)

Inductive Exn :=
| S3Error (bucket key : string)       (* [s3Client.send] rejected *)
| ZipError                            (* [JSZip.loadAsync] rejected *)
| TemplateMissing (templateKey : string)
                                      (* [throw new Error(`template.png not found in ...`)] *)
| SharpError                          (* [sharp(...)] rejected *)
| GqlError                            (* the GraphQL client rejected *)
| TypeError.                          (* a method was called on [null] *)

Inductive LogEntry :=
| Caught (e : Exn)
| UserErrors (tagsErrors orderUpdateErrors : list string).

(** Every call that leaves the process, in the order it is made. *)
Inductive Call :=
| GetObject (bucket key : string)
| PutObject (bucket key : string) (body : bytes) (contentType : string)
| GqlQuery (shop query : string)
| GqlMutation (shop id : string) (tags : list string) (note : string)
| ConsoleError (context : string) (entry : LogEntry).

Record World := mkWorld {
  s3 : gmap (string * string) bytes;   (* (bucket, key) to object *)
  shopOrders : list OrderNode;         (* the order platform *)
  calls : list Call;
  clockReads : nat
}.

Inductive MutationOutcome :=
| MutationRejected
| MutationResponse (tagsErrors orderUpdateErrors : list string).

(** What the surroundings decide: configuration, the codecs, the
    compositor, and which remote calls fail. *)
Record Env := mkEnv {
  AWS_REGION : string;
  AWS_TEMPLATES_BUCKET : string;
  AWS_DESIGNS_BUCKET : string;
  SHOP_URL : string;
  s3GetFails : string -> string -> bool;
  s3PutFails : string -> string -> bool;
  loadAsync : bytes -> option (gmap string bytes);
  generateAsync : gmap string bytes -> bytes;
  (* lines 101-120 of the replay script: read the metadata, build the SVG
     text layer for the call sign, composite it over the template *)
  sharpComposite : bytes -> string -> option bytes;
  dateNow : nat -> Z;
  queryFails : string -> bool;
  queryMatches : string -> OrderNode -> bool;
  mutationOutcome : string -> MutationOutcome
}.

(** ** A state and exception monad

    State survives a throw, as the variables and the outside world of a
    JavaScript program do. *)

Inductive Res (A : Type) :=
| Ok (a : A)
| Throw (e : Exn).
Arguments Ok {A} a.
Arguments Throw {A} e.

Definition M (S A : Type) : Type := S -> Res A * S.

Definition ret {S A} (a : A) : M S A := fun s => (Ok a, s).

Definition throw {S A} (e : Exn) : M S A := fun s => (Throw e, s).

Definition bind {S A B} (m : M S A) (k : A -> M S B) : M S B :=
  fun s =>
    match m s with
    | (Ok a, s') => k a s'
    | (Throw e, s') => (Throw e, s')
    end.

(** [try { m } catch (error) { h error }]. *)
Definition tryCatch {S A} (m : M S A) (h : Exn -> M S A) : M S A :=
  fun s =>
    match m s with
    | (Ok a, s') => (Ok a, s')
    | (Throw e, s') => h e s'
    end.

Definition gets {S A} (f : S -> A) : M S A := fun s => (Ok (f s), s).

Definition modify {S} (f : S -> S) : M S unit := fun s => (Ok tt, f s).

Notation "x <- m ;; k" := (bind m (fun x => k))
  (at level 100, m at next level, right associativity).
Notation "m ;; k" := (bind m (fun _ => k))
  (at level 100, right associativity).

(** [for (const x of l) { f x }]. *)
Fixpoint forOf {S A} (f : A -> M S unit) (l : list A) : M S unit :=
  match l with
  | [] => ret tt
  | x :: r => f x ;; forOf f r
  end.

(** The variables a handler declares inside its [try] block.  The live
    handler has no [dynamicTags]; there the field stays empty. *)
Record Locals := mkLocals {
  itemIndex : nat;
  designLinks : list string;
  dynamicTags : list string
}.

(** Run a world action inside a handler. *)
Definition liftW {A} (m : M World A) : M (Locals * World) A :=
  fun s =>
    match m (snd s) with
    | (r, w') => (r, (fst s, w'))
    end.

(** Enter a function body with fresh locals; they are gone on return. *)
Definition withLocals {A} (l0 : Locals) (m : M (Locals * World) A) : M World A :=
  fun w =>
    match m (l0, w) with
    | (r, (_, w')) => (r, w')
    end.

Definition getLocals : M (Locals * World) Locals := gets fst.

Definition modifyLocals (f : Locals -> Locals) : M (Locals * World) unit :=
  modify (fun s => (f (fst s), snd s)).

(** ** The remote services *)

Definition logCall (c : Call) (w : World) : World :=
  mkWorld (s3 w) (shopOrders w) (calls w ++ [c]) (clockReads w).

Definition setS3 (m : gmap (string * string) bytes) (w : World) : World :=
  mkWorld m (shopOrders w) (calls w) (clockReads w).

Definition setOrders (os : list OrderNode) (w : World) : World :=
  mkWorld (s3 w) os (calls w) (clockReads w).

Definition tick (w : World) : World :=
  mkWorld (s3 w) (shopOrders w) (calls w) (S (clockReads w)).

Definition consoleError (context : string) (entry : LogEntry) : M World unit :=
  modify (logCall (ConsoleError context entry)).

(** [Date.now()]. *)
Definition DateNow (E : Env) : M World Z :=
  fun w => (Ok (dateNow E (clockReads w)), tick w).

(** [s3Client.send(new GetObjectCommand(...))] and reading the body. *)
Definition getObject (E : Env) (bucket key : string) : M World bytes :=
  fun w =>
    let w1 := logCall (GetObject bucket key) w in
    if s3GetFails E bucket key then (Throw (S3Error bucket key), w1)
    else match s3 w !! (bucket, key) with
         | Some body => (Ok body, w1)
         | None => (Throw (S3Error bucket key), w1)
         end.

(** [s3Client.send(new PutObjectCommand(...))]. *)
Definition putObject (E : Env) (bucket key : string) (body : bytes)
    (contentType : string) : M World unit :=
  fun w =>
    let w1 := logCall (PutObject bucket key body contentType) w in
    if s3PutFails E bucket key then (Throw (S3Error bucket key), w1)
    else (Ok tt, setS3 (<[(bucket, key) := body]> (s3 w1)) w1).

(** The platform adds the tags an order does not carry yet. *)
Definition tagsAdd (old new : list string) : list string :=
  foldl (fun (acc : list string) t =>
           if bool_decide (t ∈ acc) then acc else (acc ++ [t])%list) old new.

Definition applyMutation (id : string) (tags : option (list string))
    (note : option string) (o : OrderNode) : OrderNode :=
  if String.eqb (node_id o) id
  then mkOrderNode (node_id o) (node_name o)
         (match note with Some n => Some n | None => node_note o end)
         (match tags with Some ts => tagsAdd (node_tags o) ts | None => node_tags o end)
         (node_lineItems o)
  else o.

(** The combined [tagsAdd] / [orderUpdate] mutation.  Each half takes
    effect unless the platform answers it with user errors. *)
Definition gqlMutation (E : Env) (shop id : string) (tags : list string)
    (note : string) : M World (list string * list string) :=
  fun w =>
    let w1 := logCall (GqlMutation shop id tags note) w in
    match mutationOutcome E id with
    | MutationRejected => (Throw GqlError, w1)
    | MutationResponse te oe =>
        let tags' := match te with [] => Some tags | _ => None end in
        let note' := match oe with [] => Some note | _ => None end in
        (Ok (te, oe),
         setOrders (map (applyMutation id tags' note') (shopOrders w1)) w1)
    end.

(** The order query of the replay script: [orders(first: 1, query: ...)]
    with [lineItems(first: 20)], then [edges[0]?.node]. *)
Definition gqlOrderQuery (E : Env) (shop query : string) : M World (option OrderNode) :=
  fun w =>
    let w1 := logCall (GqlQuery shop query) w in
    if queryFails E query then (Throw GqlError, w1)
    else
      (Ok (match List.filter (queryMatches E query) (shopOrders w) with
           | [] => None
           | o :: _ =>
               Some (mkOrderNode (node_id o) (node_name o) (node_note o)
                       (node_tags o) (take 20 (node_lineItems o)))
           end), w1).

(** ** The steps both handlers share *)

Definition namedCallSign (p : Property) : bool := String.eqb (p_name p) "call_sign".

(** [payload.line_items.filter(i => i.properties?.some(p => p.name === 'call_sign')).length] *)
Definition totalCustomItems (payload : Payload) : nat :=
  length (List.filter
            (fun i => match item_properties i with
                      | Some ps => existsb namedCallSign ps
                      | None => false
                      end)
            (pl_line_items payload)).

(** [item.properties?.find(p => p.name === 'call_sign')] *)
Definition callSignProp (item : LineItem) : option Property :=
  match item_properties item with
  | Some ps => List.find namedCallSign ps
  | None => None
  end.

(** [prop.value] when [prop?.value] is truthy. *)
Definition callSignValue (item : LineItem) : option string :=
  match callSignProp item with
  | Some prop =>
      match p_value prop with
      | Some v => if Js.truthy v then Some v else None
      | None => None
      end
  | None => None
  end.

(** The light or dark template of a base filename. *)
Definition templateKeyFor (baseFilename variant_title : string) : string :=
  let variantTitle := Js.toLowerCase variant_title in
  if Js.includes variantTitle "white" || Js.includes variantTitle "golden yellow"
  then baseFilename ++ "_FOR_LIGHT.zip"
  else baseFilename ++ "_FOR_DARK.zip".

(** [zip.file(/template\.png$/)[0]], read as bytes. *)
Definition templatePngFile (zip : gmap string bytes) : option bytes :=
  snd <$> head (map_to_list
                  (filter (fun kv => Js.endsWith (fst kv) "template.png" = true) zip)).

(** The copy loop over [Object.entries(zip.files)]. *)
Definition copyEntries (zip : gmap string bytes) : gmap string bytes :=
  map_fold
    (fun relativePath file (newZip : gmap string bytes) =>
       if Js.endsWith relativePath "template.png" then newZip
       else <[relativePath := file]> newZip)
    ∅ zip.

(** The copy loop followed by [newZip.file("design.png", finishedImageBuffer)]. *)
Definition repack (zip : gmap string bytes) (finishedImageBuffer : bytes)
  : gmap string bytes :=
  <["design.png" := finishedImageBuffer]> (copyEntries zip).

(** [`designs/${payload.name.replace('#', '')}-${item.id}-${Date.now()}.zip`] *)
Definition designKey (orderName : string) (id : JsNumber) (now : Z) : string :=
  "designs/" ++ Js.replaceFirst orderName "#" EmptyString ++ "-" ++ showNumber id
  ++ "-" ++ pretty now ++ ".zip".

Definition orThrow {S A} (o : option A) (e : Exn) : M S A :=
  match o with
  | Some a => ret a
  | None => throw e
  end.

(** Steps 1 to 4 of a customised line item, from the template key to the
    upload; the result is the key written to the designs bucket. *)
Definition buildDesign (E : Env) (payload : Payload) (item : LineItem)
    (callSign baseFilename : string) : M World string :=
  variant_title <- orThrow (item_variant_title item) TypeError ;;
  let templateKey := templateKeyFor baseFilename variant_title in
  templateZipBuffer <- getObject E (AWS_TEMPLATES_BUCKET E) templateKey ;;
  zip <- orThrow (loadAsync E templateZipBuffer) ZipError ;;
  templatePngBytes <- orThrow (templatePngFile zip) (TemplateMissing templateKey) ;;
  finishedImageBuffer <- orThrow (sharpComposite E templatePngBytes callSign) SharpError ;;
  let finalZipBuffer := generateAsync E (repack zip finishedImageBuffer) in
  now <- DateNow E ;;
  let newZipKey := designKey (pl_name payload) (item_id item) now in
  putObject E (AWS_DESIGNS_BUCKET E) newZipKey finalZipBuffer "application/zip" ;;
  ret newZipKey.

(** [(payload.note ? `${payload.note}\n\n` : '') + `${header}\n${designLinks.join('\n')}`] *)
Definition newNote (payload : Payload) (header : string) (links : list string) : string :=
  (match pl_note payload with
   | Some n => if Js.truthy n then n ++ Js.LF ++ Js.LF else EmptyString
   | None => EmptyString
   end) ++ header ++ Js.LF ++ Js.join links Js.LF.

Definition incrIndex (l : Locals) : Locals :=
  mkLocals (S (itemIndex l)) (designLinks l) (dynamicTags l).

Definition pushLink (s : string) (l : Locals) : Locals :=
  mkLocals (itemIndex l) (designLinks l ++ [s])%list (dynamicTags l).

Definition pushTag (t : string) (l : Locals) : Locals :=
  mkLocals (itemIndex l) (designLinks l) (dynamicTags l ++ [t])%list.

(** ** The live handler ([src/unnamed/part_000], lines 76-216) *)

Module Live.

(** [item.title.toUpperCase().replace(/\s+/g, '_').replace('-', '--')] *)
Definition baseFilename (title : string) : string :=
  Js.replaceFirst (Js.replaceSpaceRuns false "_" (Js.toUpperCase title)) "-" "--".

Definition templateKey (title variant_title : string) : string :=
  templateKeyFor (baseFilename title) variant_title.

Definition newImageUrl (E : Env) (newImageKey : string) : string :=
  "https://" ++ AWS_DESIGNS_BUCKET E ++ ".s3." ++ AWS_REGION E
  ++ ".amazonaws.com/" ++ newImageKey.

(** [`${orderName}-${itemIndex}/${totalCustomItems}-${newImageUrl};`] *)
Definition designLink (orderName : string) (index total : nat) (url : string) : string :=
  orderName ++ "-" ++ pretty index ++ "/" ++ pretty total ++ "-" ++ url ++ ";".

(** The body of the [for] loop. *)
Definition processItem (E : Env) (payload : Payload) (total : nat)
    (item : LineItem) : M (Locals * World) unit :=
  match callSignValue item with
  | Some callSign =>
      modifyLocals incrIndex ;;
      newImageKey <- liftW (buildDesign E payload item callSign
                              (baseFilename (item_title item))) ;;
      l <- getLocals ;;
      modifyLocals (pushLink (designLink (pl_name payload) (itemIndex l) total
                                (newImageUrl E newImageKey)))
  | None => ret tt
  end.

(** Step 5, the order update. *)
Definition annotate (E : Env) (shop : string) (payload : Payload)
  : M (Locals * World) unit :=
  l <- getLocals ;;
  if (0 <? length (designLinks l))%nat
  then
    response <- liftW (gqlMutation E shop (pl_admin_graphql_api_id payload)
                         ["has_custom_design"]
                         (newNote payload "--- Custom Design Files ---" (designLinks l))) ;;
    if ((0 <? length (fst response)) || (0 <? length (snd response)))%nat
    then liftW (consoleError EmptyString (UserErrors (fst response) (snd response)))
    else ret tt
  else ret tt.

(** [designLinks = []] and [itemIndex = 0] on entry. *)
Definition initLocals : Locals := mkLocals 0 [] [].

(** The [for] loop over [payload.line_items]. *)
Definition itemLoop (E : Env) (payload : Payload) : M (Locals * World) unit :=
  forOf (processItem E payload (totalCustomItems payload)) (pl_line_items payload).

Definition webhookHandler (E : Env) (shop : string) (payload : Payload)
  : M World unit :=
  withLocals initLocals
    (tryCatch
       (itemLoop E payload ;; annotate E shop payload)
       (fun error => liftW (consoleError EmptyString (Caught error)))).

End Live.

(** ** The replay script ([src/manual-recovery.js]) *)

Module Recovery.

(** [item.title.toUpperCase().replace(/\s+/g, "_").replace("T-SHIRT", "T--SHIRT")] *)
Definition baseFilename (title : string) : string :=
  Js.replaceFirst (Js.replaceSpaceRuns false "_" (Js.toUpperCase title))
    "T-SHIRT" "T--SHIRT".

Definition templateKey (title variant_title : string) : string :=
  templateKeyFor (baseFilename title) variant_title.

(** [variantParts[i] ? variantParts[i].trim() : fallback] *)
Definition variantPart (variantParts : list string) (i : nat) (fallback : string)
  : string :=
  match variantParts !! i with
  | Some s => if Js.truthy s then Js.trim s else fallback
  | None => fallback
  end.

(** [`${variantColor}/${variantSize}/${callSign}`] *)
Definition newTag (variant_title callSign : string) : string :=
  let variantParts := Js.split variant_title " / " in
  let variantColor := variantPart variantParts 0 "UnknownColor" in
  let variantSize := variantPart variantParts 1 "UnknownSize" in
  variantColor ++ "/" ++ variantSize ++ "/" ++ callSign.

Definition newFileUrl (E : Env) (newZipKey : string) : string :=
  "https://s3." ++ AWS_REGION E ++ ".amazonaws.com/" ++ AWS_DESIGNS_BUCKET E
  ++ "/" ++ newZipKey.

(** The conditional link format. *)
Definition designLinkString (orderName : string) (index total : nat) (url : string)
  : string :=
  if (1 <? total)%nat
  then orderName ++ "-" ++ pretty index ++ "/" ++ pretty total ++ "-" ++ url ++ ";"
  else orderName ++ "-" ++ url ++ ";".

Definition processItem (E : Env) (payload : Payload) (total : nat)
    (item : LineItem) : M (Locals * World) unit :=
  match callSignValue item with
  | Some callSign =>
      modifyLocals incrIndex ;;
      variant_title <- orThrow (item_variant_title item) TypeError ;;
      modifyLocals (pushTag (newTag variant_title callSign)) ;;
      newZipKey <- liftW (buildDesign E payload item callSign
                            (baseFilename (item_title item))) ;;
      l <- getLocals ;;
      modifyLocals (pushLink (designLinkString (pl_name payload) (itemIndex l) total
                                (newFileUrl E newZipKey)))
  | None => ret tt
  end.

Definition annotate (E : Env) (shop : string) (payload : Payload)
  : M (Locals * World) unit :=
  l <- getLocals ;;
  if (0 <? length (designLinks l))%nat
  then
    response <- liftW (gqlMutation E shop (pl_admin_graphql_api_id payload)
                         (dynamicTags l)
                         (newNote payload "--- Custom Design Files (Manual Recovery) ---"
                            (designLinks l))) ;;
    if ((0 <? length (fst response)) || (0 <? length (snd response)))%nat
    then liftW (consoleError EmptyString (UserErrors (fst response) (snd response)))
    else ret tt
  else ret tt.

(** [designLinks = []], [dynamicTags = ['has_custom_design',
    'manual_recovery']] and [itemIndex = 0] on entry. *)
Definition initLocals : Locals :=
  mkLocals 0 [] ["has_custom_design"; "manual_recovery"].

Definition itemLoop (E : Env) (payload : Payload) : M (Locals * World) unit :=
  forOf (processItem E payload (totalCustomItems payload)) (pl_line_items payload).

Definition processOrderPayload (E : Env) (payload : Payload) (shop : string)
  : M World unit :=
  withLocals initLocals
    (tryCatch
       (itemLoop E payload ;; annotate E shop payload)
       (fun error => liftW (consoleError (pl_name payload) (Caught error)))).

(** [Number(s)] on the trailing segment of a line-item GID: a run of
    decimal digits is that integer, the empty string is 0, and any other
    text is taken to be NaN. *)
Definition digitValue (c : ascii) : option Z :=
  let n := nat_of_ascii c in
  if ((48 <=? n) && (n <=? 57))%nat then Some (Z.of_nat (n - 48)) else None.

Fixpoint parseDigits (acc : Z) (s : string) : option Z :=
  match s with
  | EmptyString => Some acc
  | String c r =>
      match digitValue c with
      | Some d => parseDigits (10 * acc + d) r
      | None => None
      end
  end.

Definition Number (s : string) : JsNumber :=
  match parseDigits 0 s with
  | Some z => JsInt z
  | None => JsNaN
  end.

(** [edge.node.id.split('/').pop()] *)
Definition numericId (gid : string) : string :=
  List.last (Js.split gid "/") EmptyString.

(** The block that reshapes a queried order into a webhook payload. *)
Definition formattedPayload (orderNode : OrderNode) : Payload :=
  mkPayload (node_name orderNode) (node_note orderNode) (node_id orderNode)
    (map (fun node =>
            mkLineItem (Number (numericId (li_id node))) (li_title node)
              (li_variantTitle node)
              (Some (map (fun attr => mkProperty (fst attr) (snd attr))
                       (li_customAttributes node))))
       (node_lineItems orderNode)).

(** [orderNode.tags.includes("has_custom_design")] *)
Definition alreadyTagged (orderNode : OrderNode) : bool :=
  existsb (String.eqb "has_custom_design") (node_tags orderNode).

(** The body of the loop of [main] over the rows of [orders.csv], for a
    given order processor (the script has had two). *)
Definition processRow (E : Env) (process : Payload -> string -> M World unit)
    (orderName : string) : M World unit :=
  if Js.truthy orderName
  then
    tryCatch
      (orderNode <- gqlOrderQuery E (SHOP_URL E) ("name:" ++ orderName) ;;
       match orderNode with
       | Some node =>
           if alreadyTagged node then ret tt
           else process (formattedPayload node) (SHOP_URL E)
       | None => ret tt
       end)
      (fun error => consoleError orderName (Caught error))
  else ret tt.

(** [ordersToProcess]: the trimmed rows after the header. *)
Definition ordersToProcess (fileContent : string) : list string :=
  map Js.trim (tail (Js.split (Js.trim fileContent) Js.LF)).

Definition mainWith (E : Env) (process : Payload -> string -> M World unit)
    (fileContent : string) : M World unit :=
  forOf (processRow E process) (ordersToProcess fileContent).

Definition main (E : Env) (fileContent : string) : M World unit :=
  mainWith E (processOrderPayload E) fileContent.

End Recovery.

(** ** Notions the statements below are phrased with *)

(** The upper-cased title with every run of whitespace turned into one
    underscore: the first two steps of both [baseFilename]s. *)
Definition normalizedTitle (title : string) : string :=
  Js.replaceSpaceRuns false "_" (Js.toUpperCase title).

(** The suffix the variant selects. *)
Definition variantSuffix (variant_title : string) : string :=
  if Js.includes (Js.toLowerCase variant_title) "white"
     || Js.includes (Js.toLowerCase variant_title) "golden yellow"
  then "_FOR_LIGHT.zip" else "_FOR_DARK.zip".

(** All characters of a string but the last. *)
Fixpoint initChars (s : string) : string :=
  match s with
  | EmptyString => EmptyString
  | String c r =>
      match r with
      | EmptyString => EmptyString
      | String _ _ => String c (initChars r)
      end
  end.

(** [s] is [pre ++ pat ++ post] and no occurrence of [pat] starts inside
    [pre]: the leftmost occurrence of [pat] in [s] is the one after [pre]. *)
Definition firstOccurrence (s pat pre post : string) : Prop :=
  s = pre ++ pat ++ post /\ Js.includes (pre ++ initChars pat) pat = false.

Definition isMutation (c : Call) : bool :=
  match c with
  | GqlMutation _ _ _ _ => true
  | _ => false
  end.

Definition isPut (c : Call) : bool :=
  match c with
  | PutObject _ _ _ _ => true
  | _ => false
  end.

(** The order mutations among the calls made so far. *)
Definition mutationCalls (w : World) : list Call := List.filter isMutation (calls w).

(** The notes and the tag lists sent with the order mutations so far. *)
Definition notesWritten (w : World) : list string :=
  flat_map (fun c => match c with
                     | GqlMutation _ _ _ note => [note]
                     | _ => []
                     end) (calls w).

Definition tagsApplied (w : World) : list (list string) :=
  flat_map (fun c => match c with
                     | GqlMutation _ _ tags _ => [tags]
                     | _ => []
                     end) (calls w).

(** From [w] to [w'] calls were only added, each of the added calls
    satisfies [P], the orders on the platform changed only if a mutation is
    among them, and the buckets only if an upload is. *)
Definition evolves (P : Call -> Prop) (w w' : World) : Prop :=
  exists added,
    calls w' = (calls w ++ added)%list /\
    Forall P added /\
    (Forall (fun c => isMutation c = false) added -> shopOrders w' = shopOrders w) /\
    (Forall (fun c => isPut c = false) added -> s3 w' = s3 w).

(** [m] moves the world (the [proj] part of the state) along [R], and a
    value it returns satisfies [Q]. *)
Definition triple {S A} (proj : S -> World) (R : World -> World -> Prop)
    (m : M S A) (Q : A -> Prop) : Prop :=
  forall s, R (proj s) (proj (snd (m s))) /\ forall a, fst (m s) = Ok a -> Q a.

Definition anyValue {A} : A -> Prop := fun _ => True.

(** A call other than an order mutation. *)
Definition quietCall (c : Call) : Prop := isMutation c = false.

(** The call signs of the line items the loops process, in order. *)
Definition callSigns (items : list LineItem) : list string :=
  omap callSignValue items.

(** The classification tags of the line items the replay loop processes. *)
Definition classificationTags (items : list LineItem) : list string :=
  omap (fun item =>
          match callSignValue item, item_variant_title item with
          | Some callSign, Some variant_title =>
              Some (Recovery.newTag variant_title callSign)
          | _, _ => None
          end) items.

(** [stripped] is [orderName] without its first "#", if it has one. *)
Inductive firstHashRemoved : string -> string -> Prop :=
| fhr_absent (orderName : string) :
    Js.includes orderName "#" = false -> firstHashRemoved orderName orderName
| fhr_first (pre post : string) :
    Js.includes pre "#" = false ->
    firstHashRemoved (pre ++ "#" ++ post) (pre ++ post).


Module SpecReading.

(** The hyphen rule as the specification words it: every hyphen of the
    normalised title is doubled. *)
Fixpoint doubleEveryHyphen (s : string) : string :=
  match s with
  | EmptyString => EmptyString
  | String c r =>
      if Ascii.eqb c "-"
      then String "-" (String "-" (doubleEveryHyphen r))
      else String c (doubleEveryHyphen r)
  end.

(** The resolver as the specification words it: the upper-cased,
    underscore-joined title followed by the suffix of the variant. *)
Definition resolve (title variantDescriptor : string) : string :=
  normalizedTitle title ++ variantSuffix variantDescriptor.

(** Error containment as the specification words it: a failure inside one
    line item is caught and logged there, and the loop goes on. *)
Definition containedLoop (f : LineItem -> M (Locals * World) unit)
    (context : string) (items : list LineItem) : M (Locals * World) unit :=
  forOf (fun item =>
           tryCatch (f item)
             (fun error => liftW (consoleError context (Caught error))))
        items.

Definition webhookHandler (E : Env) (shop : string) (payload : Payload)
  : M World unit :=
  withLocals Live.initLocals
    (tryCatch
       (containedLoop (Live.processItem E payload (totalCustomItems payload)) EmptyString
          (pl_line_items payload) ;;
        Live.annotate E shop payload)
       (fun error => liftW (consoleError EmptyString (Caught error)))).

Definition processOrderPayload (E : Env) (payload : Payload) (shop : string)
  : M World unit :=
  withLocals Recovery.initLocals
    (tryCatch
       (containedLoop (Recovery.processItem E payload (totalCustomItems payload))
          (pl_name payload) (pl_line_items payload) ;;
        Recovery.annotate E shop payload)
       (fun error => liftW (consoleError (pl_name payload) (Caught error)))).

(** A line item is customisable when it carries a [call_sign] property
    with a non-empty value. *)
Definition customizable (item : LineItem) : bool :=
  match item_properties item with
  | Some ps =>
      existsb (fun p => namedCallSign p &&
                        match p_value p with
                        | Some v => Js.truthy v
                        | None => false
                        end) ps
  | None => false
  end.

End SpecReading.

(** ** A concrete shop

    One template bundle is in the templates bucket, for the light Classic
    Cap; every service answers, and the platform holds order #1001. *)

Module Scenario.

Import Byte.

Definition env : Env :=
  mkEnv "eu-west-1" "tpl" "dsg" "shop.example"
    (fun _ _ => false) (fun _ _ => false)
    (fun b => Some (<["art/template.png" := b]> {["readme.txt" := [x41]]}))
    (fun m => concat (map snd (map_to_list m)))
    (fun b _ => Some (b ++ [x2a])%list)
    (fun n => (1700000000000 + Z.of_nat n)%Z)
    (fun _ => false)
    (fun q o => String.eqb q ("name:" ++ node_name o))
    (fun _ => MutationResponse [] []).

Definition order1001 (tags : list string) : OrderNode :=
  mkOrderNode "gid://shopify/Order/1" "#1001" None tags [].

Definition world : World :=
  mkWorld {[ ("tpl", "CLASSIC_CAP_FOR_LIGHT.zip") := [x01] ]} [order1001 []] [] 0.

Definition cap (id : Z) (callSign : string) : LineItem :=
  mkLineItem (JsInt id) "Classic Cap" (Some "White / L")
    (Some [mkProperty "call_sign" (Some callSign)]).

Definition mug (id : Z) (callSign : string) : LineItem :=
  mkLineItem (JsInt id) "Mug" (Some "Black")
    (Some [mkProperty "call_sign" (Some callSign)]).

Definition plain (id : Z) : LineItem :=
  mkLineItem (JsInt id) "Sticker" (Some "Default") (Some []).

Definition order (items : list LineItem) : Payload :=
  mkPayload "#1001" None "gid://shopify/Order/1" items.

(** The scenario of the specification: one customised cap, one plain item. *)
Definition oneCustomItem : Payload := order [cap 77 "N1ABC"; plain 78].

(** Two customised caps and one whose call sign was left empty. *)
Definition twoAndAnEmpty : Payload := order [cap 77 "N1ABC"; cap 78 "K2XYZ"; cap 79 EmptyString].

(** A mug, for which no template exists, in front of a cap. *)
Definition failingFirst : Payload := order [mug 76 "N1ABC"; cap 77 "K2XYZ"].

(** The same two the other way round: the cap goes through, the mug fails. *)
Definition failingSecond : Payload := order [cap 77 "N1ABC"; mug 78 "K2XYZ"].

(** A customised product without variants: the platform sends
    [variant_title: null]. *)
Definition noVariant (id : Z) (callSign : string) : LineItem :=
  mkLineItem (JsInt id) "Classic Cap" None
    (Some [mkProperty "call_sign" (Some callSign)]).

Definition url1 : string :=
  "https://dsg.s3.eu-west-1.amazonaws.com/designs/1001-77-1700000000000.zip".
Definition url2 : string :=
  "https://dsg.s3.eu-west-1.amazonaws.com/designs/1001-78-1700000000001.zip".

End Scenario.

(** ** The first revision of the replay script ([src/unnamed/part_001])

    Its [main] is the one above, run with this order processor. *)

Module RecoveryV1.

(** [item.title.toUpperCase().replace(/\s+/g, '_').replace('-', '--')] *)
Definition baseFilename (title : string) : string :=
  Js.replaceFirst (Js.replaceSpaceRuns false "_" (Js.toUpperCase title)) "-" "--".

Definition newFileUrl (E : Env) (newZipKey : string) : string :=
  "https://" ++ AWS_DESIGNS_BUCKET E ++ ".s3." ++ AWS_REGION E
  ++ ".amazonaws.com/" ++ newZipKey.

(** [`${orderName}-${itemIndex}/${totalCustomItems}-${newFileUrl};`] *)
Definition designLink (orderName : string) (index total : nat) (url : string) : string :=
  orderName ++ "-" ++ pretty index ++ "/" ++ pretty total ++ "-" ++ url ++ ";".

Definition processItem (E : Env) (payload : Payload) (total : nat)
    (item : LineItem) : M (Locals * World) unit :=
  match callSignValue item with
  | Some callSign =>
      modifyLocals incrIndex ;;
      newZipKey <- liftW (buildDesign E payload item callSign
                            (baseFilename (item_title item))) ;;
      l <- getLocals ;;
      modifyLocals (pushLink (designLink (pl_name payload) (itemIndex l) total
                                (newFileUrl E newZipKey)))
  | None => ret tt
  end.

(** Step 5: the response of the mutation is not looked at. *)
Definition annotate (E : Env) (shop : string) (payload : Payload)
  : M (Locals * World) unit :=
  l <- getLocals ;;
  if (0 <? length (designLinks l))%nat
  then
    liftW (gqlMutation E shop (pl_admin_graphql_api_id payload)
             ["has_custom_design"; "manual_recovery"]
             (newNote payload "--- Custom Design Files (Manual Recovery) ---"
                (designLinks l))) ;;
    ret tt
  else ret tt.

Definition initLocals : Locals := mkLocals 0 [] [].

Definition itemLoop (E : Env) (payload : Payload) : M (Locals * World) unit :=
  forOf (processItem E payload (totalCustomItems payload)) (pl_line_items payload).

Definition processOrderPayload (E : Env) (payload : Payload) (shop : string)
  : M World unit :=
  withLocals initLocals
    (tryCatch
       (itemLoop E payload ;; annotate E shop payload)
       (fun error => liftW (consoleError (pl_name payload) (Caught error)))).

Definition main (E : Env) (fileContent : string) : M World unit :=
  Recovery.mainWith E (processOrderPayload E) fileContent.

End RecoveryV1.

(** ** The PNG revision of the live handler ([src/unnamed/part_000],
    lines 316-413)

    The template is a PNG fetched by key and the finished image itself is
    stored.  The text layer of this revision is styled differently, so its
    compositor is an argument of its own: [composite templateBuffer callSign]
    stands for lines 350-375. *)

Module LivePng.

(** [item.title.toLowerCase().replace(/\s+/g, '')] *)
Definition baseFilename (title : string) : string :=
  Js.replaceSpaceRuns false EmptyString (Js.toLowerCase title).

Definition templateKey (title variant_title : string) : string :=
  let variantTitle := Js.toLowerCase variant_title in
  if Js.includes variantTitle "white" || Js.includes variantTitle "golden yellow"
  then baseFilename title ++ "-forlight.png"
  else baseFilename title ++ "-fordark.png".

(** [`designs/${payload.name.replace('#', '')}-${item.id}-${Date.now()}.png`] *)
Definition imageKey (orderName : string) (id : JsNumber) (now : Z) : string :=
  "designs/" ++ Js.replaceFirst orderName "#" EmptyString ++ "-" ++ showNumber id
  ++ "-" ++ pretty now ++ ".png".

Definition buildImage (E : Env) (composite : bytes -> string -> option bytes)
    (payload : Payload) (item : LineItem) (callSign : string) : M World string :=
  variant_title <- orThrow (item_variant_title item) TypeError ;;
  let templateKey := templateKey (item_title item) variant_title in
  templateBuffer <- getObject E (AWS_TEMPLATES_BUCKET E) templateKey ;;
  finishedImageBuffer <- orThrow (composite templateBuffer callSign) SharpError ;;
  now <- DateNow E ;;
  let newImageKey := imageKey (pl_name payload) (item_id item) now in
  putObject E (AWS_DESIGNS_BUCKET E) newImageKey finishedImageBuffer "image/png" ;;
  ret newImageKey.

Definition processItem (E : Env) (composite : bytes -> string -> option bytes)
    (payload : Payload) (total : nat) (item : LineItem) : M (Locals * World) unit :=
  match callSignValue item with
  | Some callSign =>
      modifyLocals incrIndex ;;
      newImageKey <- liftW (buildImage E composite payload item callSign) ;;
      l <- getLocals ;;
      modifyLocals (pushLink (Live.designLink (pl_name payload) (itemIndex l) total
                                (Live.newImageUrl E newImageKey)))
  | None => ret tt
  end.

Definition annotate (E : Env) (shop : string) (payload : Payload)
  : M (Locals * World) unit :=
  l <- getLocals ;;
  if (0 <? length (designLinks l))%nat
  then
    liftW (gqlMutation E shop (pl_admin_graphql_api_id payload)
             ["has_custom_design"]
             (newNote payload "--- Custom Design Files ---" (designLinks l))) ;;
    ret tt
  else ret tt.

Definition itemLoop (E : Env) (composite : bytes -> string -> option bytes)
    (payload : Payload) : M (Locals * World) unit :=
  forOf (processItem E composite payload (totalCustomItems payload))
        (pl_line_items payload).

Definition webhookHandler (E : Env) (composite : bytes -> string -> option bytes)
    (shop : string) (payload : Payload) : M World unit :=
  withLocals Live.initLocals
    (tryCatch
       (itemLoop E composite payload ;; annotate E shop payload)
       (fun error => liftW (consoleError EmptyString (Caught error)))).

End LivePng.

(** ** Further notions for the statements below *)

(** The changes a service call can make to the world: a call is recorded,
    the clock is read, an object is stored in the designs bucket, or the
    note and tags of the orders with one of the admitted ids are updated. *)
Inductive worldStep (E : Env) (ids : string -> Prop) : World -> World -> Prop :=
| step_call (c : Call) (w : World) :
    worldStep E ids w (logCall c w)
| step_clock (w : World) :
    worldStep E ids w (tick w)
| step_store (key : string) (body : bytes) (w : World) :
    worldStep E ids w (setS3 (<[(AWS_DESIGNS_BUCKET E, key) := body]> (s3 w)) w)
| step_order (id : string) (tags : option (list string)) (note : option string)
    (w : World) :
    ids id ->
    worldStep E ids w (setOrders (map (applyMutation id tags note) (shopOrders w)) w).

Inductive reaches (E : Env) (ids : string -> Prop) : World -> World -> Prop :=
| reaches_here (w : World) : reaches E ids w w
| reaches_step (w1 w2 w3 : World) :
    worldStep E ids w1 w2 -> reaches E ids w2 w3 -> reaches E ids w1 w3.

(** The keys under which a loop that goes through stores its archives:
    one per processed line item, each with the next reading of the clock. *)
Fixpoint expectedKeys (E : Env) (orderName : string) (clock : nat)
    (items : list LineItem) : list string :=
  match items with
  | [] => []
  | item :: rest =>
      match callSignValue item with
      | Some _ =>
          designKey orderName (item_id item) (dateNow E clock)
          :: expectedKeys E orderName (S clock) rest
      | None => expectedKeys E orderName clock rest
      end
  end.

(** The uploads among the calls made so far. *)
Definition putCalls (w : World) : list Call := List.filter isPut (calls w).

(** An order carries the marker tag. *)
Definition tagged (o : OrderNode) : Prop := In "has_custom_design" (node_tags o).

(** Two orders differ in note and tags at most. *)
Definition sameOrderBut (o o' : OrderNode) : Prop :=
  node_id o' = node_id o /\ node_name o' = node_name o /\
  node_lineItems o' = node_lineItems o.

(** From [w] to [w'] the buckets other than the designs bucket are what
    they were, no object has left any bucket, the clock has not gone back
    and the record of calls has only been extended. *)
Definition storeKept (E : Env) (w w' : World) : Prop :=
  (forall bucket key,
     bucket <> AWS_DESIGNS_BUCKET E ->
     s3 w' !! (bucket, key) = s3 w !! (bucket, key)) /\
  (forall bucket key, is_Some (s3 w !! (bucket, key)) -> is_Some (s3 w' !! (bucket, key))) /\
  (clockReads w <= clockReads w')%nat /\
  exists added, calls w' = (calls w ++ added)%list.

(** From [w] to [w'] the platform holds the same orders in the same
    sequence; each has kept its id, name, line items and the tags it had,
    and an order whose id is not among [ids] is unchanged. *)
Definition ordersKept (ids : string -> Prop) (w w' : World) : Prop :=
  Forall2
    (fun o o' =>
       sameOrderBut o o' /\
       (forall t, In t (node_tags o) -> In t (node_tags o')) /\
       (~ ids (node_id o) -> o' = o))
    (shopOrders w) (shopOrders w').

(** The keys of the uploads in a record of calls, in order. *)
Definition uploadedKeys (cs : list Call) : list string :=
  flat_map (fun c => match c with
                     | PutObject _ key _ _ => [key]
                     | _ => []
                     end) cs.

(** The note lines of the live handler for a list of keys, numbered from 1. *)
Definition liveLinks (E : Env) (payload : Payload) (keys : list string) : list string :=
  zip_with (fun i key =>
              Live.designLink (pl_name payload) i (totalCustomItems payload)
                (Live.newImageUrl E key))
    (seq 1 (length keys)) keys.

(** The note lines of the replay script for a list of keys. *)
Definition recoveryLinks (E : Env) (payload : Payload) (keys : list string)
  : list string :=
  zip_with (fun i key =>
              Recovery.designLinkString (pl_name payload) i (totalCustomItems payload)
                (Recovery.newFileUrl E key))
    (seq 1 (length keys)) keys.

(** A call to the object store. *)
Definition isS3Call (c : Call) : bool :=
  match c with
  | GetObject _ _ | PutObject _ _ _ _ => true
  | _ => false
  end.

(** No character of the string is whitespace. *)
Fixpoint noSpace (s : string) : bool :=
  match s with
  | EmptyString => true
  | String c r => negb (Js.isSpace c) && noSpace r
  end.

(** The calls the PNG revision of the handler can make for a payload: it
    fetches the light or dark image of one of the products, uploads PNG
    images to the designs bucket, sends the marker tag to the order of the
    payload and logs what it catches. *)
Definition pngCall (E : Env) (payload : Payload) (c : Call) : Prop :=
  match c with
  | GetObject bucket key =>
      bucket = AWS_TEMPLATES_BUCKET E /\
      exists item,
        In item (pl_line_items payload) /\
        (key = LivePng.baseFilename (item_title item) ++ "-forlight.png" \/
         key = LivePng.baseFilename (item_title item) ++ "-fordark.png")
  | PutObject bucket key _ contentType =>
      bucket = AWS_DESIGNS_BUCKET E /\ contentType = "image/png" /\
      Js.startsWith key "designs/" = true /\ Js.endsWith key ".png" = true
  | GqlQuery _ _ => False
  | GqlMutation _ id tags _ =>
      id = pl_admin_graphql_api_id payload /\ tags = ["has_custom_design"]
  | ConsoleError _ (Caught _) => True
  | ConsoleError _ (UserErrors _ _) => False
  end.

(** ** Registration of the webhook ([registerWebhook], [src/unnamed/part_000])

    The function talks to the platform's webhook subscriptions and to the
    console only, so it has a state of its own. *)

Module Registration.

(** A webhook subscription as the platform holds it. *)
Record Subscription := mkSubscription {
  sub_id : string;
  sub_topic : string;
  sub_callbackUrl : string;
  sub_format : string
}.

(** The three requests the function sends. *)
Inductive Request :=
| ListSubscriptions (first : nat) (topics : string)
| DeleteSubscription (id : string)
| CreateSubscription (topic callbackUrl format : string).

(** The lines it writes to the console. *)
Inductive Line :=
| Deleted (id : string)                  (* [Deleted old webhook: ${edge.node.id}] *)
| Created                                (* [Successfully created new webhook subscription!] *)
| CreateFailed (userErrors : list string).
                                         (* [Failed to create webhook subscription:] *)

Record Shop := mkShop {
  subscriptions : list Subscription;
  sent : list Request;
  console : list Line
}.

(** What the code cannot see: [process.env.HOST], whether the client rejects
    a request, and the platform's answer to a creation, the id of the new
    subscription or its user errors. *)
Record Platform := mkPlatform {
  HOST : string;
  rejects : Request -> bool;
  creation : list Subscription -> string + list string
}.

Definition hasTopic (topic : string) (x : Subscription) : bool :=
  String.eqb (sub_topic x) topic.

Definition setSubscriptions (subs : list Subscription) (s : Shop) : Shop :=
  mkShop subs (sent s) (console s).

Definition say (line : Line) (s : Shop) : Shop :=
  mkShop (subscriptions s) (sent s) (console s ++ [line]).

(** [await client.request(...)]: the request goes out, the client may reject. *)
Definition request (P : Platform) (r : Request) : M Shop unit :=
  modify (fun s => mkShop (subscriptions s) (sent s ++ [r]) (console s)) ;;
  if rejects P r then throw GqlError else ret tt.

(** [webhookSubscriptions(first: n, topics: t) { edges { node { id } } }] *)
Definition listSubscriptions (P : Platform) (first : nat) (topic : string)
  : M Shop (list string) :=
  request P (ListSubscriptions first topic) ;;
  gets (fun s => map sub_id (take first (List.filter (hasTopic topic) (subscriptions s)))).

(** [webhookSubscriptionDelete(id: $id)]; its user errors are not read. *)
Definition deleteSubscription (P : Platform) (id : string) : M Shop unit :=
  request P (DeleteSubscription id) ;;
  modify (fun s =>
            setSubscriptions
              (List.filter (fun x => negb (String.eqb (sub_id x) id)) (subscriptions s)) s).

(** [webhookSubscriptionCreate(topic: ..., webhookSubscription: ...)]: the
    answer carries [webhookSubscription] or [userErrors]. *)
Definition createSubscription (P : Platform) (topic callbackUrl format : string)
  : M Shop (string + list string) :=
  request P (CreateSubscription topic callbackUrl format) ;;
  subs <- gets subscriptions ;;
  match creation P subs with
  | inl id =>
      modify (setSubscriptions (subs ++ [mkSubscription id topic callbackUrl format])) ;;
      ret (inl id)
  | inr userErrors => ret (inr userErrors)
  end.

Definition deleteEdge (P : Platform) (id : string) : M Shop unit :=
  deleteSubscription P id ;;
  modify (say (Deleted id)).

Definition registerWebhook (P : Platform) : M Shop unit :=
  existingWebhooks <- listSubscriptions P 5 "ORDERS_CREATE" ;;
  forOf (deleteEdge P) existingWebhooks ;;
  response <- createSubscription P "ORDERS_CREATE" (HOST P ++ "/webhooks") "JSON" ;;
  match response with
  | inl _ => modify (say Created)
  | inr userErrors => modify (say (CreateFailed userErrors))
  end.

(** The subscription a successful run leaves behind. *)
Definition ownSubscription (P : Platform) (id : string) : Subscription :=
  mkSubscription id "ORDERS_CREATE" (HOST P ++ "/webhooks") "JSON".

(** A shop with two subscriptions to order creation and one to another topic. *)
Definition exampleShop : Shop :=
  mkShop [mkSubscription "w1" "ORDERS_CREATE" "https://old.example/webhooks" "JSON";
          mkSubscription "w2" "ORDERS_PAID" "https://other.example/paid" "JSON";
          mkSubscription "w3" "ORDERS_CREATE" "https://older.example/webhooks" "JSON"]
    [] [].

Definition obliging : Platform :=
  mkPlatform "https://app.example" (fun _ => false) (fun _ => inl "w4").

Definition refusing : Platform :=
  mkPlatform "https://app.example" (fun _ => false) (fun _ => inr ["Address is invalid"]).

Definition unreachable : Platform :=
  mkPlatform "https://app.example"
    (fun r => match r with DeleteSubscription "w3" => true | _ => false end)
    (fun _ => inl "w4").

End Registration.

(** ** More concrete situations *)

Module Outage.

(** The shop of [Scenario] on a day the order platform rejects every call. *)
Definition env : Env :=
  mkEnv "eu-west-1" "tpl" "dsg" "shop.example"
    (s3GetFails Scenario.env) (s3PutFails Scenario.env)
    (loadAsync Scenario.env) (generateAsync Scenario.env)
    (sharpComposite Scenario.env) (dateNow Scenario.env)
    (fun _ => true) (queryMatches Scenario.env) (fun _ => MutationRejected).

(** The same shop on a day the platform refuses the tags of every
    mutation with a user error. *)
Definition refusingTags : Env :=
  mkEnv "eu-west-1" "tpl" "dsg" "shop.example"
    (s3GetFails Scenario.env) (s3PutFails Scenario.env)
    (loadAsync Scenario.env) (generateAsync Scenario.env)
    (sharpComposite Scenario.env) (dateNow Scenario.env)
    (queryFails Scenario.env) (queryMatches Scenario.env)
    (fun _ => MutationResponse ["Tag is invalid"] []).

End Outage.

Module Replay.

(** The platform holding order #1001 with one customised cap, untagged. *)
Definition capNode : LineItemNode :=
  mkLineItemNode "gid://shopify/LineItem/77" "Classic Cap" (Some "White / L")
    [("call_sign", Some "N1ABC")].

Definition order1001 : OrderNode :=
  mkOrderNode "gid://shopify/Order/1" "#1001" None ["vip"] [capNode].

Definition world : World :=
  mkWorld (s3 Scenario.world) [order1001] [] 0.

End Replay.

(** * Properties *)

(** ** Strings *)

Section StringFacts.

Lemma app_empty_l (s : string) : EmptyString ++ s = s.
Proof. reflexivity. Qed.

Lemma app_cons (a : ascii) (p s : string) : String a p ++ s = String a (p ++ s).
Proof. reflexivity. Qed.

Lemma startsWith_cons (a b : ascii) (p s : string) :
  Js.startsWith (String b s) (String a p) =
  if Ascii.eqb a b then Js.startsWith s p else false.
Proof. reflexivity. Qed.

Lemma startsWith_app (p s : string) : Js.startsWith (p ++ s) p = true.
Proof.
  induction p as [|a p IH]; [reflexivity|].
  rewrite app_cons. simpl. now rewrite Ascii.eqb_refl.
Qed.

Lemma dropChars_app (p s : string) : Js.dropChars (String.length p) (p ++ s) = s.
Proof.
  induction p as [|a p IH]; [now destruct s|].
  rewrite app_cons. exact IH.
Qed.

Lemma startsWith_long (x y p : string) :
  (String.length p <= String.length x)%nat ->
  Js.startsWith (x ++ y) p = Js.startsWith x p.
Proof.
  revert p. induction x as [|a x IH]; intros [|b p] Hlen;
    rewrite ?app_cons, ?app_empty_l; simpl in *; try reflexivity; try lia.
  destruct (Ascii.eqb b a); [apply IH; lia | reflexivity].
Qed.

Lemma string_app_assoc (a b c : string) : (a ++ b) ++ c = a ++ (b ++ c).
Proof.
  induction a as [|x a IH]; [reflexivity|].
  rewrite !app_cons. now rewrite IH.
Qed.

Lemma string_app_empty (a : string) : a ++ EmptyString = a.
Proof.
  induction a as [|x a IH]; [reflexivity|].
  rewrite app_cons. now rewrite IH.
Qed.

Lemma string_length_app (a b : string) :
  String.length (a ++ b) = (String.length a + String.length b)%nat.
Proof.
  induction a as [|x a IH]; [reflexivity|].
  rewrite app_cons. simpl. now rewrite IH.
Qed.

Lemma initChars_last (p : string) :
  p <> EmptyString -> exists c, p = initChars p ++ String c EmptyString.
Proof.
  induction p as [|a p IH]; intros Hne; [congruence|].
  destruct p as [|b p].
  - exists a. reflexivity.
  - destruct IH as [c Hc]; [discriminate|].
    exists c.
    change (initChars (String a (String b p))) with (String a (initChars (String b p))).
    rewrite app_cons. now rewrite <- Hc.
Qed.

Lemma length_initChars (p : string) :
  String.length (initChars p) = (String.length p - 1)%nat.
Proof.
  induction p as [|a p IH]; [reflexivity|].
  destruct p as [|b p]; [reflexivity|].
  change (initChars (String a (String b p))) with (String a (initChars (String b p))).
  simpl String.length in *. rewrite IH. lia.
Qed.

Lemma replaceFirst_unfold (s pat rep : string) :
  Js.replaceFirst s pat rep =
  if Js.startsWith s pat then rep ++ Js.dropChars (String.length pat) s
  else match s with
       | EmptyString => EmptyString
       | String c r => String c (Js.replaceFirst r pat rep)
       end.
Proof. destruct s; reflexivity. Qed.

Lemma includes_unfold (s p : string) :
  Js.includes s p =
  Js.startsWith s p || match s with
                       | EmptyString => false
                       | String _ r => Js.includes r p
                       end.
Proof. destruct s; reflexivity. Qed.

(** A pattern that does not occur leaves the string alone. *)
Lemma replaceFirst_absent (s pat rep : string) :
  Js.includes s pat = false -> Js.replaceFirst s pat rep = s.
Proof.
  induction s as [|a s IH]; rewrite includes_unfold, replaceFirst_unfold;
    intros H; apply orb_false_iff in H as [H1 H2]; rewrite H1; [reflexivity|].
  now rewrite IH.
Qed.

(** Only the leftmost occurrence is rewritten; what follows it is copied. *)
Lemma replaceFirst_leftmost (pre pat rep post : string) :
  Js.includes (pre ++ initChars pat) pat = false ->
  Js.replaceFirst (pre ++ pat ++ post) pat rep = pre ++ rep ++ post.
Proof.
  destruct (String.string_dec pat EmptyString) as [->|Hne].
  { intros H. rewrite includes_unfold in H. simpl in H. discriminate. }
  induction pre as [|a pre IH]; intros H.
  - rewrite !app_empty_l, replaceFirst_unfold, startsWith_app, dropChars_app.
    reflexivity.
  - rewrite includes_unfold in H. apply orb_false_iff in H as [H1 H2].
    rewrite replaceFirst_unfold.
    destruct (initChars_last pat Hne) as [c Hc].
    assert (Hs : Js.startsWith (String a pre ++ pat ++ post) pat = false).
    { rewrite Hc at 1. rewrite string_app_assoc.
      rewrite <- (string_app_assoc (String a pre)).
      rewrite startsWith_long; [exact H1|].
      rewrite string_length_app, length_initChars. simpl. lia. }
    rewrite Hs, !app_cons. f_equal. apply IH. exact H2.
Qed.

Lemma includes_char_cons (c a : ascii) (r : string) :
  Js.includes (String a r) (String c EmptyString)
  = Ascii.eqb c a || Js.includes r (String c EmptyString).
Proof. simpl. destruct (Ascii.eqb c a); [now destruct r | reflexivity]. Qed.

Lemma upperChar_hyphen (a : ascii) :
  Ascii.eqb "-" (Js.upperChar a) = Ascii.eqb "-" a.
Proof. destruct a as [[] [] [] [] [] [] [] []]; reflexivity. Qed.

Lemma isSpace_hyphen (a : ascii) : Js.isSpace a = true -> Ascii.eqb "-" a = false.
Proof. destruct a as [[] [] [] [] [] [] [] []]; vm_compute; congruence. Qed.

Lemma includes_hyphen_upper (s : string) :
  Js.includes (Js.toUpperCase s) "-" = Js.includes s "-".
Proof.
  induction s as [|a s IH]; [reflexivity|].
  change (Js.toUpperCase (String a s)) with (String (Js.upperChar a) (Js.toUpperCase s)).
  now rewrite !includes_char_cons, upperChar_hyphen, IH.
Qed.

Lemma includes_hyphen_spaces (b : bool) (s : string) :
  Js.includes (Js.replaceSpaceRuns b "_" s) "-" = Js.includes s "-".
Proof.
  revert b. induction s as [|a s IH]; intros b; [reflexivity|].
  rewrite includes_char_cons. simpl Js.replaceSpaceRuns.
  destruct (Js.isSpace a) eqn:Hsp.
  - rewrite (isSpace_hyphen a Hsp). destruct b.
    + now rewrite IH.
    + change ("_" ++ Js.replaceSpaceRuns true "_" s)
        with (String "_" (Js.replaceSpaceRuns true "_" s)).
      now rewrite includes_char_cons, IH.
  - now rewrite includes_char_cons, IH.
Qed.

(** Normalising a title neither adds nor removes hyphens. *)
Lemma normalizedTitle_hyphen (title : string) :
  Js.includes (normalizedTitle title) "-" = Js.includes title "-".
Proof.
  unfold normalizedTitle. now rewrite includes_hyphen_spaces, includes_hyphen_upper.
Qed.

Lemma no_hyphen_no_tshirt (s : string) :
  Js.includes s "-" = false -> Js.includes s "T-SHIRT" = false.
Proof.
  induction s as [|a s IH]; [reflexivity|].
  rewrite includes_char_cons. intros H. apply orb_false_iff in H as [Ha Hs].
  rewrite includes_unfold, (IH Hs), orb_false_r.
  change "T-SHIRT" with (String "T" (String "-" "SHIRT")).
  rewrite startsWith_cons. destruct (Ascii.eqb "T" a); [|reflexivity].
  destruct s as [|b s]; [reflexivity|].
  rewrite startsWith_cons.
  rewrite includes_char_cons in Hs. apply orb_false_iff in Hs as [Hb _].
  now rewrite Hb.
Qed.

(** The three tests mean what their JavaScript names say. *)
Lemma startsWith_spec (s p : string) :
  Js.startsWith s p = true <-> exists post, s = p ++ post.
Proof.
  revert s. induction p as [|a p IH]; intros s.
  - split; [intros _; now exists s | reflexivity].
  - destruct s as [|b s].
    + split; [discriminate | intros [post H]; discriminate H].
    + rewrite startsWith_cons. destruct (Ascii.eqb a b) eqn:Hab.
      * apply Ascii.eqb_eq in Hab as ->. rewrite IH. split.
        -- intros [post ->]. now exists post.
        -- intros [post H]. rewrite app_cons in H. injection H as ->. now exists post.
      * split; [discriminate|]. intros [post H]. rewrite app_cons in H.
        injection H as <- _. now rewrite Ascii.eqb_refl in Hab.
Qed.

Lemma includes_spec (s p : string) :
  Js.includes s p = true <-> exists pre post, s = pre ++ p ++ post.
Proof.
  induction s as [|a s IH]; rewrite includes_unfold, orb_true_iff, startsWith_spec.
  - split.
    + intros [[post H]|H]; [|discriminate]. now exists EmptyString, post.
    + intros (pre & post & H). left. exists post.
      destruct pre; [exact H | discriminate H].
  - rewrite IH. split.
    + intros [[post H]|(pre & post & ->)]; [now exists EmptyString, post|].
      now exists (String a pre), post.
    + intros (pre & post & H). destruct pre as [|b pre].
      * left. now exists post.
      * right. rewrite app_cons in H. injection H as _ ->. now exists pre, post.
Qed.

Lemma endsWith_unfold (s p : string) :
  Js.endsWith s p =
  String.eqb s p || match s with
                    | EmptyString => false
                    | String _ r => Js.endsWith r p
                    end.
Proof. destruct s; reflexivity. Qed.

Lemma endsWith_spec (s p : string) :
  Js.endsWith s p = true <-> exists pre, s = pre ++ p.
Proof.
  induction s as [|a s IH]; rewrite endsWith_unfold, orb_true_iff, String.eqb_eq.
  - split.
    + intros [<-|H]; [now exists EmptyString | discriminate].
    + intros [pre H]. left. destruct pre; [exact H | discriminate H].
  - rewrite IH. split.
    + intros [<-|[pre ->]]; [now exists EmptyString | now exists (String a pre)].
    + intros [pre H]. destruct pre as [|b pre].
      * now left.
      * right. rewrite app_cons in H. injection H as _ ->. now exists pre.
Qed.

Example toUpperCase_example : Js.toUpperCase "Classic Cap" = "CLASSIC CAP".
Proof. reflexivity. Qed.

Example replaceSpaceRuns_example :
  Js.replaceSpaceRuns false "_" " a  b c " = "_a_b_c_".
Proof. reflexivity. Qed.

Example replaceFirst_example : Js.replaceFirst "#10#01" "#" EmptyString = "10#01".
Proof. reflexivity. Qed.

Example split_example :
  Js.split "White / 2XL" " / " = ["White"; "2XL"] /\
  Js.split "Default" " / " = ["Default"] /\
  Js.split "a / b / " " / " = ["a"; "b"; EmptyString] /\
  Js.split EmptyString "/" = [EmptyString].
Proof. repeat split; reflexivity. Qed.

Example trim_example : Js.trim "  #1001 " = "#1001".
Proof. reflexivity. Qed.

End StringFacts.

(** ** Template keys *)

Lemma templateKeyFor_suffix (base variant_title : string) :
  templateKeyFor base variant_title = base ++ variantSuffix variant_title.
Proof.
  unfold templateKeyFor, variantSuffix.
  now destruct (Js.includes (Js.toLowerCase variant_title) "white"
                || Js.includes (Js.toLowerCase variant_title) "golden yellow").
Qed.

(** C4, as stated, fails: in the title "Long-Sleeve T-Shirt" the live path
    doubles the first hyphen only and the replay path only the hyphen of
    T-SHIRT, while doubling every hyphen gives a third name. *)
Lemma C4_counterexample :
  Live.baseFilename "Long-Sleeve T-Shirt" = "LONG--SLEEVE_T-SHIRT" /\
  Recovery.baseFilename "Long-Sleeve T-Shirt" = "LONG-SLEEVE_T--SHIRT" /\
  SpecReading.doubleEveryHyphen (normalizedTitle "Long-Sleeve T-Shirt")
    = "LONG--SLEEVE_T--SHIRT" /\
  Live.baseFilename "Long-Sleeve T-Shirt"
    <> SpecReading.doubleEveryHyphen (normalizedTitle "Long-Sleeve T-Shirt") /\
  Recovery.baseFilename "Long-Sleeve T-Shirt"
    <> SpecReading.doubleEveryHyphen (normalizedTitle "Long-Sleeve T-Shirt").
Proof.
  repeat split; try reflexivity; vm_compute; intros H; discriminate H.
Qed.

(** C4 (amended): the template-key derivation escapes one occurrence only.
    On the live path the leftmost hyphen of the normalised title is doubled
    and everything after it, later hyphens included, is copied unchanged; on
    the replay path the leftmost T-SHIRT becomes T--SHIRT and nothing else
    changes.  A title without the pattern keeps its normalised form. *)
Theorem C4_leftmost_occurrence_escaped (title pre post : string) :
  (firstOccurrence (normalizedTitle title) "-" pre post ->
   Live.baseFilename title = pre ++ "--" ++ post) /\
  (firstOccurrence (normalizedTitle title) "T-SHIRT" pre post ->
   Recovery.baseFilename title = pre ++ "T--SHIRT" ++ post) /\
  (Js.includes (normalizedTitle title) "-" = false ->
   Live.baseFilename title = normalizedTitle title) /\
  (Js.includes (normalizedTitle title) "T-SHIRT" = false ->
   Recovery.baseFilename title = normalizedTitle title).
Proof.
  unfold Live.baseFilename, Recovery.baseFilename.
  fold (normalizedTitle title).
  repeat split.
  - intros [-> Hfirst]. now apply replaceFirst_leftmost.
  - intros [-> Hfirst]. now apply replaceFirst_leftmost.
  - apply replaceFirst_absent.
  - apply replaceFirst_absent.
Qed.

Lemma C4_leftmost_occurrence_escaped_witness :
  Live.baseFilename "Long-Sleeve T-Shirt" = "LONG" ++ "--" ++ "SLEEVE_T-SHIRT" /\
  Recovery.baseFilename "Long-Sleeve T-Shirt" = "LONG-SLEEVE_" ++ "T--SHIRT" ++ EmptyString /\
  Live.baseFilename "Classic Cap" = normalizedTitle "Classic Cap" /\
  Recovery.baseFilename "Long-Sleeve Shirt" = normalizedTitle "Long-Sleeve Shirt".
Proof.
  split; [|split; [|split]].
  - apply (C4_leftmost_occurrence_escaped "Long-Sleeve T-Shirt" "LONG" "SLEEVE_T-SHIRT").
    split; reflexivity.
  - apply (C4_leftmost_occurrence_escaped "Long-Sleeve T-Shirt" "LONG-SLEEVE_" EmptyString).
    split; reflexivity.
  - apply (C4_leftmost_occurrence_escaped "Classic Cap" EmptyString EmptyString). reflexivity.
  - apply (C4_leftmost_occurrence_escaped "Long-Sleeve Shirt" EmptyString EmptyString). reflexivity.
Defined.

(** C8, as stated, fails on a title with a hyphen: the key is not the
    upper-cased, underscore-joined title followed by the suffix. *)
Lemma C8_counterexample :
  SpecReading.resolve "T-Shirt" "Black / M" = "T-SHIRT_FOR_DARK.zip" /\
  Live.templateKey "T-Shirt" "Black / M" = "T--SHIRT_FOR_DARK.zip" /\
  Recovery.templateKey "T-Shirt" "Black / M" = "T--SHIRT_FOR_DARK.zip" /\
  Live.templateKey "T-Shirt" "Black / M" <> SpecReading.resolve "T-Shirt" "Black / M" /\
  Recovery.templateKey "T-Shirt" "Black / M" <> SpecReading.resolve "T-Shirt" "Black / M".
Proof.
  repeat split; try reflexivity; vm_compute; intros H; discriminate H.
Qed.

(** C8 (amended): for every title and variant descriptor the resolved key
    is the base filename (the upper-cased, underscore-joined title after the
    hyphen escaping of the path) followed by _FOR_LIGHT.zip when the
    lower-cased descriptor contains "white" or "golden yellow", and by
    _FOR_DARK.zip otherwise.  For a title without a hyphen the base filename
    is the upper-cased, underscore-joined title itself, and
    ("Classic Cap", "White / L") resolves to CLASSIC_CAP_FOR_LIGHT.zip.  The
    resolver is a function of its two arguments alone. *)
Theorem C8_template_key (title variantDescriptor : string) :
  let light :=
    Js.includes (Js.toLowerCase variantDescriptor) "white"
    || Js.includes (Js.toLowerCase variantDescriptor) "golden yellow" in
  let suffix := if light then "_FOR_LIGHT.zip" else "_FOR_DARK.zip" in
  Live.templateKey title variantDescriptor = Live.baseFilename title ++ suffix /\
  Recovery.templateKey title variantDescriptor = Recovery.baseFilename title ++ suffix /\
  (Js.includes title "-" = false ->
   Live.templateKey title variantDescriptor = normalizedTitle title ++ suffix /\
   Recovery.templateKey title variantDescriptor = normalizedTitle title ++ suffix) /\
  Live.templateKey "Classic Cap" "White / L" = "CLASSIC_CAP_FOR_LIGHT.zip" /\
  Recovery.templateKey "Classic Cap" "White / L" = "CLASSIC_CAP_FOR_LIGHT.zip".
Proof.
  cbv zeta. fold (variantSuffix variantDescriptor).
  unfold Live.templateKey, Recovery.templateKey.
  rewrite !templateKeyFor_suffix.
  split; [reflexivity|]. split; [reflexivity|]. split; [|split; reflexivity].
  intros Hno. rewrite <- normalizedTitle_hyphen in Hno.
  unfold Live.baseFilename, Recovery.baseFilename. fold (normalizedTitle title).
  rewrite !replaceFirst_absent; auto using no_hyphen_no_tshirt.
Qed.

Lemma C8_template_key_witness :
  Live.templateKey "Classic Cap" "Golden Yellow / S"
    = normalizedTitle "Classic Cap" ++ "_FOR_LIGHT.zip" /\
  Recovery.templateKey "Classic Cap" "Navy / S"
    = normalizedTitle "Classic Cap" ++ "_FOR_DARK.zip".
Proof.
  split.
  - destruct (C8_template_key "Classic Cap" "Golden Yellow / S") as (_ & _ & H & _).
    apply H. reflexivity.
  - destruct (C8_template_key "Classic Cap" "Navy / S") as (_ & _ & H & _).
    apply H. reflexivity.
Defined.

(** ** The monad *)

Section Triples.

Context {S : Type} (proj : S -> World) (R : World -> World -> Prop).
Hypothesis R_refl : forall w, R w w.
Hypothesis R_trans : forall a b c, R a b -> R b c -> R a c.

Lemma triple_ret {A} (a : A) (Q : A -> Prop) : Q a -> triple proj R (ret a) Q.
Proof. intros HQ s. split; [apply R_refl|]. simpl. now intros ? [= <-]. Qed.

Lemma triple_throw {A} (e : Exn) (Q : A -> Prop) : triple proj R (throw e) Q.
Proof. intros s. split; [apply R_refl|]. simpl. discriminate. Qed.

Lemma triple_gets {A} (f : S -> A) (Q : A -> Prop) :
  (forall s, Q (f s)) -> triple proj R (gets f) Q.
Proof. intros HQ s. split; [apply R_refl|]. simpl. intros ? [= <-]. apply HQ. Qed.

Lemma triple_orThrow {A} (o : option A) (e : Exn) (Q : A -> Prop) :
  (forall a, o = Some a -> Q a) -> triple proj R (orThrow o e) Q.
Proof.
  destruct o as [a|]; simpl; intros HQ.
  - apply triple_ret. now apply HQ.
  - apply triple_throw.
Qed.

Lemma triple_weaken {A} (m : M S A) (Q Q' : A -> Prop) :
  triple proj R m Q -> (forall a, Q a -> Q' a) -> triple proj R m Q'.
Proof. intros Hm HQ s. destruct (Hm s) as [HR Hv]. split; auto. Qed.

Lemma triple_bind {A B} (m : M S A) (k : A -> M S B) (Q : A -> Prop)
    (Q' : B -> Prop) :
  triple proj R m Q -> (forall a, Q a -> triple proj R (k a) Q') ->
  triple proj R (bind m k) Q'.
Proof.
  intros Hm Hk s. unfold bind. destruct (Hm s) as [HR Hv].
  destruct (m s) as [[a|e] s1]; simpl in *.
  - destruct (Hk a (Hv a eq_refl) s1) as [HR' Hv'].
    split; [eapply R_trans; eassumption | exact Hv'].
  - split; [exact HR | discriminate].
Qed.

Lemma triple_tryCatch {A} (m : M S A) (h : Exn -> M S A) (Q : A -> Prop) :
  triple proj R m Q -> (forall e, triple proj R (h e) Q) ->
  triple proj R (tryCatch m h) Q.
Proof.
  intros Hm Hh s. unfold tryCatch. destruct (Hm s) as [HR Hv].
  destruct (m s) as [[a|e] s1]; simpl in *.
  - split; [exact HR | exact Hv].
  - destruct (Hh e s1) as [HR' Hv'].
    split; [eapply R_trans; eassumption | exact Hv'].
Qed.

Lemma triple_forOf {A} (f : A -> M S unit) (l : list A) :
  (forall x, In x l -> triple proj R (f x) anyValue) ->
  triple proj R (forOf f l) anyValue.
Proof.
  induction l as [|x l IH]; intros Hf; simpl.
  - now apply triple_ret.
  - eapply triple_bind; [apply Hf; now left|].
    intros _ _. apply IH. intros y Hy. apply Hf. now right.
Qed.

End Triples.

Section Lifting.

Context (R : World -> World -> Prop).

Lemma triple_liftW {A} (m : M World A) (Q : A -> Prop) :
  triple (fun w => w) R m Q -> triple snd R (liftW m) Q.
Proof.
  intros Hm [l w]. unfold liftW. simpl. destruct (Hm w) as [HR Hv].
  destruct (m w) as [r w']. simpl in *. split; assumption.
Qed.

Lemma triple_withLocals {A} (l0 : Locals) (m : M (Locals * World) A)
    (Q : A -> Prop) :
  triple snd R m Q -> triple (fun w => w) R (withLocals l0 m) Q.
Proof.
  intros Hm w. unfold withLocals. destruct (Hm (l0, w)) as [HR Hv].
  destruct (m (l0, w)) as [r [l w']]. simpl in *. split; assumption.
Qed.

Lemma triple_modifyLocals (f : Locals -> Locals) :
  (forall w, R w w) -> triple snd R (modifyLocals f) anyValue.
Proof. intros Hrefl [l w]. simpl. split; [apply Hrefl | constructor]. Qed.

End Lifting.

(** The loop over a list that splits around an element. *)
Lemma forOf_app {S A} (f : A -> M S unit) (pre rest : list A) (s : S) :
  forOf f (pre ++ rest)%list s =
  match forOf f pre s with
  | (Ok _, s1) => forOf f rest s1
  | (Throw e, s1) => (Throw e, s1)
  end.
Proof.
  revert s. induction pre as [|x pre IH]; intros s; simpl; [reflexivity|].
  unfold bind. destruct (f x s) as [[[]|e] s1]; [apply IH | reflexivity].
Qed.

(** A loop whose body does nothing does nothing. *)
Lemma forOf_skip {S A} (f : A -> M S unit) (l : list A) (s : S) :
  Forall (fun x => f x = ret tt) l -> forOf f l s = (Ok tt, s).
Proof.
  induction 1 as [|x l Hx _ IH]; simpl; [reflexivity|].
  unfold bind. rewrite Hx. simpl. exact IH.
Qed.

(** ** How the world evolves *)

Lemma evolves_refl (P : Call -> Prop) (w : World) : evolves P w w.
Proof. exists []. rewrite app_nil_r. repeat split; auto. Qed.

Lemma evolves_trans (P : Call -> Prop) (a b c : World) :
  evolves P a b -> evolves P b c -> evolves P a c.
Proof.
  intros (l1 & E1 & F1 & O1 & S1) (l2 & E2 & F2 & O2 & S2).
  exists (l1 ++ l2)%list. rewrite E2, E1, app_assoc.
  split; [reflexivity|]. split; [now apply Forall_app|].
  split; intros H; apply Forall_app in H as [H1 H2].
  - rewrite O2, O1; auto.
  - rewrite S2, S1; auto.
Qed.

Lemma evolves_logCall (P : Call -> Prop) (c : Call) (w : World) :
  P c -> evolves P w (logCall c w).
Proof. intros HP. exists [c]. simpl. repeat split; auto. Qed.

Lemma evolves_weaken (P P' : Call -> Prop) (w w' : World) :
  (forall c, P c -> P' c) -> evolves P w w' -> evolves P' w w'.
Proof.
  intros HPP (l & E1 & F1 & O1 & S1). exists l. repeat split; auto.
  eapply List.Forall_impl; [exact HPP | exact F1].
Qed.

Section Services.

Context (E : Env) (P : Call -> Prop).

Lemma getObject_triple (bucket key : string) :
  P (GetObject bucket key) ->
  triple (fun w => w) (evolves P) (getObject E bucket key) anyValue.
Proof.
  intros HP w. unfold getObject.
  destruct (s3GetFails E bucket key); [|destruct (s3 w !! (bucket, key))]; simpl;
    (split; [now apply evolves_logCall | constructor || discriminate]).
Qed.

Lemma putObject_triple (bucket key : string) (body : bytes) (contentType : string) :
  P (PutObject bucket key body contentType) ->
  triple (fun w => w) (evolves P) (putObject E bucket key body contentType) anyValue.
Proof.
  intros HP w. unfold putObject.
  destruct (s3PutFails E bucket key); simpl.
  - split; [now apply evolves_logCall | discriminate].
  - split; [|constructor].
    exists [PutObject bucket key body contentType]. simpl.
    repeat split; auto. intros H. inversion H; subst. discriminate.
Qed.

Lemma DateNow_triple :
  triple (fun w => w) (evolves P) (DateNow E) (fun now => exists n, now = dateNow E n).
Proof.
  intros w. unfold DateNow. simpl. split.
  - exists []. simpl. rewrite app_nil_r. repeat split; auto.
  - intros a [= <-]. now exists (clockReads w).
Qed.

Lemma consoleError_triple (context : string) (entry : LogEntry) :
  P (ConsoleError context entry) ->
  triple (fun w => w) (evolves P) (consoleError context entry) anyValue.
Proof.
  intros HP w. unfold consoleError, modify. simpl.
  split; [now apply evolves_logCall | constructor].
Qed.

Lemma gqlMutation_triple (shop id : string) (tags : list string) (note : string) :
  P (GqlMutation shop id tags note) ->
  triple (fun w => w) (evolves P) (gqlMutation E shop id tags note) anyValue.
Proof.
  intros HP w. unfold gqlMutation.
  destruct (mutationOutcome E id) as [|te oe]; simpl.
  - split; [now apply evolves_logCall | discriminate].
  - split; [|constructor].
    exists [GqlMutation shop id tags note]. simpl.
    repeat split; auto. intros H. inversion H; subst. discriminate.
Qed.

End Services.

(** ** The pipeline moves the world along [evolves] *)

Ltac triple_step :=
  lazymatch goal with
  | |- triple _ (evolves _) (bind _ _) _ =>
      eapply triple_bind; [apply evolves_trans | | intros ? ?]
  | |- triple _ (evolves _) (orThrow _ _) _ =>
      apply triple_orThrow; [apply evolves_refl | intros; exact I]
  | |- triple _ (evolves _) (ret _) _ =>
      apply triple_ret; [apply evolves_refl | try exact I]
  | |- triple _ (evolves _) (liftW _) _ => apply triple_liftW
  | |- triple _ (evolves _) (modifyLocals _) _ =>
      apply triple_modifyLocals, evolves_refl
  | |- triple _ (evolves _) getLocals _ =>
      apply (triple_gets snd _ (evolves_refl _) fst anyValue); intros; exact I
  | |- triple _ (evolves _) (DateNow _) _ => apply DateNow_triple
  end.

Section Pipeline.

Context (E : Env) (payload : Payload) (P : Call -> Prop).
Hypothesis P_get : forall bucket key, P (GetObject bucket key).
Hypothesis P_put :
  forall item n body,
    In item (pl_line_items payload) -> callSignValue item <> None ->
    P (PutObject (AWS_DESIGNS_BUCKET E)
         (designKey (pl_name payload) (item_id item) (dateNow E n))
         body "application/zip").

Lemma buildDesign_triple (item : LineItem) (callSign base : string) :
  In item (pl_line_items payload) -> callSignValue item <> None ->
  triple (fun w => w) (evolves P) (buildDesign E payload item callSign base) anyValue.
Proof.
  intros Hin Hcs. unfold buildDesign.
  triple_step; [triple_step|].
  triple_step; [apply getObject_triple, P_get|].
  triple_step; [triple_step|].
  triple_step; [triple_step|].
  triple_step; [triple_step|].
  triple_step; [triple_step|].
  cbv beta in *.
  match goal with H : exists n, _ = _ |- _ => destruct H as [n ->] end.
  triple_step; [apply putObject_triple, P_put; assumption|].
  triple_step.
Qed.

Lemma Live_processItem_triple (total : nat) (item : LineItem) :
  In item (pl_line_items payload) ->
  triple snd (evolves P) (Live.processItem E payload total item) anyValue.
Proof.
  intros Hin. unfold Live.processItem.
  destruct (callSignValue item) as [callSign|] eqn:Hcs; [|triple_step].
  triple_step; [triple_step|].
  triple_step; [triple_step; apply buildDesign_triple; congruence|].
  triple_step; [triple_step|].
  triple_step.
Qed.

Lemma Recovery_processItem_triple (total : nat) (item : LineItem) :
  In item (pl_line_items payload) ->
  triple snd (evolves P) (Recovery.processItem E payload total item) anyValue.
Proof.
  intros Hin. unfold Recovery.processItem.
  destruct (callSignValue item) as [callSign|] eqn:Hcs; [|triple_step].
  triple_step; [triple_step|].
  triple_step; [triple_step|].
  triple_step; [triple_step|].
  triple_step; [triple_step; apply buildDesign_triple; congruence|].
  triple_step; [triple_step|].
  triple_step.
Qed.

Lemma Live_itemLoop_triple :
  triple snd (evolves P) (Live.itemLoop E payload) anyValue.
Proof.
  apply triple_forOf; [apply evolves_refl | apply evolves_trans|].
  intros item Hin. now apply Live_processItem_triple.
Qed.

Lemma Recovery_itemLoop_triple :
  triple snd (evolves P) (Recovery.itemLoop E payload) anyValue.
Proof.
  apply triple_forOf; [apply evolves_refl | apply evolves_trans|].
  intros item Hin. now apply Recovery_processItem_triple.
Qed.

Hypothesis P_mutation : forall shop id tags note, P (GqlMutation shop id tags note).
Hypothesis P_log : forall context entry, P (ConsoleError context entry).





End Pipeline.

(** ** C10: the key of an upload *)

Lemma includes_char_split (c : ascii) (s : string) :
  Js.includes s (String c EmptyString) = true ->
  exists pre post, s = pre ++ String c post /\ Js.includes pre (String c EmptyString) = false.
Proof.
  induction s as [|a s IH]; [discriminate|].
  rewrite includes_char_cons. destruct (Ascii.eqb c a) eqn:Hca; simpl.
  - intros _. apply Ascii.eqb_eq in Hca as ->. now exists EmptyString, s.
  - intros H. destruct (IH H) as (pre & post & -> & Hpre).
    exists (String a pre), post. split; [reflexivity|].
    now rewrite includes_char_cons, Hca.
Qed.

(** Every order name has a stripped form ... *)
Lemma firstHashRemoved_total (orderName : string) :
  exists stripped, firstHashRemoved orderName stripped.
Proof.
  destruct (Js.includes orderName "#") eqn:H.
  - destruct (includes_char_split _ _ H) as (pre & post & -> & Hpre).
    exists (pre ++ post). now apply (fhr_first pre post).
  - exists orderName. now constructor.
Qed.


(** A line item that goes through leaves exactly two calls behind, the
    fetch of its template and the upload of its design. *)
Lemma buildDesign_ok (E : Env) (payload : Payload) (item : LineItem)
    (callSign base : string) (w w' : World) (key : string) :
  buildDesign E payload item callSign base w = (Ok key, w') ->
  key = designKey (pl_name payload) (item_id item) (dateNow E (clockReads w)) /\
  exists variant_title body,
    item_variant_title item = Some variant_title /\
    calls w' = (calls w ++
                [GetObject (AWS_TEMPLATES_BUCKET E)
                   (templateKeyFor base variant_title);
                 PutObject (AWS_DESIGNS_BUCKET E) key body "application/zip"])%list /\
    s3 w' = <[(AWS_DESIGNS_BUCKET E, key) := body]> (s3 w).
Proof.
  unfold buildDesign, bind, getObject, orThrow, DateNow, putObject, ret, throw.
  destruct (item_variant_title item) as [variant_title|]; [|discriminate].
  destruct (s3GetFails E _ _); [discriminate|].
  destruct (s3 w !! _) as [buf|]; [|discriminate].
  destruct (loadAsync E buf) as [zip|]; [|discriminate].
  destruct (templatePngFile zip) as [png|]; [|discriminate].
  destruct (sharpComposite E png callSign) as [img|]; [|discriminate].
  simpl. destruct (s3PutFails E _ _); [discriminate|].
  intros [= <- <-]. split; [reflexivity|].
  exists variant_title. eexists. simpl. rewrite <- app_assoc. repeat split.
Qed.



(** ** C6: repackaging *)

Lemma copyEntries_lookup (zip : gmap string bytes) (path : string) :
  copyEntries zip !! path =
  if Js.endsWith path "template.png" then None else zip !! path.
Proof.
  unfold copyEntries.
  apply (map_fold_weak_ind
           (fun (newZip m : gmap string bytes) =>
              newZip !! path =
              if Js.endsWith path "template.png" then None else m !! path)).
  - rewrite lookup_empty. now destruct (Js.endsWith path "template.png").
  - intros relativePath file m newZip Hfresh IH.
    destruct (decide (relativePath = path)) as [->|Hne].
    + destruct (Js.endsWith path "template.png") eqn:Hp; [exact IH|].
      now rewrite !lookup_insert_eq.
    + destruct (Js.endsWith relativePath "template.png").
      * rewrite IH. now rewrite lookup_insert_ne.
      * rewrite !lookup_insert_ne by assumption. exact IH.
Qed.

(** C6, as stated, fails for a bundle that already holds an entry named
    design.png: that entry does not match the template pattern, yet its
    bytes are replaced by the new image. *)
Lemma C6_counterexample :
  let zip : gmap string bytes :=
    <["template.png" := [Byte.x01]]> {["design.png" := [Byte.x02]]} in
  Js.endsWith "design.png" "template.png" = false /\
  zip !! "design.png" = Some [Byte.x02] /\
  repack zip [Byte.x03] !! "design.png" = Some [Byte.x03] /\
  repack zip [Byte.x03] !! "design.png" <> zip !! "design.png".
Proof.
  cbv zeta. unfold repack. rewrite lookup_insert_eq.
  rewrite lookup_insert_ne by discriminate. rewrite lookup_singleton_eq.
  repeat split; discriminate.
Qed.

(** C6 (amended): for every bundle and replacement image, the repackaged
    bundle holds every entry that neither ends in template.png nor is named
    design.png, with its bytes, under its path, and nothing else under such
    a path; it holds no entry ending in template.png; and design.png holds
    the replacement image. *)
Theorem C6_repack (zip : gmap string bytes) (finishedImageBuffer : bytes) :
  (forall path,
     Js.endsWith path "template.png" = false -> path <> "design.png" ->
     repack zip finishedImageBuffer !! path = zip !! path) /\
  (forall path,
     Js.endsWith path "template.png" = true ->
     repack zip finishedImageBuffer !! path = None) /\
  repack zip finishedImageBuffer !! "design.png" = Some finishedImageBuffer.
Proof.
  unfold repack. split; [|split].
  - intros path Hp Hne. rewrite lookup_insert_ne by congruence.
    now rewrite copyEntries_lookup, Hp.
  - intros path Hp. rewrite lookup_insert_ne.
    + now rewrite copyEntries_lookup, Hp.
    + intros <-. discriminate Hp.
  - apply lookup_insert_eq.
Qed.

Lemma C6_repack_witness :
  let zip : gmap string bytes :=
    <["art/template.png" := [Byte.x01]]> {["readme.txt" := [Byte.x41]]} in
  repack zip [Byte.x03] !! "readme.txt" = zip !! "readme.txt" /\
  repack zip [Byte.x03] !! "art/template.png" = None.
Proof.
  cbv zeta. split.
  - apply (C6_repack _ [Byte.x03]); [reflexivity | discriminate].
  - apply (C6_repack _ [Byte.x03]). reflexivity.
Defined.

(** ** C5, C1: when the order update runs *)

Lemma quiet_evolves (w w' : World) :
  evolves quietCall w w' ->
  mutationCalls w' = mutationCalls w /\ shopOrders w' = shopOrders w.
Proof.
  intros (added & Hcalls & Hall & Horders & _). split; [|now apply Horders].
  unfold mutationCalls. rewrite Hcalls, List.filter_app.
  replace (List.filter isMutation added) with (@nil Call); [apply app_nil_r|].
  symmetry. clear Hcalls Horders. induction Hall as [|c l Hc _ IH]; [reflexivity|].
  simpl. now rewrite Hc.
Qed.

(** Neither item loop sends a mutation. *)
Lemma Live_itemLoop_quiet (E : Env) (payload : Payload) (s : Locals * World) :
  evolves quietCall (snd s) (snd (snd (Live.itemLoop E payload s))).
Proof. apply (Live_itemLoop_triple E payload quietCall); reflexivity. Qed.

Lemma Recovery_itemLoop_quiet (E : Env) (payload : Payload) (s : Locals * World) :
  evolves quietCall (snd s) (snd (snd (Recovery.itemLoop E payload s))).
Proof. apply (Recovery_itemLoop_triple E payload quietCall); reflexivity. Qed.

(** What a handler of the common shape does, by the outcome of its loop. *)
Lemma handler_unfold {A} (l0 : Locals) (loop : M (Locals * World) A)
    (annotate : M (Locals * World) unit) (context : string) (w : World) :
  withLocals l0
    (tryCatch (loop ;; annotate)
       (fun error => liftW (consoleError context (Caught error)))) w =
  match loop (l0, w) with
  | (Ok _, s1) =>
      match annotate s1 with
      | (Ok _, s2) => (Ok tt, snd s2)
      | (Throw e, s2) => (Ok tt, logCall (ConsoleError context (Caught e)) (snd s2))
      end
  | (Throw e, s1) => (Ok tt, logCall (ConsoleError context (Caught e)) (snd s1))
  end.
Proof.
  unfold withLocals, tryCatch, bind.
  destruct (loop (l0, w)) as [[a|e] [l1 w1]]; [|reflexivity].
  destruct (annotate (l1, w1)) as [[[]|e] [l2 w2]]; reflexivity.
Qed.

Lemma Live_annotate_no_links (E : Env) (shop : string) (payload : Payload)
    (s : Locals * World) :
  designLinks (fst s) = [] -> Live.annotate E shop payload s = (Ok tt, s).
Proof.
  intros H. unfold Live.annotate, bind, getLocals, gets. now rewrite H.
Qed.

Lemma Recovery_annotate_no_links (E : Env) (shop : string) (payload : Payload)
    (s : Locals * World) :
  designLinks (fst s) = [] -> Recovery.annotate E shop payload s = (Ok tt, s).
Proof.
  intros H. unfold Recovery.annotate, bind, getLocals, gets. now rewrite H.
Qed.

Lemma quiet_log (context : string) (entry : LogEntry) (w w' : World) :
  evolves quietCall w w' ->
  evolves quietCall w (logCall (ConsoleError context entry) w').
Proof.
  intros H. eapply evolves_trans; [exact H|]. now apply evolves_logCall.
Qed.

(** A line item the loops process is customisable: it carries a call_sign
    property with a non-empty value. *)
Lemma not_customizable_no_callSign (item : LineItem) :
  SpecReading.customizable item = false -> callSignValue item = None.
Proof.
  unfold SpecReading.customizable, callSignValue, callSignProp.
  destruct (item_properties item) as [ps|]; [|reflexivity].
  destruct (List.find namedCallSign ps) as [prop|] eqn:Hfind; [|reflexivity].
  apply List.find_some in Hfind as [Hin Hname].
  destruct (p_value prop) as [v|] eqn:Hv; [|reflexivity].
  destruct (Js.truthy v) eqn:Htruthy; [|reflexivity].
  intros Hnot. exfalso.
  assert (Hex : existsb (fun p => namedCallSign p &&
                                  match p_value p with
                                  | Some v => Js.truthy v
                                  | None => false
                                  end) ps = true).
  { apply existsb_exists. exists prop. now rewrite Hname, Hv, Htruthy. }
  congruence.
Qed.

(** C5: when the item loop of an order ends, or is cut short, with no
    result link, no order mutation is sent and the orders on the platform,
    their notes and tags included, are what they were.  In particular an
    order without a customisable line item leaves the whole world as it
    was. *)
Theorem C5_no_links_no_annotation (E : Env) (shop : string) (payload : Payload)
    (w : World) :
  (designLinks (fst (snd (Live.itemLoop E payload (Live.initLocals, w)))) = [] ->
   mutationCalls (snd (Live.webhookHandler E shop payload w)) = mutationCalls w /\
   shopOrders (snd (Live.webhookHandler E shop payload w)) = shopOrders w) /\
  (designLinks (fst (snd (Recovery.itemLoop E payload (Recovery.initLocals, w)))) = [] ->
   mutationCalls (snd (Recovery.processOrderPayload E payload shop w)) = mutationCalls w /\
   shopOrders (snd (Recovery.processOrderPayload E payload shop w)) = shopOrders w) /\
  (Forall (fun item => SpecReading.customizable item = false) (pl_line_items payload) ->
   Live.webhookHandler E shop payload w = (Ok tt, w) /\
   Recovery.processOrderPayload E payload shop w = (Ok tt, w)).
Proof.
  split; [|split].
  - intros Hlinks. apply quiet_evolves.
    unfold Live.webhookHandler. rewrite handler_unfold.
    pose proof (Live_itemLoop_quiet E payload (Live.initLocals, w)) as Hq.
    destruct (Live.itemLoop E payload (Live.initLocals, w)) as [[[]|e] s1]; simpl in *.
    + now rewrite Live_annotate_no_links.
    + now apply quiet_log.
  - intros Hlinks. apply quiet_evolves.
    unfold Recovery.processOrderPayload. rewrite handler_unfold.
    pose proof (Recovery_itemLoop_quiet E payload (Recovery.initLocals, w)) as Hq.
    destruct (Recovery.itemLoop E payload (Recovery.initLocals, w)) as [[[]|e] s1];
      simpl in *.
    + now rewrite Recovery_annotate_no_links.
    + now apply quiet_log.
  - intros Hnone.
    assert (Hskip : Forall (fun item => callSignValue item = None)
                      (pl_line_items payload)).
    { eapply List.Forall_impl; [|exact Hnone]. apply not_customizable_no_callSign. }
    clear Hnone. rename Hskip into Hnone. split.
    + unfold Live.webhookHandler. rewrite handler_unfold.
      unfold Live.itemLoop. rewrite forOf_skip.
      * now rewrite Live_annotate_no_links.
      * eapply List.Forall_impl; [|exact Hnone].
        intros item Hitem. unfold Live.processItem. now rewrite Hitem.
    + unfold Recovery.processOrderPayload. rewrite handler_unfold.
      unfold Recovery.itemLoop. rewrite forOf_skip.
      * now rewrite Recovery_annotate_no_links.
      * eapply List.Forall_impl; [|exact Hnone].
        intros item Hitem. unfold Recovery.processItem. now rewrite Hitem.
Qed.

Lemma C5_no_links_no_annotation_witness :
  (mutationCalls (snd (Live.webhookHandler Scenario.env "shop"
                         (Scenario.order [Scenario.mug 76 "N1ABC"]) Scenario.world))
     = mutationCalls Scenario.world /\
   shopOrders (snd (Live.webhookHandler Scenario.env "shop"
                      (Scenario.order [Scenario.mug 76 "N1ABC"]) Scenario.world))
     = shopOrders Scenario.world) /\
  (mutationCalls (snd (Recovery.processOrderPayload Scenario.env
                         (Scenario.order [Scenario.mug 76 "N1ABC"]) "shop" Scenario.world))
     = mutationCalls Scenario.world /\
   shopOrders (snd (Recovery.processOrderPayload Scenario.env
                      (Scenario.order [Scenario.mug 76 "N1ABC"]) "shop" Scenario.world))
     = shopOrders Scenario.world) /\
  Live.webhookHandler Scenario.env "shop" (Scenario.order [Scenario.plain 78])
    Scenario.world = (Ok tt, Scenario.world).
Proof.
  split; [|split].
  - destruct (C5_no_links_no_annotation Scenario.env "shop"
                (Scenario.order [Scenario.mug 76 "N1ABC"]) Scenario.world)
      as (H & _ & _).
    apply H. vm_compute. reflexivity.
  - destruct (C5_no_links_no_annotation Scenario.env "shop"
                (Scenario.order [Scenario.mug 76 "N1ABC"]) Scenario.world)
      as (_ & H & _).
    apply H. vm_compute. reflexivity.
  - destruct (C5_no_links_no_annotation Scenario.env "shop"
                (Scenario.order [Scenario.plain 78]) Scenario.world)
      as (_ & _ & H).
    apply H. repeat constructor.
Defined.

(** C1, as stated, fails.  In an order whose first customised item has no
    template and whose second one has, the handlers stop at the first: the
    second item is never fetched or uploaded and no order mutation is sent,
    whereas item-level containment would upload the second design and
    annotate the order with its link. *)
Lemma C1_counterexample :
  calls (snd (Live.webhookHandler Scenario.env "shop" Scenario.failingFirst
                Scenario.world))
    = [GetObject "tpl" "MUG_FOR_DARK.zip";
       ConsoleError EmptyString (Caught (S3Error "tpl" "MUG_FOR_DARK.zip"))] /\
  calls (snd (Recovery.processOrderPayload Scenario.env Scenario.failingFirst "shop"
                Scenario.world))
    = [GetObject "tpl" "MUG_FOR_DARK.zip";
       ConsoleError "#1001" (Caught (S3Error "tpl" "MUG_FOR_DARK.zip"))] /\
  notesWritten (snd (SpecReading.webhookHandler Scenario.env "shop"
                       Scenario.failingFirst Scenario.world))
    = ["--- Custom Design Files ---" ++ Js.LF ++ "#1001-2/2-" ++ Scenario.url1 ++ ";"] /\
  mutationCalls (snd (Live.webhookHandler Scenario.env "shop" Scenario.failingFirst
                        Scenario.world))
    <> mutationCalls (snd (SpecReading.webhookHandler Scenario.env "shop"
                             Scenario.failingFirst Scenario.world)) /\
  mutationCalls (snd (Recovery.processOrderPayload Scenario.env Scenario.failingFirst
                        "shop" Scenario.world))
    <> mutationCalls (snd (SpecReading.processOrderPayload Scenario.env
                             Scenario.failingFirst "shop" Scenario.world)).
Proof.
  repeat split; try (vm_compute; reflexivity); vm_compute; intros H; discriminate H.
Qed.

(** ** C7: the replay script skips tagged orders *)

Lemma alreadyTagged_In (o : OrderNode) :
  In "has_custom_design" (node_tags o) -> Recovery.alreadyTagged o = true.
Proof.
  intros H. unfold Recovery.alreadyTagged. apply existsb_exists.
  exists "has_custom_design". split; [exact H | apply String.eqb_refl].
Qed.

(** C7: in the replay script, a row whose order the platform returns with
    the tag has_custom_design among its tags costs the one query and nothing
    else: no template is fetched, nothing is stored, no mutation is sent,
    the order processor is not entered, and the loop goes on with the rows
    that follow.  This holds for either revision of the order processor. *)
Theorem C7_tagged_order_skipped (E : Env)
    (process : Payload -> string -> M World unit)
    (orderName : string) (rest : list string) (w : World)
    (o : OrderNode) (others : list OrderNode) :
  Js.truthy orderName = true ->
  queryFails E ("name:" ++ orderName) = false ->
  List.filter (queryMatches E ("name:" ++ orderName)) (shopOrders w) = o :: others ->
  In "has_custom_design" (node_tags o) ->
  let w' := logCall (GqlQuery (SHOP_URL E) ("name:" ++ orderName)) w in
  Recovery.processRow E process orderName w = (Ok tt, w') /\
  forOf (Recovery.processRow E process) (orderName :: rest) w
    = forOf (Recovery.processRow E process) rest w' /\
  calls w' = (calls w ++ [GqlQuery (SHOP_URL E) ("name:" ++ orderName)])%list /\
  s3 w' = s3 w /\ shopOrders w' = shopOrders w.
Proof.
  intros Hname Hquery Hfound Htag w'.
  assert (Hrow : Recovery.processRow E process orderName w = (Ok tt, w')).
  { unfold Recovery.processRow. rewrite Hname.
    unfold tryCatch, bind, gqlOrderQuery. rewrite Hquery, Hfound.
    rewrite (alreadyTagged_In (mkOrderNode _ _ _ (node_tags o) _)) by exact Htag.
    reflexivity. }
  split; [exact Hrow|]. split; [|repeat split].
  simpl. unfold bind. now rewrite Hrow.
Qed.

Lemma C7_tagged_order_skipped_witness :
  let tagged :=
    mkWorld (s3 Scenario.world) [Scenario.order1001 ["vip"; "has_custom_design"]] [] 0 in
  Recovery.processRow Scenario.env (Recovery.processOrderPayload Scenario.env)
    "#1001" tagged
  = (Ok tt, logCall (GqlQuery "shop.example" "name:#1001") tagged).
Proof.
  cbv zeta.
  apply (C7_tagged_order_skipped Scenario.env
           (Recovery.processOrderPayload Scenario.env) "#1001" []
           (mkWorld (s3 Scenario.world)
              [Scenario.order1001 ["vip"; "has_custom_design"]] [] 0)
           (Scenario.order1001 ["vip"; "has_custom_design"]) []);
    try reflexivity.
  simpl. right. left. reflexivity.
Defined.

(** ** What a run that goes through leaves in the locals *)

Lemma Live_processItem_ok (E : Env) (payload : Payload) (total : nat)
    (item : LineItem) (l l' : Locals) (w w' : World) :
  Live.processItem E payload total item (l, w) = (Ok tt, (l', w')) ->
  match callSignValue item with
  | Some callSign =>
      exists key,
        buildDesign E payload item callSign (Live.baseFilename (item_title item)) w
          = (Ok key, w') /\
        l' = pushLink (Live.designLink (pl_name payload) (S (itemIndex l)) total
                         (Live.newImageUrl E key)) (incrIndex l)
  | None => l' = l /\ w' = w
  end.
Proof.
  unfold Live.processItem. destruct (callSignValue item) as [callSign|].
  - unfold bind, modifyLocals, modify, liftW, getLocals, gets. simpl.
    destruct (buildDesign E payload item callSign _ w) as [[key|e] w1]; simpl;
      intros [= <- <-]. now exists key.
  - now intros [= <- <-].
Qed.

Lemma Recovery_processItem_ok (E : Env) (payload : Payload) (total : nat)
    (item : LineItem) (l l' : Locals) (w w' : World) :
  Recovery.processItem E payload total item (l, w) = (Ok tt, (l', w')) ->
  match callSignValue item with
  | Some callSign =>
      exists variant_title key,
        item_variant_title item = Some variant_title /\
        buildDesign E payload item callSign (Recovery.baseFilename (item_title item)) w
          = (Ok key, w') /\
        l' = pushLink (Recovery.designLinkString (pl_name payload) (S (itemIndex l))
                         total (Recovery.newFileUrl E key))
               (pushTag (Recovery.newTag variant_title callSign) (incrIndex l))
  | None => l' = l /\ w' = w
  end.
Proof.
  unfold Recovery.processItem. destruct (callSignValue item) as [callSign|].
  - unfold bind, modifyLocals, modify, liftW, getLocals, gets, orThrow. simpl.
    destruct (item_variant_title item) as [variant_title|]; [|discriminate]. simpl.
    destruct (buildDesign E payload item callSign _ w) as [[key|e] w1]; simpl;
      intros [= <- <-]. now exists variant_title, key.
  - now intros [= <- <-].
Qed.

(** A live loop that goes through has pushed one link per processed line
    item, numbered from the index it started with, all with the same
    denominator. *)
Lemma Live_loop_links (E : Env) (payload : Payload) (total : nat)
    (items : list LineItem) (l l' : Locals) (w w' : World) :
  forOf (Live.processItem E payload total) items (l, w) = (Ok tt, (l', w')) ->
  exists urls,
    length urls = length (callSigns items) /\
    designLinks l' =
      (designLinks l ++
       zip_with (fun i url => Live.designLink (pl_name payload) i total url)
         (seq (S (itemIndex l)) (length urls)) urls)%list /\
    dynamicTags l' = dynamicTags l.
Proof.
  revert l w. induction items as [|item items IH]; intros l w; simpl.
  - intros [= <- <-]. exists []. simpl. now rewrite app_nil_r.
  - unfold bind.
    destruct (Live.processItem E payload total item (l, w)) as [[[]|e] [l1 w1]] eqn:Hitem;
      [|discriminate].
    intros Hrest. apply Live_processItem_ok in Hitem.
    destruct (IH _ _ Hrest) as (urls & Hlen & Hlinks & Htags).
    unfold callSigns in *. simpl. destruct (callSignValue item) as [callSign|].
    + destruct Hitem as (key & _ & ->). simpl in *.
      exists (Live.newImageUrl E key :: urls). simpl.
      rewrite Hlinks, Htags, <- app_assoc. repeat split. now rewrite Hlen.
    + destruct Hitem as [-> ->]. now exists urls.
Qed.

(** A replay loop that goes through has pushed one link and one
    classification tag per processed line item. *)
Lemma Recovery_loop_locals (E : Env) (payload : Payload) (total : nat)
    (items : list LineItem) (l l' : Locals) (w w' : World) :
  forOf (Recovery.processItem E payload total) items (l, w) = (Ok tt, (l', w')) ->
  exists urls,
    length urls = length (callSigns items) /\
    designLinks l' =
      (designLinks l ++
       zip_with (fun i url => Recovery.designLinkString (pl_name payload) i total url)
         (seq (S (itemIndex l)) (length urls)) urls)%list /\
    dynamicTags l' = (dynamicTags l ++ classificationTags items)%list.
Proof.
  revert l w. induction items as [|item items IH]; intros l w; simpl.
  - intros [= <- <-]. exists []. simpl. now rewrite !app_nil_r.
  - unfold bind.
    destruct (Recovery.processItem E payload total item (l, w))
      as [[[]|e] [l1 w1]] eqn:Hitem; [|discriminate].
    intros Hrest. apply Recovery_processItem_ok in Hitem.
    destruct (IH _ _ Hrest) as (urls & Hlen & Hlinks & Htags).
    unfold callSigns, classificationTags in *. simpl.
    destruct (callSignValue item) as [callSign|].
    + destruct Hitem as (variant_title & key & -> & _ & ->). simpl in *.
      exists (Recovery.newFileUrl E key :: urls). simpl.
      rewrite Hlinks, Htags, <- !app_assoc. repeat split. now rewrite Hlen.
    + destruct Hitem as [-> ->]. now exists urls.
Qed.

(** The replay script, when it annotates, sends the marker, manual_recovery
    and one classification tag per processed line item, and note lines that
    carry the counter exactly when more than one line item has a call_sign
    property. *)
Lemma Recovery_annotation (E : Env) (payload : Payload) (shop : string)
    (w w1 : World) (l : Locals) :
  Recovery.itemLoop E payload (Recovery.initLocals, w) = (Ok tt, (l, w1)) ->
  designLinks l <> [] ->
  exists urls,
    length urls = length (callSigns (pl_line_items payload)) /\
    mutationCalls (snd (Recovery.processOrderPayload E payload shop w)) =
      (mutationCalls w ++
       [GqlMutation shop (pl_admin_graphql_api_id payload)
          ("has_custom_design" :: "manual_recovery"
             :: classificationTags (pl_line_items payload))
          (newNote payload "--- Custom Design Files (Manual Recovery) ---"
             (zip_with
                (fun i url =>
                   Recovery.designLinkString (pl_name payload) i
                     (totalCustomItems payload) url)
                (seq 1 (length urls)) urls))])%list.
Proof.
  intros Hloop Hlinks.
  pose proof (Recovery_itemLoop_quiet E payload (Recovery.initLocals, w)) as Hq.
  rewrite Hloop in Hq. apply quiet_evolves in Hq as [Hq _]. simpl in Hq.
  apply Recovery_loop_locals in Hloop as Hl.
  destruct Hl as (urls & Hlen & Hdl & Hdt). simpl in Hdl, Hdt.
  exists urls. split; [exact Hlen|].
  unfold Recovery.processOrderPayload. rewrite handler_unfold, Hloop.
  unfold Recovery.annotate, bind, getLocals, gets, liftW, gqlMutation. simpl.
  destruct (designLinks l) as [|link links] eqn:Hd; [congruence|]. simpl.
  rewrite <- Hdl, Hdt.
  destruct (mutationOutcome E _) as [|te oe]; simpl.
  - unfold mutationCalls in *. simpl.
    rewrite !List.filter_app. simpl. now rewrite app_nil_r, Hq.
  - destruct (_ || _); unfold consoleError, modify; simpl;
      unfold mutationCalls in *; simpl; rewrite ?List.filter_app; simpl;
      rewrite ?app_nil_r, Hq; reflexivity.
Qed.

(** The live handler, when it annotates, sends the marker tag alone and
    note lines that always carry the counter. *)
Lemma Live_annotation (E : Env) (payload : Payload) (shop : string)
    (w w1 : World) (l : Locals) :
  Live.itemLoop E payload (Live.initLocals, w) = (Ok tt, (l, w1)) ->
  designLinks l <> [] ->
  exists urls,
    length urls = length (callSigns (pl_line_items payload)) /\
    mutationCalls (snd (Live.webhookHandler E shop payload w)) =
      (mutationCalls w ++
       [GqlMutation shop (pl_admin_graphql_api_id payload) ["has_custom_design"]
          (newNote payload "--- Custom Design Files ---"
             (zip_with
                (fun i url =>
                   Live.designLink (pl_name payload) i (totalCustomItems payload) url)
                (seq 1 (length urls)) urls))])%list.
Proof.
  intros Hloop Hlinks.
  pose proof (Live_itemLoop_quiet E payload (Live.initLocals, w)) as Hq.
  rewrite Hloop in Hq. apply quiet_evolves in Hq as [Hq _]. simpl in Hq.
  apply Live_loop_links in Hloop as Hl.
  destruct Hl as (urls & Hlen & Hdl & _). simpl in Hdl.
  exists urls. split; [exact Hlen|].
  unfold Live.webhookHandler. rewrite handler_unfold, Hloop.
  unfold Live.annotate, bind, getLocals, gets, liftW, gqlMutation. simpl.
  destruct (designLinks l) as [|link links] eqn:Hd; [congruence|]. simpl.
  rewrite <- Hdl.
  destruct (mutationOutcome E _) as [|te oe]; simpl.
  - unfold mutationCalls in *. simpl.
    rewrite !List.filter_app. simpl. now rewrite app_nil_r, Hq.
  - destruct (_ || _); unfold consoleError, modify; simpl;
      unfold mutationCalls in *; simpl; rewrite ?List.filter_app; simpl;
      rewrite ?app_nil_r, Hq; reflexivity.
Qed.

(** The denominator counts every line item the loop processes, and may
    count more: those whose call sign is empty or null. *)
Lemma callSigns_le_total (payload : Payload) :
  (length (callSigns (pl_line_items payload)) <= totalCustomItems payload)%nat.
Proof.
  unfold totalCustomItems, callSigns.
  induction (pl_line_items payload) as [|item items IH]; [simpl; lia|].
  change (omap callSignValue (item :: items))
    with (match callSignValue item with
          | Some v => v :: omap callSignValue items
          | None => omap callSignValue items
          end).
  simpl List.filter.
  set (n := length (omap callSignValue items)) in *.
  set (m := length (List.filter _ items)) in *.
  destruct (callSignValue item) as [v|] eqn:Hv.
  - assert (Hex : match item_properties item with
                  | Some ps => existsb namedCallSign ps
                  | None => false
                  end = true).
    { unfold callSignValue, callSignProp in Hv.
      destruct (item_properties item) as [ps|]; [|discriminate].
      destruct (List.find namedCallSign ps) as [prop|] eqn:Hfind; [|discriminate].
      apply List.find_some in Hfind as [Hin Hname].
      apply existsb_exists. now exists prop. }
    rewrite Hex. simpl length. fold n m. lia.
  - destruct (match item_properties item with Some _ => _ | None => _ end);
      simpl length; fold n m; lia.
Qed.

(** ** C2, C3, C9: what the handlers send for concrete orders *)

(** C2 (the live handler departs from it): for an order with exactly one
    customisable line item the live handler still writes the counter, "1/1",
    into the note line; the replay script, on the same order, writes the
    simplified line. *)
Theorem C2_live_single_item_keeps_counter :
  totalCustomItems Scenario.oneCustomItem = 1%nat /\
  notesWritten (snd (Live.webhookHandler Scenario.env "shop" Scenario.oneCustomItem
                       Scenario.world))
    = ["--- Custom Design Files ---" ++ Js.LF
       ++ "#1001-1/1-https://dsg.s3.eu-west-1.amazonaws.com/designs/1001-77-1700000000000.zip;"] /\
  notesWritten (snd (Recovery.processOrderPayload Scenario.env Scenario.oneCustomItem
                       "shop" Scenario.world))
    = ["--- Custom Design Files (Manual Recovery) ---" ++ Js.LF
       ++ "#1001-https://s3.eu-west-1.amazonaws.com/dsg/designs/1001-77-1700000000000.zip;"].
Proof. repeat split; vm_compute; reflexivity. Qed.

(** C3 (the code departs from it): an order with two customisable line
    items and a third whose call sign is empty gets two note lines, but
    their counters read "1/3" and "2/3": the item with the empty call sign
    is counted in the denominator, on both paths. *)
Theorem C3_empty_call_sign_counted :
  length (List.filter SpecReading.customizable (pl_line_items Scenario.twoAndAnEmpty))
    = 2%nat /\
  totalCustomItems Scenario.twoAndAnEmpty = 3%nat /\
  notesWritten (snd (Live.webhookHandler Scenario.env "shop" Scenario.twoAndAnEmpty
                       Scenario.world))
    = ["--- Custom Design Files ---" ++ Js.LF
       ++ "#1001-1/3-" ++ Scenario.url1 ++ ";" ++ Js.LF
       ++ "#1001-2/3-" ++ Scenario.url2 ++ ";"] /\
  notesWritten (snd (Recovery.processOrderPayload Scenario.env Scenario.twoAndAnEmpty
                       "shop" Scenario.world))
    = ["--- Custom Design Files (Manual Recovery) ---" ++ Js.LF
       ++ "#1001-1/3-https://s3.eu-west-1.amazonaws.com/dsg/designs/1001-77-1700000000000.zip;"
       ++ Js.LF
       ++ "#1001-2/3-https://s3.eu-west-1.amazonaws.com/dsg/designs/1001-78-1700000000001.zip;"].
Proof. repeat split; vm_compute; reflexivity. Qed.

(** C9 (the live handler departs from it): the live handler applies the
    marker tag alone, without a tag for the customised line item; the replay
    script, on the same order, applies the marker, manual_recovery and the
    tag White/L/N1ABC. *)
Theorem C9_live_applies_marker_only :
  tagsApplied (snd (Live.webhookHandler Scenario.env "shop" Scenario.oneCustomItem
                      Scenario.world))
    = [["has_custom_design"]] /\
  tagsApplied (snd (Recovery.processOrderPayload Scenario.env Scenario.oneCustomItem
                      "shop" Scenario.world))
    = [["has_custom_design"; "manual_recovery"; "White/L/N1ABC"]].
Proof. repeat split; vm_compute; reflexivity. Qed.

(** * Further properties of the code *)

(** ** Nothing escapes the handlers *)

Lemma handler_returns {A} (l0 : Locals) (loop : M (Locals * World) A)
    (annotate : M (Locals * World) unit) (context : string) (w : World) :
  fst (withLocals l0
         (tryCatch (loop ;; annotate)
            (fun error => liftW (consoleError context (Caught error)))) w) = Ok tt.
Proof.
  rewrite handler_unfold. destruct (loop (l0, w)) as [[a|e] s1]; [|reflexivity].
  destruct (annotate s1) as [[[]|e] s2]; reflexivity.
Qed.

(** X1: whatever the payload and whatever fails (a fetch, the archive, the
    compositor, an upload, the order mutation), every revision of the order
    handler returns normally: no exception reaches the webhook framework or
    the loop of the replay script. *)
Theorem handlers_return_normally (E : Env) (shop : string) (payload : Payload)
    (composite : bytes -> string -> option bytes) (w : World) :
  fst (Live.webhookHandler E shop payload w) = Ok tt /\
  fst (Recovery.processOrderPayload E payload shop w) = Ok tt /\
  fst (RecoveryV1.processOrderPayload E payload shop w) = Ok tt /\
  fst (LivePng.webhookHandler E composite shop payload w) = Ok tt.
Proof. repeat split; apply handler_returns. Qed.

Lemma processRow_returns (E : Env) (process : Payload -> string -> M World unit)
    (orderName : string) (w : World) :
  fst (Recovery.processRow E process orderName w) = Ok tt.
Proof.
  unfold Recovery.processRow. destruct (Js.truthy orderName); [|reflexivity].
  unfold tryCatch.
  match goal with |- context [match ?m w with _ => _ end] => destruct (m w) as [[[]|e] w1] end;
    reflexivity.
Qed.

Lemma forOf_returns {S A} (f : A -> M S unit) (l : list A) (s : S) :
  (forall x s', fst (f x s') = Ok tt) -> fst (forOf f l s) = Ok tt.
Proof.
  intros Hf. revert s. induction l as [|x l IH]; intros s; [reflexivity|].
  simpl. unfold bind. specialize (Hf x s).
  destruct (f x s) as [[[]|e] s1]; simpl in Hf; [apply IH | discriminate].
Qed.

(** X2: the replay script runs to the end of its list: whatever the file
    holds, and even with an order processor that throws, [main] returns
    normally. *)
Theorem main_returns_normally (E : Env)
    (process : Payload -> string -> M World unit) (fileContent : string)
    (w : World) :
  fst (Recovery.mainWith E process fileContent w) = Ok tt.
Proof.
  unfold Recovery.mainWith. apply forOf_returns.
  intros orderName w'. apply processRow_returns.
Qed.

(** ** Rows of the replay script that lead to nothing *)

(** X3: when the order query of a row rejects, the replay script logs the
    failure under the order name and goes on with the next row; the order
    processor is not entered and nothing is fetched, stored or mutated. *)
Theorem processRow_query_failure (E : Env)
    (process : Payload -> string -> M World unit)
    (orderName : string) (rest : list string) (w : World) :
  Js.truthy orderName = true ->
  queryFails E ("name:" ++ orderName) = true ->
  let w' := logCall (ConsoleError orderName (Caught GqlError))
              (logCall (GqlQuery (SHOP_URL E) ("name:" ++ orderName)) w) in
  Recovery.processRow E process orderName w = (Ok tt, w') /\
  forOf (Recovery.processRow E process) (orderName :: rest) w
    = forOf (Recovery.processRow E process) rest w' /\
  s3 w' = s3 w /\ shopOrders w' = shopOrders w.
Proof.
  intros Hname Hfail w'.
  assert (Hrow : Recovery.processRow E process orderName w = (Ok tt, w')).
  { unfold Recovery.processRow. rewrite Hname.
    unfold tryCatch, bind, gqlOrderQuery. now rewrite Hfail. }
  split; [exact Hrow|]. split; [|split; reflexivity].
  simpl. unfold bind. now rewrite Hrow.
Qed.

Lemma processRow_query_failure_witness :
  Recovery.processRow Outage.env (Recovery.processOrderPayload Outage.env) "#1001"
    Scenario.world
  = (Ok tt,
     logCall (ConsoleError "#1001" (Caught GqlError))
       (logCall (GqlQuery "shop.example" "name:#1001") Scenario.world)).
Proof.
  destruct (processRow_query_failure Outage.env
              (Recovery.processOrderPayload Outage.env) "#1001" [] Scenario.world
              eq_refl eq_refl) as [H _].
  exact H.
Defined.

(** X4: a blank row makes no call at all, and a row whose order the
    platform does not know costs the one query and nothing else; in both
    cases the loop goes on with the next row. *)
Theorem processRow_nothing_to_do (E : Env)
    (process : Payload -> string -> M World unit) (orderName : string)
    (w : World) :
  (Js.truthy orderName = false ->
   Recovery.processRow E process orderName w = (Ok tt, w)) /\
  (Js.truthy orderName = true ->
   queryFails E ("name:" ++ orderName) = false ->
   List.filter (queryMatches E ("name:" ++ orderName)) (shopOrders w) = [] ->
   Recovery.processRow E process orderName w
   = (Ok tt, logCall (GqlQuery (SHOP_URL E) ("name:" ++ orderName)) w)).
Proof.
  split.
  - intros Hname. unfold Recovery.processRow. now rewrite Hname.
  - intros Hname Hquery Hnone. unfold Recovery.processRow. rewrite Hname.
    unfold tryCatch, bind, gqlOrderQuery. now rewrite Hquery, Hnone.
Qed.

Lemma processRow_nothing_to_do_witness :
  Recovery.processRow Scenario.env (Recovery.processOrderPayload Scenario.env)
    EmptyString Scenario.world = (Ok tt, Scenario.world) /\
  Recovery.processRow Scenario.env (Recovery.processOrderPayload Scenario.env)
    "#2002" Scenario.world
  = (Ok tt, logCall (GqlQuery "shop.example" "name:#2002") Scenario.world).
Proof.
  split.
  - destruct (processRow_nothing_to_do Scenario.env
                (Recovery.processOrderPayload Scenario.env) EmptyString Scenario.world)
      as [H _].
    apply H. reflexivity.
  - destruct (processRow_nothing_to_do Scenario.env
                (Recovery.processOrderPayload Scenario.env) "#2002" Scenario.world)
      as [_ H].
    apply H; reflexivity.
Defined.

(** ** The only changes the code makes to the world *)

Lemma reaches_trans (E : Env) (ids : string -> Prop) (a b c : World) :
  reaches E ids a b -> reaches E ids b c -> reaches E ids a c.
Proof.
  induction 1 as [w|w1 w2 w3 Hstep _ IH]; intros Hc; [exact Hc|].
  eapply reaches_step; [exact Hstep | now apply IH].
Qed.

Lemma reaches_one (E : Env) (ids : string -> Prop) (a b : World) :
  worldStep E ids a b -> reaches E ids a b.
Proof. intros H. eapply reaches_step; [exact H | constructor]. Qed.

Lemma reaches_mono (E : Env) (ids ids' : string -> Prop) (a b : World) :
  (forall id, ids id -> ids' id) -> reaches E ids a b -> reaches E ids' a b.
Proof.
  intros Hsub. induction 1 as [w|w1 w2 w3 Hstep _ IH]; [constructor|].
  eapply reaches_step; [|exact IH].
  destruct Hstep; constructor. now apply Hsub.
Qed.

Section ReachServices.

Context (E : Env) (ids : string -> Prop).

Lemma getObject_reaches (bucket key : string) :
  triple (fun w => w) (reaches E ids) (getObject E bucket key) anyValue.
Proof.
  intros w. unfold getObject.
  destruct (s3GetFails E bucket key); [|destruct (s3 w !! (bucket, key))]; simpl;
    (split; [apply reaches_one; constructor | constructor || discriminate]).
Qed.

Lemma putObject_reaches (key : string) (body : bytes) (contentType : string) :
  triple (fun w => w) (reaches E ids)
    (putObject E (AWS_DESIGNS_BUCKET E) key body contentType) anyValue.
Proof.
  intros w. unfold putObject.
  destruct (s3PutFails E _ key); simpl.
  - split; [apply reaches_one; constructor | discriminate].
  - split; [|constructor].
    eapply reaches_step; [apply step_call|]. apply reaches_one.
    exact (step_store E ids key body
             (logCall (PutObject (AWS_DESIGNS_BUCKET E) key body contentType) w)).
Qed.

Lemma DateNow_reaches :
  triple (fun w => w) (reaches E ids) (DateNow E) anyValue.
Proof.
  intros w. unfold DateNow. simpl. split; [|constructor].
  apply reaches_one. constructor.
Qed.

Lemma consoleError_reaches (context : string) (entry : LogEntry) :
  triple (fun w => w) (reaches E ids) (consoleError context entry) anyValue.
Proof.
  intros w. unfold consoleError, modify. simpl. split; [|constructor].
  apply reaches_one. constructor.
Qed.

Lemma gqlMutation_reaches (shop id : string) (tags : list string) (note : string) :
  ids id ->
  triple (fun w => w) (reaches E ids) (gqlMutation E shop id tags note) anyValue.
Proof.
  intros Hid w. unfold gqlMutation.
  destruct (mutationOutcome E id) as [|te oe]; simpl.
  - split; [apply reaches_one; constructor | discriminate].
  - split; [|constructor].
    eapply reaches_step; [apply step_call|]. apply reaches_one.
    exact (step_order E ids id _ _ (logCall (GqlMutation shop id tags note) w) Hid).
Qed.

Lemma gqlOrderQuery_reaches (shop query : string) :
  triple (fun w => w) (reaches E ids) (gqlOrderQuery E shop query) anyValue.
Proof.
  intros w. unfold gqlOrderQuery.
  destruct (queryFails E query); simpl;
    (split; [apply reaches_one; constructor | constructor || discriminate]).
Qed.

End ReachServices.

Ltac reach_step :=
  lazymatch goal with
  | |- triple _ (reaches _ _) (bind _ _) _ =>
      eapply triple_bind; [apply reaches_trans | | intros ? ?]
  | |- triple _ (reaches _ _) (orThrow _ _) _ =>
      apply triple_orThrow; [apply reaches_here | intros; exact I]
  | |- triple _ (reaches _ _) (ret _) _ =>
      apply triple_ret; [apply reaches_here | try exact I]
  | |- triple _ (reaches _ _) (liftW _) _ => apply triple_liftW
  | |- triple _ (reaches _ _) (modifyLocals _) _ =>
      apply triple_modifyLocals, reaches_here
  | |- triple _ (reaches _ _) getLocals _ =>
      apply (triple_gets snd _ (reaches_here _ _) fst anyValue); intros; exact I
  | |- triple _ (reaches _ _) (DateNow _) _ => apply DateNow_reaches
  | |- triple _ (reaches _ _) (getObject _ _ _) _ => apply getObject_reaches
  | |- triple _ (reaches _ _) (putObject _ _ _ _ _) _ => apply putObject_reaches
  | |- triple _ (reaches _ _) (consoleError _ _) _ => apply consoleError_reaches
  | |- triple _ (reaches _ _) (gqlOrderQuery _ _ _) _ => apply gqlOrderQuery_reaches
  end.

Ltac reach_steps := repeat (reach_step; try exact I).

Section ReachHandlers.

Context (E : Env) (payload : Payload) (ids : string -> Prop).
Hypothesis ids_own : ids (pl_admin_graphql_api_id payload).

Lemma buildDesign_reaches (item : LineItem) (callSign base : string) :
  triple (fun w => w) (reaches E ids) (buildDesign E payload item callSign base) anyValue.
Proof. unfold buildDesign. reach_steps. Qed.

Lemma buildImage_reaches (composite : bytes -> string -> option bytes)
    (item : LineItem) (callSign : string) :
  triple (fun w => w) (reaches E ids)
    (LivePng.buildImage E composite payload item callSign) anyValue.
Proof. unfold LivePng.buildImage. reach_steps. Qed.

Lemma handler_reaches (l0 : Locals) (f : LineItem -> M (Locals * World) unit)
    (annotate : M (Locals * World) unit) (context : string) :
  (forall item, triple snd (reaches E ids) (f item) anyValue) ->
  triple snd (reaches E ids) annotate anyValue ->
  triple (fun w => w) (reaches E ids)
    (withLocals l0
       (tryCatch (forOf f (pl_line_items payload) ;; annotate)
          (fun error => liftW (consoleError context (Caught error))))) anyValue.
Proof.
  intros Hf Hann. apply triple_withLocals.
  apply triple_tryCatch; [apply reaches_trans | |].
  - reach_step; [|exact Hann].
    apply triple_forOf; [apply reaches_here | apply reaches_trans | auto].
  - intros e. reach_steps.
Qed.

Lemma Live_reaches_any (shop : string) (w : World) :
  reaches E ids w (snd (Live.webhookHandler E shop payload w)).
Proof.
  apply handler_reaches.
  - intros item. unfold Live.processItem.
    destruct (callSignValue item); [|reach_steps].
    reach_step; [reach_step|]. reach_step; [reach_step; apply buildDesign_reaches|].
    reach_steps.
  - unfold Live.annotate. reach_step; [reach_step|].
    destruct (0 <? _)%nat; [|reach_steps].
    reach_step; [reach_step; now apply gqlMutation_reaches|].
    destruct (_ || _); reach_steps.
Qed.

Lemma Recovery_reaches_any (shop : string) (w : World) :
  reaches E ids w (snd (Recovery.processOrderPayload E payload shop w)).
Proof.
  apply handler_reaches.
  - intros item. unfold Recovery.processItem.
    destruct (callSignValue item); [|reach_steps].
    reach_step; [reach_step|]. reach_step; [reach_step|].
    reach_step; [reach_step|].
    reach_step; [reach_step; apply buildDesign_reaches|].
    reach_steps.
  - unfold Recovery.annotate. reach_step; [reach_step|].
    destruct (0 <? _)%nat; [|reach_steps].
    reach_step; [reach_step; now apply gqlMutation_reaches|].
    destruct (_ || _); reach_steps.
Qed.

Lemma RecoveryV1_reaches_any (shop : string) (w : World) :
  reaches E ids w (snd (RecoveryV1.processOrderPayload E payload shop w)).
Proof.
  apply handler_reaches.
  - intros item. unfold RecoveryV1.processItem.
    destruct (callSignValue item); [|reach_steps].
    reach_step; [reach_step|]. reach_step; [reach_step; apply buildDesign_reaches|].
    reach_steps.
  - unfold RecoveryV1.annotate. reach_step; [reach_step|].
    destruct (0 <? _)%nat; [|reach_steps].
    reach_step; [reach_step; now apply gqlMutation_reaches|].
    reach_steps.
Qed.

Lemma LivePng_reaches_any (composite : bytes -> string -> option bytes)
    (shop : string) (w : World) :
  reaches E ids w (snd (LivePng.webhookHandler E composite shop payload w)).
Proof.
  apply handler_reaches.
  - intros item. unfold LivePng.processItem.
    destruct (callSignValue item); [|reach_steps].
    reach_step; [reach_step|]. reach_step; [reach_step; apply buildImage_reaches|].
    reach_steps.
  - unfold LivePng.annotate. reach_step; [reach_step|].
    destruct (0 <? _)%nat; [|reach_steps].
    reach_step; [reach_step; now apply gqlMutation_reaches|].
    reach_steps.
Qed.

End ReachHandlers.

Section ReachOwn.

Context (E : Env) (payload : Payload).

Let own (id : string) : Prop := id = pl_admin_graphql_api_id payload.

Lemma Live_reaches (shop : string) (w : World) :
  reaches E own w (snd (Live.webhookHandler E shop payload w)).
Proof. now apply Live_reaches_any. Qed.

Lemma Recovery_reaches (shop : string) (w : World) :
  reaches E own w (snd (Recovery.processOrderPayload E payload shop w)).
Proof. now apply Recovery_reaches_any. Qed.

Lemma RecoveryV1_reaches (shop : string) (w : World) :
  reaches E own w (snd (RecoveryV1.processOrderPayload E payload shop w)).
Proof. now apply RecoveryV1_reaches_any. Qed.

Lemma LivePng_reaches (composite : bytes -> string -> option bytes)
    (shop : string) (w : World) :
  reaches E own w (snd (LivePng.webhookHandler E composite shop payload w)).
Proof. now apply LivePng_reaches_any. Qed.

End ReachOwn.

Lemma processRow_reaches (E : Env) (process : Payload -> string -> M World unit)
    (orderName : string) :
  (forall payload shop w, reaches E (fun _ => True) w (snd (process payload shop w))) ->
  triple (fun w => w) (reaches E (fun _ => True))
    (Recovery.processRow E process orderName) anyValue.
Proof.
  intros Hprocess. unfold Recovery.processRow.
  destruct (Js.truthy orderName); [|reach_steps].
  apply triple_tryCatch; [apply reaches_trans | | intros e; reach_steps].
  reach_step; [reach_step|].
  destruct a as [node|]; [|reach_steps].
  destruct (Recovery.alreadyTagged node); [reach_steps|].
  intros w. split; [apply Hprocess | constructor].
Qed.

Lemma mainWith_reaches (E : Env) (process : Payload -> string -> M World unit)
    (fileContent : string) (w : World) :
  (forall payload shop w, reaches E (fun _ => True) w (snd (process payload shop w))) ->
  reaches E (fun _ => True) w (snd (Recovery.mainWith E process fileContent w)).
Proof.
  intros Hprocess. unfold Recovery.mainWith.
  apply (triple_forOf (fun w => w) (reaches E (fun _ => True))
           (reaches_here _ _) (reaches_trans _ _)).
  intros orderName _. now apply processRow_reaches.
Qed.

Lemma main_reaches (E : Env) (fileContent : string) (w : World) :
  reaches E (fun _ => True) w (snd (Recovery.main E fileContent w)) /\
  reaches E (fun _ => True) w (snd (RecoveryV1.main E fileContent w)).
Proof.
  split; apply mainWith_reaches; intros payload shop w0.
  - eapply reaches_mono; [|apply Recovery_reaches]. auto.
  - eapply reaches_mono; [|apply RecoveryV1_reaches]. auto.
Qed.

Lemma storeKept_reaches (E : Env) (ids : string -> Prop) (w w' : World) :
  reaches E ids w w' -> storeKept E w w'.
Proof.
  induction 1 as [w|w1 w2 w3 Hstep _ (IH1 & IH2 & IH3 & added & IH4)].
  - repeat split; auto. exists []. now rewrite app_nil_r.
  - destruct Hstep as [c w|w|key body w|id tags note w Hid]; simpl in *.
    + repeat split; auto. exists (c :: added). now rewrite IH4, <- app_assoc.
    + repeat split; auto; [lia | now exists added].
    + repeat split; auto; [| |now exists added].
      * intros bucket k Hb. rewrite IH1 by exact Hb.
        apply lookup_insert_ne. congruence.
      * intros bucket k Hsome. apply IH2.
        destruct (decide ((AWS_DESIGNS_BUCKET E, key) = (bucket, k))) as [<-|Hne].
        -- rewrite lookup_insert_eq. eauto.
        -- now rewrite lookup_insert_ne.
    + repeat split; auto. now exists added.
Qed.

Lemma tagsAdd_keeps (old new : list string) (t : string) :
  In t old -> In t (tagsAdd old new).
Proof.
  unfold tagsAdd. revert old. induction new as [|n new IH]; intros old Hin; [exact Hin|].
  simpl. apply IH. destruct (bool_decide (n ∈ old)); [exact Hin|].
  apply in_or_app. now left.
Qed.

Lemma applyMutation_kept (ids : string -> Prop) (id : string)
    (tags : option (list string)) (note : option string) (o : OrderNode) :
  ids id ->
  sameOrderBut o (applyMutation id tags note o) /\
  (forall t, In t (node_tags o) -> In t (node_tags (applyMutation id tags note o))) /\
  (~ ids (node_id o) -> applyMutation id tags note o = o).
Proof.
  intros Hid. unfold applyMutation, sameOrderBut.
  destruct (String.eqb (node_id o) id) eqn:Heq; simpl.
  - apply String.eqb_eq in Heq. repeat split.
    + intros t Ht. destruct tags; [now apply tagsAdd_keeps | exact Ht].
    + intros Hnot. subst id. contradiction.
  - repeat split; auto.
Qed.

Lemma ordersKept_reaches (E : Env) (ids : string -> Prop) (w w' : World) :
  reaches E ids w w' -> ordersKept ids w w'.
Proof.
  unfold ordersKept.
  induction 1 as [w|w1 w2 w3 Hstep _ IH].
  - induction (shopOrders w) as [|o os IHos]; constructor; [|exact IHos].
    unfold sameOrderBut. repeat split; auto.
  - destruct Hstep as [c w|w|key body w|id tags note w Hid]; simpl in *; try exact IH.
    revert IH. generalize (shopOrders w3) as os'.
    induction (shopOrders w) as [|o os IHos]; intros os' Hall; simpl in Hall;
      inversion Hall as [|o1 o' os1 os2 (Hs & Ht & Hu) Hrest]; subst; constructor.
    + destruct (applyMutation_kept ids id tags note o Hid) as (Hs0 & Ht0 & Hu0).
      unfold sameOrderBut in *. repeat split; try (intuition congruence).
      intros t Hin. apply Ht, Ht0, Hin.
    + now apply IHos.
Qed.

(** X5: none of the order handlers, in any revision, and neither replay
    script touches a bucket other than the designs bucket or removes an
    object from any bucket; in particular the template bundles are read and
    never written. *)
Theorem store_only_grows (E : Env) (shop : string) (payload : Payload)
    (composite : bytes -> string -> option bytes) (fileContent : string)
    (w : World) :
  storeKept E w (snd (Live.webhookHandler E shop payload w)) /\
  storeKept E w (snd (Recovery.processOrderPayload E payload shop w)) /\
  storeKept E w (snd (RecoveryV1.processOrderPayload E payload shop w)) /\
  storeKept E w (snd (LivePng.webhookHandler E composite shop payload w)) /\
  storeKept E w (snd (Recovery.main E fileContent w)) /\
  storeKept E w (snd (RecoveryV1.main E fileContent w)).
Proof.
  repeat split; eapply storeKept_reaches;
    first [ apply Live_reaches | apply Recovery_reaches | apply RecoveryV1_reaches
          | apply LivePng_reaches | apply main_reaches ].
Qed.

(** X6: an order handler changes no order but the one named by the
    payload's [admin_graphql_api_id], and of that one only note and tags; the
    replay scripts change note and tags only.  No order is added, dropped or
    moved, and no tag is ever removed. *)
Theorem orders_only_annotated (E : Env) (shop : string) (payload : Payload)
    (composite : bytes -> string -> option bytes) (fileContent : string)
    (w : World) :
  let own := fun id => id = pl_admin_graphql_api_id payload in
  ordersKept own w (snd (Live.webhookHandler E shop payload w)) /\
  ordersKept own w (snd (Recovery.processOrderPayload E payload shop w)) /\
  ordersKept own w (snd (RecoveryV1.processOrderPayload E payload shop w)) /\
  ordersKept own w (snd (LivePng.webhookHandler E composite shop payload w)) /\
  ordersKept (fun _ => True) w (snd (Recovery.main E fileContent w)) /\
  ordersKept (fun _ => True) w (snd (RecoveryV1.main E fileContent w)).
Proof.
  repeat split; eapply ordersKept_reaches;
    first [ apply Live_reaches | apply Recovery_reaches | apply RecoveryV1_reaches
          | apply LivePng_reaches | apply main_reaches ].
Qed.

(** ** A run in which every line item goes through *)

Lemma buildDesign_through (E : Env) (payload : Payload) (item : LineItem)
    (callSign base : string) (w w' : World) (key : string) :
  buildDesign E payload item callSign base w = (Ok key, w') ->
  key = designKey (pl_name payload) (item_id item) (dateNow E (clockReads w)) /\
  clockReads w' = S (clockReads w) /\
  uploadedKeys (calls w') = (uploadedKeys (calls w) ++ [key])%list.
Proof.
  intros Hrun. pose proof Hrun as Hok.
  apply buildDesign_ok in Hok as (Hkey & variant_title & body & Hvt & Hcalls & _).
  split; [exact Hkey|]. split.
  - revert Hrun.
    unfold buildDesign, bind, getObject, orThrow, DateNow, putObject, ret, throw.
    rewrite Hvt.
    destruct (s3GetFails E _ _); [discriminate|].
    destruct (s3 w !! _) as [buf|]; [|discriminate].
    destruct (loadAsync E buf) as [zip|]; [|discriminate].
    destruct (templatePngFile zip) as [png|]; [|discriminate].
    destruct (sharpComposite E png callSign) as [img|]; [|discriminate].
    simpl. destruct (s3PutFails E _ _); [discriminate|].
    now intros [= _ <-].
  - rewrite Hcalls. unfold uploadedKeys. rewrite flat_map_app. reflexivity.
Qed.

Lemma Live_loop_through (E : Env) (payload : Payload) (total : nat)
    (items : list LineItem) (l l' : Locals) (w w' : World) :
  forOf (Live.processItem E payload total) items (l, w) = (Ok tt, (l', w')) ->
  let keys := expectedKeys E (pl_name payload) (clockReads w) items in
  designLinks l' =
    (designLinks l ++
     zip_with (fun i key =>
                 Live.designLink (pl_name payload) i total (Live.newImageUrl E key))
       (seq (S (itemIndex l)) (length keys)) keys)%list /\
  clockReads w' = (clockReads w + length keys)%nat /\
  uploadedKeys (calls w') = (uploadedKeys (calls w) ++ keys)%list.
Proof.
  revert l w. induction items as [|item items IH]; intros l w; simpl.
  - intros [= <- <-]. simpl. rewrite !app_nil_r. auto.
  - unfold bind.
    destruct (Live.processItem E payload total item (l, w)) as [[[]|e] [l1 w1]] eqn:Hitem;
      [|discriminate].
    intros Hrest. apply Live_processItem_ok in Hitem.
    apply IH in Hrest as (Hlinks & Hclock & Hkeys).
    destruct (callSignValue item) as [callSign|].
    + destruct Hitem as (key & Hbuild & ->).
      apply buildDesign_through in Hbuild as (-> & Hc1 & Hk1).
      rewrite Hc1 in *. simpl in *.
      rewrite Hlinks, Hclock, Hkeys, Hk1, <- !app_assoc. simpl.
      repeat split. lia.
    + destruct Hitem as [-> ->]. auto.
Qed.

Lemma Recovery_loop_through (E : Env) (payload : Payload) (total : nat)
    (items : list LineItem) (l l' : Locals) (w w' : World) :
  forOf (Recovery.processItem E payload total) items (l, w) = (Ok tt, (l', w')) ->
  let keys := expectedKeys E (pl_name payload) (clockReads w) items in
  designLinks l' =
    (designLinks l ++
     zip_with (fun i key =>
                 Recovery.designLinkString (pl_name payload) i total
                   (Recovery.newFileUrl E key))
       (seq (S (itemIndex l)) (length keys)) keys)%list /\
  dynamicTags l' = (dynamicTags l ++ classificationTags items)%list /\
  clockReads w' = (clockReads w + length keys)%nat /\
  uploadedKeys (calls w') = (uploadedKeys (calls w) ++ keys)%list.
Proof.
  revert l w. induction items as [|item items IH]; intros l w; simpl.
  - intros [= <- <-]. simpl. rewrite !app_nil_r. auto.
  - unfold bind.
    destruct (Recovery.processItem E payload total item (l, w))
      as [[[]|e] [l1 w1]] eqn:Hitem; [|discriminate].
    intros Hrest. apply Recovery_processItem_ok in Hitem.
    apply IH in Hrest as (Hlinks & Htags & Hclock & Hkeys).
    unfold classificationTags in *. simpl.
    destruct (callSignValue item) as [callSign|].
    + destruct Hitem as (variant_title & key & -> & Hbuild & ->).
      apply buildDesign_through in Hbuild as (-> & Hc1 & Hk1).
      rewrite Hc1 in *. simpl in *.
      rewrite Hlinks, Htags, Hclock, Hkeys, Hk1, <- !app_assoc. simpl.
      repeat split. lia.
    + destruct Hitem as [-> ->]. auto.
Qed.

Section LoopReaches.

Context (E : Env) (payload : Payload) (ids : string -> Prop).

Lemma Live_processItem_reaches (total : nat) (item : LineItem) :
  triple snd (reaches E ids) (Live.processItem E payload total item) anyValue.
Proof.
  unfold Live.processItem. destruct (callSignValue item); [|reach_steps].
  reach_step; [reach_step|]. reach_step; [reach_step; apply buildDesign_reaches|].
  reach_steps.
Qed.

Lemma Recovery_processItem_reaches (total : nat) (item : LineItem) :
  triple snd (reaches E ids) (Recovery.processItem E payload total item) anyValue.
Proof.
  unfold Recovery.processItem. destruct (callSignValue item); [|reach_steps].
  reach_step; [reach_step|]. reach_step; [reach_step|].
  reach_step; [reach_step|].
  reach_step; [reach_step; apply buildDesign_reaches|].
  reach_steps.
Qed.

Lemma loop_keeps_objects (f : LineItem -> M (Locals * World) unit)
    (items : list LineItem) (s s' : Locals * World) (r : Res unit)
    (bucket key : string) :
  (forall item, triple snd (reaches E ids) (f item) anyValue) ->
  forOf f items s = (r, s') ->
  is_Some (s3 (snd s) !! (bucket, key)) ->
  is_Some (s3 (snd s') !! (bucket, key)).
Proof.
  intros Hf Hrun Hsome.
  assert (Hr : reaches E ids (snd s) (snd (snd (forOf f items s)))).
  { apply (triple_forOf snd (reaches E ids) (reaches_here _ _) (reaches_trans _ _)).
    auto. }
  rewrite Hrun in Hr.
  apply storeKept_reaches in Hr as (_ & Hkeep & _). now apply Hkeep.
Qed.

End LoopReaches.

Lemma buildDesign_stored (E : Env) (payload : Payload) (item : LineItem)
    (callSign base : string) (w w' : World) (key : string) :
  buildDesign E payload item callSign base w = (Ok key, w') ->
  is_Some (s3 w' !! (AWS_DESIGNS_BUCKET E, key)).
Proof.
  intros Hrun. apply buildDesign_ok in Hrun as (_ & variant_title & body & _ & _ & ->).
  rewrite lookup_insert_eq. eauto.
Qed.

Lemma Live_loop_stored (E : Env) (payload : Payload) (total : nat)
    (items : list LineItem) (l l' : Locals) (w w' : World) :
  forOf (Live.processItem E payload total) items (l, w) = (Ok tt, (l', w')) ->
  Forall (fun key => is_Some (s3 w' !! (AWS_DESIGNS_BUCKET E, key)))
    (expectedKeys E (pl_name payload) (clockReads w) items).
Proof.
  revert l w. induction items as [|item items IH]; intros l w; simpl; [constructor|].
  unfold bind.
  destruct (Live.processItem E payload total item (l, w)) as [[[]|e] [l1 w1]] eqn:Hitem;
    [|discriminate].
  intros Hrest. apply Live_processItem_ok in Hitem.
  destruct (callSignValue item) as [callSign|].
  - destruct Hitem as (key & Hbuild & ->).
    pose proof (buildDesign_stored _ _ _ _ _ _ _ _ Hbuild) as Hstored.
    apply buildDesign_through in Hbuild as (-> & Hc1 & _).
    constructor.
    + exact (loop_keeps_objects E (fun _ => True) _ _ _ _ _ _ _
               (Live_processItem_reaches E payload _ total) Hrest Hstored).
    + rewrite <- Hc1. eapply IH. exact Hrest.
  - destruct Hitem as [-> ->]. eapply IH. exact Hrest.
Qed.

Lemma Recovery_loop_stored (E : Env) (payload : Payload) (total : nat)
    (items : list LineItem) (l l' : Locals) (w w' : World) :
  forOf (Recovery.processItem E payload total) items (l, w) = (Ok tt, (l', w')) ->
  Forall (fun key => is_Some (s3 w' !! (AWS_DESIGNS_BUCKET E, key)))
    (expectedKeys E (pl_name payload) (clockReads w) items).
Proof.
  revert l w. induction items as [|item items IH]; intros l w; simpl; [constructor|].
  unfold bind.
  destruct (Recovery.processItem E payload total item (l, w))
    as [[[]|e] [l1 w1]] eqn:Hitem; [|discriminate].
  intros Hrest. apply Recovery_processItem_ok in Hitem.
  destruct (callSignValue item) as [callSign|].
  - destruct Hitem as (variant_title & key & _ & Hbuild & ->).
    pose proof (buildDesign_stored _ _ _ _ _ _ _ _ Hbuild) as Hstored.
    apply buildDesign_through in Hbuild as (-> & Hc1 & _).
    constructor.
    + exact (loop_keeps_objects E (fun _ => True) _ _ _ _ _ _ _
               (Recovery_processItem_reaches E payload _ total) Hrest Hstored).
    + rewrite <- Hc1. eapply IH. exact Hrest.
  - destruct Hitem as [-> ->]. eapply IH. exact Hrest.
Qed.

Lemma quiet_notes (w w' : World) :
  evolves quietCall w w' ->
  notesWritten w' = notesWritten w /\ tagsApplied w' = tagsApplied w.
Proof.
  intros (added & Hcalls & Hall & _).
  unfold notesWritten, tagsApplied. rewrite Hcalls, !flat_map_app.
  assert (H : flat_map (fun c => match c with
                                 | GqlMutation _ _ _ note => [note]
                                 | _ => []
                                 end) added = [] /\
              flat_map (fun c => match c with
                                 | GqlMutation _ _ tags _ => [tags]
                                 | _ => []
                                 end) added = []).
  { clear Hcalls. induction Hall as [|c cs Hc _ [IH1 IH2]]; [split; reflexivity|].
    destruct c; try discriminate Hc; simpl; auto. }
  destruct H as [-> ->]. now rewrite !app_nil_r.
Qed.

(** ** C1: a line item that fails *)

(** Whatever makes the steps of a line item throw, the buckets are what
    they were: the only step that writes is the upload, and an upload that
    is rejected writes nothing. *)
Lemma buildDesign_throw_store (E : Env) (payload : Payload) (item : LineItem)
    (callSign base : string) (w w' : World) (e : Exn) :
  buildDesign E payload item callSign base w = (Throw e, w') -> s3 w' = s3 w.
Proof.
  unfold buildDesign, bind, getObject, orThrow, DateNow, putObject, ret, throw.
  destruct (item_variant_title item) as [variant_title|]; [|now intros [= _ <-]].
  destruct (s3GetFails E _ _); [now intros [= _ <-]|].
  destruct (s3 w !! _) as [buf|]; [|now intros [= _ <-]].
  destruct (loadAsync E buf) as [zip|]; [|now intros [= _ <-]].
  destruct (templatePngFile zip) as [png|]; [|now intros [= _ <-]].
  destruct (sharpComposite E png callSign) as [img|]; [|now intros [= _ <-]].
  simpl. destruct (s3PutFails E _ _); [|discriminate].
  now intros [= _ <-].
Qed.

(** A line item fails exactly as its steps from the variant title to the
    upload fail: the counter and the tag list are all the loop body touches
    besides. *)
Lemma Live_processItem_throws (E : Env) (payload : Payload) (total : nat)
    (item : LineItem) (l l' : Locals) (w w' : World) (e : Exn) :
  Live.processItem E payload total item (l, w) = (Throw e, (l', w')) ->
  exists callSign,
    callSignValue item = Some callSign /\
    buildDesign E payload item callSign (Live.baseFilename (item_title item)) w
    = (Throw e, w').
Proof.
  unfold Live.processItem. destruct (callSignValue item) as [callSign|]; [|discriminate].
  unfold bind, modifyLocals, modify, liftW, getLocals, gets. simpl.
  destruct (buildDesign E payload item callSign _ w) as [[key|e1] w1] eqn:Hsteps;
    simpl; [discriminate|].
  intros [= <- _ <-]. now exists callSign.
Qed.

Lemma Recovery_processItem_throws (E : Env) (payload : Payload) (total : nat)
    (item : LineItem) (l l' : Locals) (w w' : World) (e : Exn) :
  Recovery.processItem E payload total item (l, w) = (Throw e, (l', w')) ->
  exists callSign,
    callSignValue item = Some callSign /\
    buildDesign E payload item callSign (Recovery.baseFilename (item_title item)) w
    = (Throw e, w').
Proof.
  unfold Recovery.processItem.
  destruct (callSignValue item) as [callSign|]; [|discriminate].
  unfold bind, modifyLocals, modify, liftW, getLocals, gets. simpl.
  destruct (item_variant_title item) as [variant_title|] eqn:Hvt; simpl.
  - destruct (buildDesign E payload item callSign _ w) as [[key|e1] w1] eqn:Hsteps;
      simpl; [discriminate|].
    intros [= <- _ <-]. now exists callSign.
  - intros [= <- _ <-]. exists callSign. split; [reflexivity|].
    unfold buildDesign, bind. now rewrite Hvt.
Qed.

Lemma mutationCalls_log (context : string) (entry : LogEntry) (w : World) :
  mutationCalls (logCall (ConsoleError context entry) w) = mutationCalls w.
Proof.
  unfold mutationCalls, logCall. simpl. rewrite List.filter_app. simpl.
  apply app_nil_r.
Qed.

(** C1 (amended): the failure of one customised line item is caught at the
    level of the order and logged, and it ends the processing of that order.
    The handler returns normally in the world the failing step left behind
    plus the one log entry, so no later line item is processed and the
    annotation step does not run: no order mutation is sent and notes and
    tags stay as they were.  What earlier items stored stays stored: the
    buckets at the end are exactly the buckets the earlier items left, and
    every key an earlier item uploaded to holds an object. *)
Theorem C1_item_failure_ends_order (E : Env) (shop : string) (payload : Payload)
    (w : World) (pre post : list LineItem) (item : LineItem)
    (l1 l2 : Locals) (w1 w2 : World) (e : Exn) :
  pl_line_items payload = (pre ++ item :: post)%list ->
  let stored := expectedKeys E (pl_name payload) (clockReads w) pre in
  (forOf (Live.processItem E payload (totalCustomItems payload)) pre
     (Live.initLocals, w) = (Ok tt, (l1, w1)) ->
   Live.processItem E payload (totalCustomItems payload) item (l1, w1)
     = (Throw e, (l2, w2)) ->
   let final := snd (Live.webhookHandler E shop payload w) in
   Live.webhookHandler E shop payload w
     = (Ok tt, logCall (ConsoleError EmptyString (Caught e)) w2) /\
   mutationCalls final = mutationCalls w /\ shopOrders final = shopOrders w /\
   uploadedKeys (calls w1) = (uploadedKeys (calls w) ++ stored)%list /\
   s3 final = s3 w1 /\
   Forall (fun key => is_Some (s3 final !! (AWS_DESIGNS_BUCKET E, key))) stored) /\
  (forOf (Recovery.processItem E payload (totalCustomItems payload)) pre
     (Recovery.initLocals, w) = (Ok tt, (l1, w1)) ->
   Recovery.processItem E payload (totalCustomItems payload) item (l1, w1)
     = (Throw e, (l2, w2)) ->
   let final := snd (Recovery.processOrderPayload E payload shop w) in
   Recovery.processOrderPayload E payload shop w
     = (Ok tt, logCall (ConsoleError (pl_name payload) (Caught e)) w2) /\
   mutationCalls final = mutationCalls w /\ shopOrders final = shopOrders w /\
   uploadedKeys (calls w1) = (uploadedKeys (calls w) ++ stored)%list /\
   s3 final = s3 w1 /\
   Forall (fun key => is_Some (s3 final !! (AWS_DESIGNS_BUCKET E, key))) stored).
Proof.
  intros Hitems stored. split; intros Hpre Hitem final.
  - assert (Hloop : Live.itemLoop E payload (Live.initLocals, w) = (Throw e, (l2, w2))).
    { unfold Live.itemLoop. rewrite Hitems, forOf_app, Hpre. simpl.
      unfold bind. now rewrite Hitem. }
    assert (Hrun : Live.webhookHandler E shop payload w
                   = (Ok tt, logCall (ConsoleError EmptyString (Caught e)) w2)).
    { unfold Live.webhookHandler. now rewrite handler_unfold, Hloop. }
    assert (Hquiet : mutationCalls w2 = mutationCalls w /\ shopOrders w2 = shopOrders w).
    { apply quiet_evolves.
      pose proof (Live_itemLoop_quiet E payload (Live.initLocals, w)) as Hq.
      now rewrite Hloop in Hq. }
    apply Live_processItem_throws in Hitem as (callSign & _ & Hsteps).
    apply buildDesign_throw_store in Hsteps.
    pose proof (Live_loop_through _ _ _ _ _ _ _ _ Hpre) as (_ & _ & Hup).
    pose proof (Live_loop_stored _ _ _ _ _ _ _ _ Hpre) as Hstored.
    subst final. rewrite Hrun. simpl. rewrite mutationCalls_log, Hsteps.
    destruct Hquiet as [Hm Ho]. auto 7.
  - assert (Hloop : Recovery.itemLoop E payload (Recovery.initLocals, w)
                    = (Throw e, (l2, w2))).
    { unfold Recovery.itemLoop. rewrite Hitems, forOf_app, Hpre. simpl.
      unfold bind. now rewrite Hitem. }
    assert (Hrun : Recovery.processOrderPayload E payload shop w
                   = (Ok tt, logCall (ConsoleError (pl_name payload) (Caught e)) w2)).
    { unfold Recovery.processOrderPayload. now rewrite handler_unfold, Hloop. }
    assert (Hquiet : mutationCalls w2 = mutationCalls w /\ shopOrders w2 = shopOrders w).
    { apply quiet_evolves.
      pose proof (Recovery_itemLoop_quiet E payload (Recovery.initLocals, w)) as Hq.
      now rewrite Hloop in Hq. }
    apply Recovery_processItem_throws in Hitem as (callSign & _ & Hsteps).
    apply buildDesign_throw_store in Hsteps.
    pose proof (Recovery_loop_through _ _ _ _ _ _ _ _ Hpre) as (_ & _ & _ & Hup).
    pose proof (Recovery_loop_stored _ _ _ _ _ _ _ _ Hpre) as Hstored.
    subst final. rewrite Hrun. simpl. rewrite mutationCalls_log, Hsteps.
    destruct Hquiet as [Hm Ho]. auto 7.
Qed.

Lemma C1_item_failure_ends_order_witness :
  let live := snd (Live.webhookHandler Scenario.env "shop" Scenario.failingSecond
                     Scenario.world) in
  let replay := snd (Recovery.processOrderPayload Scenario.env Scenario.failingSecond
                       "shop" Scenario.world) in
  (mutationCalls live = [] /\
   is_Some (s3 live !! ("dsg", "designs/1001-77-1700000000000.zip"))) /\
  (mutationCalls replay = [] /\
   is_Some (s3 replay !! ("dsg", "designs/1001-77-1700000000000.zip"))).
Proof.
  cbv zeta. split.
  - pose (before := forOf (Live.processItem Scenario.env Scenario.failingSecond 2)
                      [Scenario.cap 77 "N1ABC"] (Live.initLocals, Scenario.world)).
    pose (failed := Live.processItem Scenario.env Scenario.failingSecond 2
                      (Scenario.mug 78 "K2XYZ") (snd before)).
    destruct (C1_item_failure_ends_order Scenario.env "shop" Scenario.failingSecond
                Scenario.world [Scenario.cap 77 "N1ABC"] [] (Scenario.mug 78 "K2XYZ")
                (fst (snd before)) (fst (snd failed))
                (snd (snd before)) (snd (snd failed))
                (S3Error "tpl" "MUG_FOR_DARK.zip") eq_refl)
      as ((_ & Hm & _ & _ & _ & Hstored) & _).
    + vm_compute. reflexivity.
    + vm_compute. reflexivity.
    + split; [exact Hm|]. exact (Forall_inv Hstored).
  - pose (before := forOf (Recovery.processItem Scenario.env Scenario.failingSecond 2)
                      [Scenario.cap 77 "N1ABC"] (Recovery.initLocals, Scenario.world)).
    pose (failed := Recovery.processItem Scenario.env Scenario.failingSecond 2
                      (Scenario.mug 78 "K2XYZ") (snd before)).
    destruct (C1_item_failure_ends_order Scenario.env "shop" Scenario.failingSecond
                Scenario.world [Scenario.cap 77 "N1ABC"] [] (Scenario.mug 78 "K2XYZ")
                (fst (snd before)) (fst (snd failed))
                (snd (snd before)) (snd (snd failed))
                (S3Error "tpl" "MUG_FOR_DARK.zip") eq_refl)
      as (_ & (_ & Hm & _ & _ & _ & Hstored)).
    + vm_compute. reflexivity.
    + vm_compute. reflexivity.
    + split; [exact Hm|]. exact (Forall_inv Hstored).
Defined.

(** X7: when every customised line item of an order goes through, the live
    handler has uploaded one archive per such item, in line-item order, under
    the keys made of the order name, the item id and consecutive readings of
    the clock; all of them are in the designs bucket afterwards; and it has
    sent one order mutation, with the marker tag alone and a note that is the
    payload's note followed by one line per archive, numbered from 1. *)
Theorem Live_order_fulfilled (E : Env) (shop : string) (payload : Payload)
    (w w1 : World) (l : Locals) :
  Live.itemLoop E payload (Live.initLocals, w) = (Ok tt, (l, w1)) ->
  let keys := expectedKeys E (pl_name payload) (clockReads w) (pl_line_items payload) in
  let final := snd (Live.webhookHandler E shop payload w) in
  keys <> [] ->
  uploadedKeys (calls final) = (uploadedKeys (calls w) ++ keys)%list /\
  Forall (fun key => is_Some (s3 final !! (AWS_DESIGNS_BUCKET E, key))) keys /\
  notesWritten final =
    (notesWritten w ++
     [newNote payload "--- Custom Design Files ---" (liveLinks E payload keys)])%list /\
  tagsApplied final = (tagsApplied w ++ [["has_custom_design"]])%list.
Proof.
  intros Hloop keys final Hne. unfold Live.itemLoop in Hloop.
  pose proof (Live_loop_through _ _ _ _ _ _ _ _ Hloop) as (Hlinks & _ & Hup).
  pose proof (Live_loop_stored _ _ _ _ _ _ _ _ Hloop) as Hstored.
  pose proof (Live_itemLoop_quiet E payload (Live.initLocals, w)) as Hq.
  unfold Live.itemLoop in Hq. rewrite Hloop in Hq.
  apply quiet_notes in Hq as [Hnotes Htags]. simpl in Hlinks, Hnotes, Htags.
  fold keys in Hlinks, Hup, Hstored. fold (liveLinks E payload keys) in Hlinks.
  subst final. unfold Live.webhookHandler, Live.itemLoop.
  rewrite handler_unfold, Hloop.
  unfold Live.annotate, bind, getLocals, gets, liftW, gqlMutation. simpl.
  rewrite Hlinks.
  assert (Hpos : (0 <? length (liveLinks E payload keys))%nat = true).
  { unfold liveLinks. destruct keys; [contradiction | reflexivity]. }
  rewrite Hpos.
  destruct (mutationOutcome E _) as [|te oe]; simpl.
  - unfold notesWritten, tagsApplied, uploadedKeys in *. simpl.
    rewrite !flat_map_app. simpl. rewrite !app_nil_r, Hup, Hnotes, Htags. auto.
  - destruct (_ || _); unfold consoleError, modify; simpl;
      unfold notesWritten, tagsApplied, uploadedKeys in *; simpl;
      rewrite !flat_map_app; simpl; rewrite ?app_nil_r, Hup, Hnotes, Htags; auto.
Qed.

(** X8: the same for the replay script, which sends the marker,
    manual_recovery and one classification tag per processed line item, and
    whose note lines carry the counter only if more than one line item has a
    call_sign property. *)
Theorem Recovery_order_fulfilled (E : Env) (shop : string) (payload : Payload)
    (w w1 : World) (l : Locals) :
  Recovery.itemLoop E payload (Recovery.initLocals, w) = (Ok tt, (l, w1)) ->
  let keys := expectedKeys E (pl_name payload) (clockReads w) (pl_line_items payload) in
  let final := snd (Recovery.processOrderPayload E payload shop w) in
  keys <> [] ->
  uploadedKeys (calls final) = (uploadedKeys (calls w) ++ keys)%list /\
  Forall (fun key => is_Some (s3 final !! (AWS_DESIGNS_BUCKET E, key))) keys /\
  notesWritten final =
    (notesWritten w ++
     [newNote payload "--- Custom Design Files (Manual Recovery) ---"
        (recoveryLinks E payload keys)])%list /\
  tagsApplied final =
    (tagsApplied w ++
     [("has_custom_design" :: "manual_recovery"
         :: classificationTags (pl_line_items payload))])%list.
Proof.
  intros Hloop keys final Hne. unfold Recovery.itemLoop in Hloop.
  pose proof (Recovery_loop_through _ _ _ _ _ _ _ _ Hloop) as (Hlinks & Hdt & _ & Hup).
  pose proof (Recovery_loop_stored _ _ _ _ _ _ _ _ Hloop) as Hstored.
  pose proof (Recovery_itemLoop_quiet E payload (Recovery.initLocals, w)) as Hq.
  unfold Recovery.itemLoop in Hq. rewrite Hloop in Hq.
  apply quiet_notes in Hq as [Hnotes Htags]. simpl in Hlinks, Hdt, Hnotes, Htags.
  fold keys in Hlinks, Hup, Hstored. fold (recoveryLinks E payload keys) in Hlinks.
  subst final. unfold Recovery.processOrderPayload, Recovery.itemLoop.
  rewrite handler_unfold, Hloop.
  unfold Recovery.annotate, bind, getLocals, gets, liftW, gqlMutation. simpl.
  rewrite Hlinks, Hdt.
  assert (Hpos : (0 <? length (recoveryLinks E payload keys))%nat = true).
  { unfold recoveryLinks. destruct keys; [contradiction | reflexivity]. }
  rewrite Hpos.
  destruct (mutationOutcome E _) as [|te oe]; simpl.
  - unfold notesWritten, tagsApplied, uploadedKeys in *. simpl.
    rewrite !flat_map_app. simpl. rewrite !app_nil_r, Hup, Hnotes, Htags. auto.
  - destruct (_ || _); unfold consoleError, modify; simpl;
      unfold notesWritten, tagsApplied, uploadedKeys in *; simpl;
      rewrite !flat_map_app; simpl; rewrite ?app_nil_r, Hup, Hnotes, Htags; auto.
Qed.

Lemma Live_order_fulfilled_witness :
  uploadedKeys (calls (snd (Live.webhookHandler Scenario.env "shop"
                              Scenario.oneCustomItem Scenario.world)))
  = ["designs/1001-77-1700000000000.zip"].
Proof.
  pose (run := Live.itemLoop Scenario.env Scenario.oneCustomItem
                 (Live.initLocals, Scenario.world)).
  destruct (Live_order_fulfilled Scenario.env "shop" Scenario.oneCustomItem
              Scenario.world (snd (snd run)) (fst (snd run))) as (H & _).
  - vm_compute. reflexivity.
  - vm_compute. discriminate.
  - exact H.
Defined.

Lemma Recovery_order_fulfilled_witness :
  tagsApplied (snd (Recovery.processOrderPayload Scenario.env Scenario.twoAndAnEmpty
                      "shop" Scenario.world))
  = [["has_custom_design"; "manual_recovery"; "White/L/N1ABC"; "White/L/K2XYZ"]].
Proof.
  pose (run := Recovery.itemLoop Scenario.env Scenario.twoAndAnEmpty
                 (Recovery.initLocals, Scenario.world)).
  destruct (Recovery_order_fulfilled Scenario.env "shop" Scenario.twoAndAnEmpty
              Scenario.world (snd (snd run)) (fst (snd run))) as (_ & _ & _ & H).
  - vm_compute. reflexivity.
  - vm_compute. discriminate.
  - exact H.
Defined.

(** ** When the order mutation fails *)

(** X9: when the order mutation rejects, after the uploads, the rejection
    is caught and logged; the archives stay in the bucket, and the orders on
    the platform are what they were, so the order is left without note lines
    and without the marker tag. *)
Theorem mutation_rejected (E : Env) (shop : string) (payload : Payload)
    (w w1 : World) (l : Locals) :
  designLinks l <> [] ->
  mutationOutcome E (pl_admin_graphql_api_id payload) = MutationRejected ->
  (Live.itemLoop E payload (Live.initLocals, w) = (Ok tt, (l, w1)) ->
   Live.webhookHandler E shop payload w =
     (Ok tt,
      logCall (ConsoleError EmptyString (Caught GqlError))
        (logCall (GqlMutation shop (pl_admin_graphql_api_id payload)
                    ["has_custom_design"]
                    (newNote payload "--- Custom Design Files ---" (designLinks l)))
           w1)) /\
   shopOrders (snd (Live.webhookHandler E shop payload w)) = shopOrders w /\
   s3 (snd (Live.webhookHandler E shop payload w)) = s3 w1) /\
  (Recovery.itemLoop E payload (Recovery.initLocals, w) = (Ok tt, (l, w1)) ->
   Recovery.processOrderPayload E payload shop w =
     (Ok tt,
      logCall (ConsoleError (pl_name payload) (Caught GqlError))
        (logCall (GqlMutation shop (pl_admin_graphql_api_id payload) (dynamicTags l)
                    (newNote payload "--- Custom Design Files (Manual Recovery) ---"
                       (designLinks l)))
           w1)) /\
   shopOrders (snd (Recovery.processOrderPayload E payload shop w)) = shopOrders w /\
   s3 (snd (Recovery.processOrderPayload E payload shop w)) = s3 w1).
Proof.
  intros Hlinks Hrej. split; intros Hloop.
  - pose proof (Live_itemLoop_quiet E payload (Live.initLocals, w)) as Hq.
    rewrite Hloop in Hq. apply quiet_evolves in Hq as [_ Ho]. simpl in Ho.
    match goal with |- ?lhs = ?rhs /\ _ => assert (Hrun : lhs = rhs) end.
    { unfold Live.webhookHandler. rewrite handler_unfold, Hloop.
      unfold Live.annotate, bind, getLocals, gets, liftW, gqlMutation. simpl.
      destruct (designLinks l); [contradiction|]. simpl. rewrite Hrej. reflexivity. }
    split; [exact Hrun|]. rewrite Hrun. simpl. auto.
  - pose proof (Recovery_itemLoop_quiet E payload (Recovery.initLocals, w)) as Hq.
    rewrite Hloop in Hq. apply quiet_evolves in Hq as [_ Ho]. simpl in Ho.
    match goal with |- ?lhs = ?rhs /\ _ => assert (Hrun : lhs = rhs) end.
    { unfold Recovery.processOrderPayload. rewrite handler_unfold, Hloop.
      unfold Recovery.annotate, bind, getLocals, gets, liftW, gqlMutation. simpl.
      destruct (designLinks l); [contradiction|]. simpl. rewrite Hrej. reflexivity. }
    split; [exact Hrun|]. rewrite Hrun. simpl. auto.
Qed.

Lemma mutation_rejected_witness :
  shopOrders (snd (Live.webhookHandler Outage.env "shop" Scenario.oneCustomItem
                     Scenario.world))
  = shopOrders Scenario.world.
Proof.
  pose (run := Live.itemLoop Outage.env Scenario.oneCustomItem
                 (Live.initLocals, Scenario.world)).
  destruct (mutation_rejected Outage.env "shop" Scenario.oneCustomItem
              Scenario.world (snd (snd run)) (fst (snd run))) as ((_ & H & _) & _).
  - vm_compute. discriminate.
  - reflexivity.
  - vm_compute. reflexivity.
  - exact H.
Defined.

Lemma Recovery_annotate_response (E : Env) (shop : string) (payload : Payload)
    (w w1 : World) (l : Locals) (te oe : list string) :
  Recovery.itemLoop E payload (Recovery.initLocals, w) = (Ok tt, (l, w1)) ->
  designLinks l <> [] ->
  mutationOutcome E (pl_admin_graphql_api_id payload) = MutationResponse te oe ->
  let sent := GqlMutation shop (pl_admin_graphql_api_id payload) (dynamicTags l)
                (newNote payload "--- Custom Design Files (Manual Recovery) ---"
                   (designLinks l)) in
  let landed :=
    setOrders
      (map (applyMutation (pl_admin_graphql_api_id payload)
              (match te with [] => Some (dynamicTags l) | _ => None end)
              (match oe with
               | [] => Some (newNote payload
                               "--- Custom Design Files (Manual Recovery) ---"
                               (designLinks l))
               | _ => None
               end))
         (shopOrders w))
      (logCall sent w1) in
  Recovery.processOrderPayload E payload shop w =
    (Ok tt,
     if ((0 <? length te) || (0 <? length oe))%nat
     then logCall (ConsoleError EmptyString (UserErrors te oe)) landed
     else landed).
Proof.
  intros Hloop Hlinks Hout sent landed.
  pose proof (Recovery_itemLoop_quiet E payload (Recovery.initLocals, w)) as Hq.
  rewrite Hloop in Hq. apply quiet_evolves in Hq as [_ Ho]. simpl in Ho.
  unfold Recovery.processOrderPayload. rewrite handler_unfold, Hloop.
  unfold Recovery.annotate, bind, getLocals, gets, liftW, gqlMutation. simpl.
  destruct (designLinks l) eqn:Hd; [contradiction|]. simpl. rewrite Hout. simpl.
  subst landed sent. rewrite <- Ho.
  destruct (_ || _); reflexivity.
Qed.

Lemma Live_annotate_response (E : Env) (shop : string) (payload : Payload)
    (w w1 : World) (l : Locals) (te oe : list string) :
  Live.itemLoop E payload (Live.initLocals, w) = (Ok tt, (l, w1)) ->
  designLinks l <> [] ->
  mutationOutcome E (pl_admin_graphql_api_id payload) = MutationResponse te oe ->
  let sent := GqlMutation shop (pl_admin_graphql_api_id payload) ["has_custom_design"]
                (newNote payload "--- Custom Design Files ---" (designLinks l)) in
  let landed :=
    setOrders
      (map (applyMutation (pl_admin_graphql_api_id payload)
              (match te with [] => Some ["has_custom_design"] | _ => None end)
              (match oe with
               | [] => Some (newNote payload "--- Custom Design Files ---"
                               (designLinks l))
               | _ => None
               end))
         (shopOrders w))
      (logCall sent w1) in
  Live.webhookHandler E shop payload w =
    (Ok tt,
     if ((0 <? length te) || (0 <? length oe))%nat
     then logCall (ConsoleError EmptyString (UserErrors te oe)) landed
     else landed).
Proof.
  intros Hloop Hlinks Hout sent landed.
  pose proof (Live_itemLoop_quiet E payload (Live.initLocals, w)) as Hq.
  rewrite Hloop in Hq. apply quiet_evolves in Hq as [_ Ho]. simpl in Ho.
  unfold Live.webhookHandler. rewrite handler_unfold, Hloop.
  unfold Live.annotate, bind, getLocals, gets, liftW, gqlMutation. simpl.
  destruct (designLinks l) eqn:Hd; [contradiction|]. simpl. rewrite Hout. simpl.
  subst landed sent. rewrite <- Ho.
  destruct (_ || _); reflexivity.
Qed.

Lemma RecoveryV1_annotate_response (E : Env) (shop : string) (payload : Payload)
    (w w1 : World) (l : Locals) (te oe : list string) :
  RecoveryV1.itemLoop E payload (RecoveryV1.initLocals, w) = (Ok tt, (l, w1)) ->
  designLinks l <> [] ->
  mutationOutcome E (pl_admin_graphql_api_id payload) = MutationResponse te oe ->
  calls (snd (RecoveryV1.processOrderPayload E payload shop w)) =
    (calls w1 ++
     [GqlMutation shop (pl_admin_graphql_api_id payload)
        ["has_custom_design"; "manual_recovery"]
        (newNote payload "--- Custom Design Files (Manual Recovery) ---"
           (designLinks l))])%list.
Proof.
  intros Hloop Hlinks Hout.
  unfold RecoveryV1.processOrderPayload. rewrite handler_unfold, Hloop.
  unfold RecoveryV1.annotate, bind, getLocals, gets, liftW, gqlMutation, ret. simpl.
  destruct (designLinks l) eqn:Hd; [contradiction|]. simpl. rewrite Hout. reflexivity.
Qed.

(** X10: when the platform answers the mutation with user errors, for the
    tags, for the note, or for both, the live handler and the current replay
    script log them, while the first revision of the replay script sends the
    same kind of mutation and leaves no trace of the errors. *)
Theorem user_errors_logged (E : Env) (shop : string) (payload : Payload)
    (w w1 : World) (l : Locals) (te oe : list string) :
  designLinks l <> [] ->
  mutationOutcome E (pl_admin_graphql_api_id payload) = MutationResponse te oe ->
  te <> [] \/ oe <> [] ->
  (Live.itemLoop E payload (Live.initLocals, w) = (Ok tt, (l, w1)) ->
   calls (snd (Live.webhookHandler E shop payload w)) =
     (calls w1 ++
      [GqlMutation shop (pl_admin_graphql_api_id payload) ["has_custom_design"]
         (newNote payload "--- Custom Design Files ---" (designLinks l));
       ConsoleError EmptyString (UserErrors te oe)])%list) /\
  (Recovery.itemLoop E payload (Recovery.initLocals, w) = (Ok tt, (l, w1)) ->
   calls (snd (Recovery.processOrderPayload E payload shop w)) =
     (calls w1 ++
      [GqlMutation shop (pl_admin_graphql_api_id payload) (dynamicTags l)
         (newNote payload "--- Custom Design Files (Manual Recovery) ---"
            (designLinks l));
       ConsoleError EmptyString (UserErrors te oe)])%list) /\
  (RecoveryV1.itemLoop E payload (RecoveryV1.initLocals, w) = (Ok tt, (l, w1)) ->
   calls (snd (RecoveryV1.processOrderPayload E payload shop w)) =
     (calls w1 ++
      [GqlMutation shop (pl_admin_graphql_api_id payload)
         ["has_custom_design"; "manual_recovery"]
         (newNote payload "--- Custom Design Files (Manual Recovery) ---"
            (designLinks l))])%list).
Proof.
  intros Hlinks Hout Herr.
  assert (Hsome : ((0 <? length te) || (0 <? length oe))%nat = true).
  { destruct Herr as [H|H]; [destruct te | destruct oe]; try contradiction;
      simpl; auto using orb_true_r. }
  split; [|split]; intros Hloop.
  - rewrite (Live_annotate_response E shop payload w w1 l te oe Hloop Hlinks Hout).
    simpl. rewrite Hsome. simpl. now rewrite <- app_assoc.
  - rewrite (Recovery_annotate_response E shop payload w w1 l te oe Hloop Hlinks Hout).
    simpl. rewrite Hsome. simpl. now rewrite <- app_assoc.
  - now apply (RecoveryV1_annotate_response E shop payload w w1 l te oe).
Qed.

Lemma user_errors_logged_witness :
  calls (snd (Recovery.processOrderPayload Outage.refusingTags Scenario.oneCustomItem
                "shop" Scenario.world))
  = [GetObject "tpl" "CLASSIC_CAP_FOR_LIGHT.zip";
     PutObject "dsg" "designs/1001-77-1700000000000.zip"
       [Byte.x41; Byte.x01; Byte.x2a] "application/zip";
     GqlMutation "shop" "gid://shopify/Order/1"
       ["has_custom_design"; "manual_recovery"; "White/L/N1ABC"]
       ("--- Custom Design Files (Manual Recovery) ---" ++ Js.LF
        ++ "#1001-https://s3.eu-west-1.amazonaws.com/dsg/designs/1001-77-1700000000000.zip;");
     ConsoleError EmptyString (UserErrors ["Tag is invalid"] [])].
Proof.
  pose (run := Recovery.itemLoop Outage.refusingTags Scenario.oneCustomItem
                 (Recovery.initLocals, Scenario.world)).
  destruct (user_errors_logged Outage.refusingTags "shop" Scenario.oneCustomItem
              Scenario.world (snd (snd run)) (fst (snd run)) ["Tag is invalid"] [])
    as (_ & H & _).
  - vm_compute. discriminate.
  - reflexivity.
  - left. discriminate.
  - rewrite H; vm_compute; reflexivity.
Defined.

(** ** An annotated order is not replayed *)

Lemma tagsAdd_adds (old new : list string) (t : string) :
  In t new -> In t (tagsAdd old new).
Proof.
  unfold tagsAdd. revert old. induction new as [|n new IH]; intros old; [intros []|].
  intros [<-|Hin]; simpl; [|now apply IH].
  apply (tagsAdd_keeps _ new). destruct (bool_decide (n ∈ old)) eqn:Hn.
  - apply bool_decide_eq_true in Hn. now apply list_elem_of_In.
  - apply in_or_app. right. now left.
Qed.

Lemma applyMutation_tags (id : string) (tags : list string) (note : option string)
    (o : OrderNode) :
  node_id o = id -> In "has_custom_design" tags ->
  tagged (applyMutation id (Some tags) note o).
Proof.
  intros Hid Hin. unfold tagged, applyMutation.
  rewrite Hid, String.eqb_refl. simpl. now apply tagsAdd_adds.
Qed.

Lemma filter_map_insensitive {A} (p : A -> bool) (f : A -> A) (l : list A) :
  (forall x, p (f x) = p x) ->
  List.filter p (map f l) = map f (List.filter p l).
Proof.
  intros Hp. induction l as [|x l IH]; [reflexivity|].
  simpl. rewrite Hp. destruct (p x); simpl; now rewrite IH.
Qed.

(** X11: once the platform has accepted the tags of the mutation, every
    order with the payload's id carries the marker tag, after the live
    handler as after the replay script. *)
Theorem annotated_order_is_tagged (E : Env) (shop : string) (payload : Payload)
    (w w1 : World) (l : Locals) (oe : list string) :
  designLinks l <> [] ->
  mutationOutcome E (pl_admin_graphql_api_id payload) = MutationResponse [] oe ->
  (Live.itemLoop E payload (Live.initLocals, w) = (Ok tt, (l, w1)) ->
   Forall (fun o => node_id o = pl_admin_graphql_api_id payload -> tagged o)
     (shopOrders (snd (Live.webhookHandler E shop payload w)))) /\
  (Recovery.itemLoop E payload (Recovery.initLocals, w) = (Ok tt, (l, w1)) ->
   Forall (fun o => node_id o = pl_admin_graphql_api_id payload -> tagged o)
     (shopOrders (snd (Recovery.processOrderPayload E payload shop w)))).
Proof.
  intros Hlinks Hout.
  assert (Hmap : forall tags note os,
             In "has_custom_design" tags ->
             Forall (fun o => node_id o = pl_admin_graphql_api_id payload -> tagged o)
               (map (applyMutation (pl_admin_graphql_api_id payload) (Some tags) note)
                  os)).
  { intros tags note os Hin. apply List.Forall_forall. intros o' Ho' Hid.
    apply in_map_iff in Ho' as (o & <- & _).
    apply applyMutation_tags; [|exact Hin].
    destruct (applyMutation_kept (fun _ => True) (pl_admin_graphql_api_id payload)
                (Some tags) note o I) as ((Hsame & _) & _).
    now rewrite <- Hsame. }
  split; intros Hloop.
  - rewrite (Live_annotate_response E shop payload w w1 l [] oe Hloop Hlinks Hout).
    simpl. destruct (0 <? length oe)%nat; simpl; apply Hmap; now left.
  - rewrite (Recovery_annotate_response E shop payload w w1 l [] oe Hloop Hlinks Hout).
    simpl.
    apply Recovery_loop_through in Hloop as (_ & Hdt & _). simpl in Hdt.
    destruct (0 <? length oe)%nat; simpl; apply Hmap; rewrite Hdt; now left.
Qed.

Lemma annotated_order_is_tagged_witness :
  Forall (fun o => node_id o = "gid://shopify/Order/1" -> tagged o)
    (shopOrders (snd (Live.webhookHandler Scenario.env "shop" Scenario.oneCustomItem
                        Scenario.world))).
Proof.
  pose (run := Live.itemLoop Scenario.env Scenario.oneCustomItem
                 (Live.initLocals, Scenario.world)).
  destruct (annotated_order_is_tagged Scenario.env "shop" Scenario.oneCustomItem
              Scenario.world (snd (snd run)) (fst (snd run)) []) as (H & _).
  - vm_compute. discriminate.
  - reflexivity.
  - apply H. vm_compute. reflexivity.
Defined.

(** X12: the replay script does not process an order twice.  If a row
    leads to an untagged order, its line items go through and the platform
    accepts the tags, then the same row, met again, costs one query and
    nothing else, provided the platform's search does not look at notes and
    tags. *)
Theorem replay_skips_what_it_annotated (E : Env) (orderName : string)
    (w w1 : World) (o : OrderNode) (others : list OrderNode) (l : Locals)
    (oe : list string) :
  let query := "name:" ++ orderName in
  let node := mkOrderNode (node_id o) (node_name o) (node_note o) (node_tags o)
                (take 20 (node_lineItems o)) in
  let process := Recovery.processOrderPayload E in
  Js.truthy orderName = true ->
  queryFails E query = false ->
  List.filter (queryMatches E query) (shopOrders w) = o :: others ->
  Recovery.alreadyTagged o = false ->
  (forall id tags note o',
     queryMatches E query (applyMutation id tags note o') = queryMatches E query o') ->
  Recovery.itemLoop E (Recovery.formattedPayload node)
    (Recovery.initLocals, logCall (GqlQuery (SHOP_URL E) query) w) = (Ok tt, (l, w1)) ->
  designLinks l <> [] ->
  mutationOutcome E (node_id o) = MutationResponse [] oe ->
  let w2 := snd (Recovery.processRow E process orderName w) in
  Recovery.processRow E process orderName w2
  = (Ok tt, logCall (GqlQuery (SHOP_URL E) query) w2).
Proof.
  intros query node process Hname Hquery Hfound Huntagged Hsearch Hloop Hlinks Hout w2.
  assert (Htags : In "has_custom_design" (dynamicTags l)).
  { apply Recovery_loop_through in Hloop as (_ & Hdt & _). rewrite Hdt. now left. }
  assert (Hw2 : exists note,
             shopOrders w2
             = map (applyMutation (node_id o) (Some (dynamicTags l)) note) (shopOrders w)).
  { subst w2. unfold Recovery.processRow. rewrite Hname.
    unfold tryCatch, bind, gqlOrderQuery. fold query. rewrite Hquery, Hfound.
    cbv beta iota. fold node.
    replace (Recovery.alreadyTagged node) with false by (symmetry; exact Huntagged).
    subst process.
    rewrite (Recovery_annotate_response E (SHOP_URL E) (Recovery.formattedPayload node)
               _ w1 l [] oe Hloop Hlinks Hout).
    simpl. eexists. destruct (0 <? length oe)%nat; reflexivity. }
  destruct Hw2 as [note Hw2].
  clearbody w2. unfold Recovery.processRow. rewrite Hname.
  unfold tryCatch, bind, gqlOrderQuery. fold query. rewrite Hquery, Hw2.
  rewrite filter_map_insensitive by (intros x; apply Hsearch).
  rewrite Hfound, List.map_cons. cbv beta iota.
  rewrite alreadyTagged_In; [reflexivity|].
  now apply applyMutation_tags.
Qed.

Lemma replay_skips_what_it_annotated_witness :
  let process := Recovery.processOrderPayload Scenario.env in
  let w2 := snd (Recovery.processRow Scenario.env process "#1001" Replay.world) in
  Recovery.processRow Scenario.env process "#1001" w2
  = (Ok tt, logCall (GqlQuery "shop.example" "name:#1001") w2).
Proof.
  cbv zeta.
  pose (run := Recovery.itemLoop Scenario.env
                 (Recovery.formattedPayload Replay.order1001)
                 (Recovery.initLocals,
                  logCall (GqlQuery "shop.example" "name:#1001") Replay.world)).
  apply (replay_skips_what_it_annotated Scenario.env "#1001" Replay.world
           (snd (snd run)) Replay.order1001 [] (fst (snd run)) []).
  - reflexivity.
  - reflexivity.
  - reflexivity.
  - reflexivity.
  - intros id tags note o'. unfold applyMutation.
    destruct (String.eqb (node_id o') id); reflexivity.
  - vm_compute. reflexivity.
  - vm_compute. discriminate.
  - reflexivity.
Defined.

(** ** Splitting and joining *)

Lemma rev_app_spec (s t : string) : String.rev_app s t = String.rev s ++ t.
Proof.
  unfold String.rev. revert t. induction s as [|a s IH]; intros t; [reflexivity|].
  simpl. rewrite (IH (String a t)), (IH (String a EmptyString)).
  now rewrite string_app_assoc.
Qed.

Lemma rev_cons (a : ascii) (s : string) :
  String.rev (String a s) = String.rev s ++ String a EmptyString.
Proof. unfold String.rev at 1. simpl. apply rev_app_spec. Qed.

Lemma rev_cons_app (a : ascii) (cur s : string) :
  String.rev (String a cur) ++ s = String.rev cur ++ String a s.
Proof. now rewrite rev_cons, string_app_assoc. Qed.

Lemma splitGo_unfold (sep : string) (skip : nat) (cur s : string) :
  Js.splitGo sep skip cur s =
  match s with
  | EmptyString => [String.rev cur]
  | String c r =>
      match skip with
      | S k => Js.splitGo sep k cur r
      | O =>
          if Js.startsWith s sep
          then String.rev cur :: Js.splitGo sep (String.length sep - 1) EmptyString r
          else Js.splitGo sep 0 (String c cur) r
      end
  end.
Proof. destruct s; reflexivity. Qed.

Lemma splitGo_skip (sep : string) (k : nat) (cur s : string) :
  Js.splitGo sep k cur s = Js.splitGo sep 0 cur (Js.dropChars k s).
Proof.
  revert s. induction k as [|k IH]; intros s; [reflexivity|].
  destruct s as [|c r]; [reflexivity|]. simpl. apply IH.
Qed.

Lemma splitGo_nonempty (sep : string) (skip : nat) (cur s : string) :
  Js.splitGo sep skip cur s <> [].
Proof.
  revert skip cur. induction s as [|c r IH]; intros skip cur; [discriminate|].
  rewrite splitGo_unfold. destruct skip; [|apply IH].
  destruct (Js.startsWith _ sep); [discriminate | apply IH].
Qed.

Lemma join_cons (sep x : string) (l : list string) :
  l <> [] -> Js.join (x :: l) sep = x ++ sep ++ Js.join l sep.
Proof. destruct l; [congruence | reflexivity]. Qed.

Lemma length_dropChars (k : nat) (s : string) :
  (String.length (Js.dropChars k s) <= String.length s)%nat.
Proof.
  revert s. induction k as [|k IH]; intros s; [reflexivity|].
  destruct s as [|c r]; [reflexivity|]. simpl. specialize (IH r). lia.
Qed.

Lemma splitGo_join (sep : string) (n : nat) (s cur : string) :
  sep <> EmptyString -> (String.length s <= n)%nat ->
  Js.join (Js.splitGo sep 0 cur s) sep = String.rev cur ++ s.
Proof.
  intros Hsep. revert s cur. induction n as [|n IH]; intros s cur Hlen.
  - destruct s; [|simpl in Hlen; lia]. simpl. now rewrite string_app_empty.
  - destruct s as [|c r]; [simpl; now rewrite string_app_empty|].
    rewrite splitGo_unfold. destruct (Js.startsWith (String c r) sep) eqn:Hstart.
    + rewrite join_cons by apply splitGo_nonempty.
      rewrite splitGo_skip, IH.
      * apply startsWith_spec in Hstart as [post Hpost].
        destruct sep as [|c0 sep']; [congruence|].
        rewrite app_cons in Hpost. injection Hpost as -> ->.
        replace (String.length (String c0 sep') - 1)%nat with (String.length sep')
          by (simpl; lia).
        now rewrite dropChars_app.
      * pose proof (length_dropChars (String.length sep - 1) r). simpl in Hlen. lia.
    + rewrite IH by (simpl in Hlen; lia). apply rev_cons_app.
Qed.

(** X13: splitting a string at a non-empty separator and joining the
    pieces with that separator gives the string back. *)
Theorem split_join (s sep : string) :
  sep <> EmptyString -> Js.join (Js.split s sep) sep = s.
Proof.
  intros Hsep. unfold Js.split.
  now rewrite (splitGo_join sep (String.length s) s EmptyString Hsep).
Qed.

Lemma split_join_witness :
  Js.join (Js.split "White / 2XL" " / ") " / " = "White / 2XL".
Proof. apply split_join. discriminate. Defined.

Lemma splitGo_absent (sep cur s : string) :
  Js.includes s sep = false -> Js.splitGo sep 0 cur s = [String.rev cur ++ s].
Proof.
  revert cur. induction s as [|c r IH]; intros cur.
  - intros _. simpl. now rewrite string_app_empty.
  - rewrite includes_unfold. intros H. apply orb_false_iff in H as [Hs Hr].
    rewrite splitGo_unfold, Hs, IH by exact Hr. now rewrite rev_cons_app.
Qed.

Lemma startsWith_before_first (a : ascii) (pre sep post : string) :
  sep <> EmptyString ->
  Js.startsWith (String a pre ++ initChars sep) sep = false ->
  Js.startsWith (String a pre ++ sep ++ post) sep = false.
Proof.
  intros Hne H1. destruct (initChars_last sep Hne) as [c Hc].
  rewrite Hc at 1. rewrite string_app_assoc.
  rewrite <- (string_app_assoc (String a pre)).
  rewrite startsWith_long; [exact H1|].
  rewrite string_length_app, length_initChars. simpl. lia.
Qed.

Lemma splitGo_first (sep cur pre post : string) :
  sep <> EmptyString ->
  Js.includes (pre ++ initChars sep) sep = false ->
  Js.splitGo sep 0 cur (pre ++ sep ++ post)
  = (String.rev cur ++ pre) :: Js.splitGo sep 0 EmptyString post.
Proof.
  intros Hne. revert cur. induction pre as [|a pre IH]; intros cur H.
  - rewrite app_empty_l, string_app_empty.
    destruct sep as [|c0 sep'] eqn:Hsep; [congruence|]. rewrite <- Hsep.
    assert (Hs : sep ++ post = String c0 (sep' ++ post)) by now rewrite Hsep.
    rewrite Hs, splitGo_unfold, <- Hs, startsWith_app, splitGo_skip.
    replace (String.length sep - 1)%nat with (String.length sep')
      by (rewrite Hsep; simpl; lia).
    now rewrite dropChars_app.
  - rewrite includes_unfold in H. apply orb_false_iff in H as [H1 H2].
    rewrite app_cons, splitGo_unfold, <- app_cons.
    rewrite (startsWith_before_first a pre sep post Hne H1).
    rewrite IH by exact H2. now rewrite rev_cons_app.
Qed.

(** ** The classification tag *)

(** X14: for a variant title "colour / size" the classification tag of
    the replay script is the trimmed colour, the trimmed size and the call
    sign joined by "/"; a variant title without " / " gives UnknownSize for
    the size, and an empty variant title gives UnknownColor as well. *)
Theorem newTag_shape (variant_title callSign color size : string) :
  (variant_title = color ++ " / " ++ size ->
   Js.includes (color ++ " /") " / " = false ->
   Js.includes size " / " = false ->
   Js.truthy color = true -> Js.truthy size = true ->
   Recovery.newTag variant_title callSign
   = Js.trim color ++ "/" ++ Js.trim size ++ "/" ++ callSign) /\
  (Js.includes variant_title " / " = false ->
   Js.truthy variant_title = true ->
   Recovery.newTag variant_title callSign
   = Js.trim variant_title ++ "/UnknownSize/" ++ callSign) /\
  (variant_title = EmptyString ->
   Recovery.newTag variant_title callSign = "UnknownColor/UnknownSize/" ++ callSign).
Proof.
  unfold Recovery.newTag, Js.split. split; [|split].
  - intros -> Hfirst Hsize Hc Hs.
    rewrite (splitGo_first " / " EmptyString color size) by (discriminate || exact Hfirst).
    rewrite splitGo_absent by exact Hsize.
    unfold Recovery.variantPart. simpl lookup.
    change (String.rev EmptyString) with EmptyString. rewrite !app_empty_l.
    now rewrite Hc, Hs.
  - intros Hnone Htruthy. rewrite splitGo_absent by exact Hnone.
    unfold Recovery.variantPart. simpl lookup.
    change (String.rev EmptyString) with EmptyString. rewrite !app_empty_l.
    rewrite Htruthy. reflexivity.
  - intros ->. reflexivity.
Qed.

Lemma newTag_shape_witness :
  Recovery.newTag " Golden Yellow  / 2XL" "N1ABC"
  = Js.trim " Golden Yellow " ++ "/" ++ Js.trim "2XL" ++ "/" ++ "N1ABC" /\
  Recovery.newTag "Black" "N1ABC" = Js.trim "Black" ++ "/UnknownSize/" ++ "N1ABC".
Proof.
  split.
  - destruct (newTag_shape " Golden Yellow  / 2XL" "N1ABC" " Golden Yellow " "2XL")
      as (H & _).
    apply H; reflexivity.
  - destruct (newTag_shape "Black" "N1ABC" EmptyString EmptyString) as (_ & H & _).
    apply H; reflexivity.
Defined.

(** ** The list of orders to replay *)

(** X15: the replay script drops the first line of the trimmed file,
    whatever it holds: the orders to process are the trimmed lines after the
    first line feed, and a file of a single line yields no order at all. *)
Theorem ordersToProcess_drops_first_line (fileContent first rest : string) :
  (Js.trim fileContent = first ++ Js.LF ++ rest ->
   Js.includes first Js.LF = false ->
   Recovery.ordersToProcess fileContent = map Js.trim (Js.split rest Js.LF)) /\
  (Js.includes (Js.trim fileContent) Js.LF = false ->
   Recovery.ordersToProcess fileContent = []).
Proof.
  unfold Recovery.ordersToProcess, Js.split. split.
  - intros -> Hfirst.
    rewrite (splitGo_first Js.LF EmptyString first rest); [reflexivity | discriminate |].
    change (initChars Js.LF) with EmptyString. now rewrite string_app_empty.
  - intros Hnone. now rewrite splitGo_absent.
Qed.

Lemma ordersToProcess_drops_first_line_witness :
  Recovery.ordersToProcess ("#1001" ++ Js.LF ++ "#1002 " ++ Js.LF ++ "#1003" ++ Js.LF)
  = map Js.trim (Js.split ("#1002 " ++ Js.LF ++ "#1003") Js.LF) /\
  Recovery.ordersToProcess "#1001" = [].
Proof.
  split.
  - destruct (ordersToProcess_drops_first_line
                ("#1001" ++ Js.LF ++ "#1002 " ++ Js.LF ++ "#1003" ++ Js.LF)
                "#1001" ("#1002 " ++ Js.LF ++ "#1003")) as [H _].
    apply H; reflexivity.
  - destruct (ordersToProcess_drops_first_line "#1001" EmptyString EmptyString)
      as [_ H].
    apply H. reflexivity.
Defined.

(** ** The numeric id of a line item *)

Lemma last_cons {A} (x d : A) (l : list A) :
  l <> [] -> List.last (x :: l) d = List.last l d.
Proof. destruct l; [congruence | reflexivity]. Qed.

Lemma last_splitGo_slash (tail pre cur : string) :
  Js.includes tail "/" = false ->
  List.last (Js.splitGo "/" 0 cur (pre ++ "/" ++ tail)) EmptyString = tail.
Proof.
  intros Htail. revert cur. induction pre as [|a pre IH]; intros cur.
  - rewrite app_empty_l.
    change ("/" ++ tail) with (String "/" tail).
    rewrite splitGo_unfold. simpl Js.startsWith. cbv beta iota.
    change (String.length "/" - 1)%nat with 0%nat.
    rewrite splitGo_absent by exact Htail. reflexivity.
  - rewrite app_cons, splitGo_unfold.
    destruct (Js.startsWith _ "/").
    + rewrite last_cons by apply splitGo_nonempty.
      change (String.length "/" - 1)%nat with 0%nat. apply IH.
    + apply IH.
Qed.

Lemma numericId_tail (pre tail : string) :
  Js.includes tail "/" = false ->
  Recovery.numericId (pre ++ "/" ++ tail) = tail.
Proof. intros H. unfold Recovery.numericId, Js.split. now apply last_splitGo_slash. Qed.

Lemma digitValue_char (d : N) :
  (d < 10)%N -> Recovery.digitValue (pretty_N_char d) = Some (Z.of_N d).
Proof.
  intros Hd.
  assert (d = 0 \/ d = 1 \/ d = 2 \/ d = 3 \/ d = 4 \/ d = 5 \/ d = 6 \/ d = 7
          \/ d = 8 \/ d = 9)%N as H by lia.
  repeat (destruct H as [->|H]; [reflexivity|]). now subst.
Qed.

Lemma parseDigits_pretty_go (x : N) (s : string) :
  Recovery.parseDigits 0 (pretty_N_go x s) = Recovery.parseDigits (Z.of_N x) s.
Proof.
  revert s. induction (N.lt_wf_0 x) as [x _ IH]; intros s.
  destruct (N.eq_dec x 0%N) as [->|Hx]; [reflexivity|].
  rewrite pretty_N_go_step by lia.
  rewrite IH by (apply N.div_lt; lia).
  simpl Recovery.parseDigits.
  rewrite digitValue_char by (apply N.mod_lt; lia).
  f_equal. rewrite N2Z.inj_div, N2Z.inj_mod.
  pose proof (Z.div_mod (Z.of_N x) 10). lia.
Qed.

Lemma Number_pretty (n : N) : Recovery.Number (pretty n) = JsInt (Z.of_N n).
Proof.
  unfold Recovery.Number, pretty, pretty_N.
  destruct (decide (n = 0%N)) as [->|Hn]; [reflexivity|].
  now rewrite parseDigits_pretty_go.
Qed.

Lemma pretty_go_no_slash (x : N) (s : string) :
  Js.includes (pretty_N_go x s) "/" = Js.includes s "/".
Proof.
  revert s. induction (N.lt_wf_0 x) as [x _ IH]; intros s.
  destruct (N.eq_dec x 0%N) as [->|Hx]; [reflexivity|].
  rewrite pretty_N_go_step by lia.
  rewrite IH by (apply N.div_lt; lia).
  change "/" with (String "/" EmptyString). rewrite includes_char_cons.
  replace (Ascii.eqb "/" (pretty_N_char (x `mod` 10))) with false; [reflexivity|].
  unfold pretty_N_char. now repeat case_match.
Qed.

Lemma pretty_no_slash (n : N) : Js.includes (pretty n) "/" = false.
Proof.
  unfold pretty, pretty_N. destruct (decide (n = 0%N)); [reflexivity|].
  now rewrite pretty_go_no_slash.
Qed.

(** X16: the replay script recovers the numeric id of a line item from its
    global id: for an id that ends in "/" followed by the decimal digits of
    [n], with [n] in the range of exact JavaScript integers, the rebuilt line
    item carries the number [n], and title, variant title and properties are
    carried over one to one, so its design key is spelled with the same
    digits as the live handler's. *)
Theorem formattedPayload_line_item (orderNode : OrderNode) (node : LineItemNode)
    (i : nat) (pre : string) (n : N) :
  node_lineItems orderNode !! i = Some node ->
  li_id node = pre ++ "/" ++ pretty n ->
  (n < 2 ^ 53)%N ->
  pl_line_items (Recovery.formattedPayload orderNode) !! i
  = Some (mkLineItem (JsInt (Z.of_N n)) (li_title node) (li_variantTitle node)
            (Some (map (fun attr => mkProperty (fst attr) (snd attr))
                     (li_customAttributes node)))) /\
  showNumber (JsInt (Z.of_N n)) = pretty n.
Proof.
  intros Hnode Hid _. split.
  - unfold Recovery.formattedPayload. simpl pl_line_items.
    change (@map LineItemNode LineItem) with (@fmap list _ LineItemNode LineItem).
    rewrite list_lookup_fmap, Hnode. simpl. rewrite Hid.
    now rewrite numericId_tail, Number_pretty by apply pretty_no_slash.
  - destruct n; reflexivity.
Qed.

Lemma formattedPayload_line_item_witness :
  pl_line_items (Recovery.formattedPayload Replay.order1001) !! 0%nat
  = Some (mkLineItem (JsInt 77) "Classic Cap" (Some "White / L")
            (Some [mkProperty "call_sign" (Some "N1ABC")])).
Proof.
  apply (formattedPayload_line_item Replay.order1001 Replay.capNode 0
           "gid://shopify/LineItem" 77%N); [reflexivity | reflexivity | lia].
Defined.

(** ** The earlier revisions *)

Section EarlierLoops.

Context (E : Env) (payload : Payload) (ids : string -> Prop).

Lemma RecoveryV1_processItem_reaches (total : nat) (item : LineItem) :
  triple snd (reaches E ids) (RecoveryV1.processItem E payload total item) anyValue.
Proof.
  unfold RecoveryV1.processItem. destruct (callSignValue item); [|reach_steps].
  reach_step; [reach_step|]. reach_step; [reach_step; apply buildDesign_reaches|].
  reach_steps.
Qed.

Lemma LivePng_processItem_reaches (composite : bytes -> string -> option bytes)
    (total : nat) (item : LineItem) :
  triple snd (reaches E ids) (LivePng.processItem E composite payload total item)
    anyValue.
Proof.
  unfold LivePng.processItem. destruct (callSignValue item); [|reach_steps].
  reach_step; [reach_step|]. reach_step; [reach_step; apply buildImage_reaches|].
  reach_steps.
Qed.

End EarlierLoops.

Lemma ordersKept_none (w w' : World) :
  ordersKept (fun _ => False) w w' -> shopOrders w' = shopOrders w.
Proof.
  unfold ordersKept. generalize (shopOrders w) (shopOrders w').
  induction 1 as [|o o' os os' (_ & _ & Heq) _ IH]; [reflexivity|].
  rewrite Heq by tauto. now rewrite IH.
Qed.

Lemma loop_leaves_orders (E : Env) (f : LineItem -> M (Locals * World) unit)
    (items : list LineItem) (s s' : Locals * World) (r : Res unit) :
  (forall item, triple snd (reaches E (fun _ => False)) (f item) anyValue) ->
  forOf f items s = (r, s') ->
  shopOrders (snd s') = shopOrders (snd s).
Proof.
  intros Hf Hrun. apply ordersKept_none.
  apply (ordersKept_reaches E).
  assert (Hr : reaches E (fun _ => False) (snd s) (snd (snd (forOf f items s)))).
  { apply (triple_forOf snd (reaches E (fun _ => False)) (reaches_here _ _)
             (reaches_trans _ _)).
    auto. }
  now rewrite Hrun in Hr.
Qed.

(** X17: the two earlier revisions contain failures in the same way as
    the current code.  With no customisable line item they leave the world
    as it was; when a line item fails, the exception is caught at the level
    of the order and logged, the handler returns normally in the world the
    failing step left behind, and no order has changed. *)
Theorem earlier_revisions_contain_failure (E : Env) (shop : string)
    (payload : Payload) (composite : bytes -> string -> option bytes)
    (w w2 : World) (l2 : Locals) (e : Exn) :
  (Forall (fun item => SpecReading.customizable item = false) (pl_line_items payload) ->
   RecoveryV1.processOrderPayload E payload shop w = (Ok tt, w) /\
   LivePng.webhookHandler E composite shop payload w = (Ok tt, w)) /\
  (RecoveryV1.itemLoop E payload (RecoveryV1.initLocals, w) = (Throw e, (l2, w2)) ->
   RecoveryV1.processOrderPayload E payload shop w
   = (Ok tt, logCall (ConsoleError (pl_name payload) (Caught e)) w2) /\
   shopOrders w2 = shopOrders w) /\
  (LivePng.itemLoop E composite payload (Live.initLocals, w) = (Throw e, (l2, w2)) ->
   LivePng.webhookHandler E composite shop payload w
   = (Ok tt, logCall (ConsoleError EmptyString (Caught e)) w2) /\
   shopOrders w2 = shopOrders w).
Proof.
  split; [|split].
  - intros Hnone.
    assert (Hskip : Forall (fun item => callSignValue item = None)
                      (pl_line_items payload)).
    { eapply List.Forall_impl; [|exact Hnone]. apply not_customizable_no_callSign. }
    split.
    + unfold RecoveryV1.processOrderPayload. rewrite handler_unfold.
      unfold RecoveryV1.itemLoop. rewrite forOf_skip; [reflexivity|].
      eapply List.Forall_impl; [|exact Hskip].
      intros item Hitem. unfold RecoveryV1.processItem. now rewrite Hitem.
    + unfold LivePng.webhookHandler. rewrite handler_unfold.
      unfold LivePng.itemLoop. rewrite forOf_skip; [reflexivity|].
      eapply List.Forall_impl; [|exact Hskip].
      intros item Hitem. unfold LivePng.processItem. now rewrite Hitem.
  - intros Hloop. split.
    + unfold RecoveryV1.processOrderPayload. now rewrite handler_unfold, Hloop.
    + exact (loop_leaves_orders E _ _ _ _ _
               (RecoveryV1_processItem_reaches E payload _ _) Hloop).
  - intros Hloop. split.
    + unfold LivePng.webhookHandler. now rewrite handler_unfold, Hloop.
    + exact (loop_leaves_orders E _ _ _ _ _
               (LivePng_processItem_reaches E payload _ composite _) Hloop).
Qed.

Lemma earlier_revisions_contain_failure_witness :
  RecoveryV1.processOrderPayload Scenario.env Scenario.failingFirst "shop" Scenario.world
  = (Ok tt,
     logCall (ConsoleError "#1001" (Caught (S3Error "tpl" "MUG_FOR_DARK.zip")))
       (logCall (GetObject "tpl" "MUG_FOR_DARK.zip") Scenario.world)) /\
  LivePng.webhookHandler Scenario.env (fun b _ => Some b) "shop"
    (Scenario.order [Scenario.plain 78]) Scenario.world = (Ok tt, Scenario.world).
Proof.
  split.
  - destruct (earlier_revisions_contain_failure Scenario.env "shop"
                Scenario.failingFirst (fun b _ => Some b) Scenario.world
                (logCall (GetObject "tpl" "MUG_FOR_DARK.zip") Scenario.world)
                (incrIndex RecoveryV1.initLocals)
                (S3Error "tpl" "MUG_FOR_DARK.zip")) as (_ & H & _).
    apply H. reflexivity.
  - destruct (earlier_revisions_contain_failure Scenario.env "shop"
                (Scenario.order [Scenario.plain 78]) (fun b _ => Some b)
                Scenario.world Scenario.world Live.initLocals GqlError) as (H & _).
    apply H. repeat constructor.
Defined.

(** X18: the first replay script does to the object store exactly what
    the live handler does: on the same payload and world both leave the same
    buckets and the same clock behind and have made the same calls to the
    store, in the same order. *)
Theorem first_replay_mirrors_live (E : Env) (shop shop' : string)
    (payload : Payload) (w : World) :
  let live := snd (Live.webhookHandler E shop payload w) in
  let replay := snd (RecoveryV1.processOrderPayload E payload shop' w) in
  s3 replay = s3 live /\
  clockReads replay = clockReads live /\
  List.filter isS3Call (calls replay) = List.filter isS3Call (calls live).
Proof.
  cbv zeta. unfold Live.webhookHandler, RecoveryV1.processOrderPayload.
  rewrite !handler_unfold.
  change (RecoveryV1.itemLoop E payload (RecoveryV1.initLocals, w))
    with (Live.itemLoop E payload (Live.initLocals, w)).
  destruct (Live.itemLoop E payload (Live.initLocals, w)) as [[[]|e] [l w1]].
  - unfold Live.annotate, RecoveryV1.annotate, bind, getLocals, gets, liftW,
      gqlMutation, ret. simpl.
    destruct (0 <? length (designLinks l))%nat; simpl.
    + destruct (mutationOutcome E _) as [|te oe]; simpl.
      * rewrite !List.filter_app. simpl. now rewrite !app_nil_r.
      * destruct (_ || _); unfold consoleError, modify; simpl;
          rewrite !List.filter_app; simpl; now rewrite ?app_nil_r.
    + auto.
  - simpl. rewrite !List.filter_app. simpl. auto.
Qed.

(** ** Template keys and design keys *)

Lemma noSpace_app (a b : string) : noSpace (a ++ b) = noSpace a && noSpace b.
Proof.
  induction a as [|c a IH]; [reflexivity|].
  rewrite app_cons. simpl. now rewrite IH, andb_assoc.
Qed.

Lemma noSpace_replaceSpaceRuns (inRun : bool) (rep s : string) :
  noSpace rep = true -> noSpace (Js.replaceSpaceRuns inRun rep s) = true.
Proof.
  intros Hrep. revert inRun. induction s as [|c s IH]; intros inRun; [reflexivity|].
  simpl. destruct (Js.isSpace c) eqn:Hc.
  - destruct inRun; [apply IH|]. now rewrite noSpace_app, Hrep, IH.
  - simpl. now rewrite Hc, IH.
Qed.

Lemma noSpace_dropChars (n : nat) (s : string) :
  noSpace s = true -> noSpace (Js.dropChars n s) = true.
Proof.
  revert s. induction n as [|n IH]; intros [|c s]; simpl; auto.
  intros [_ H]%andb_prop. now apply IH.
Qed.

Lemma noSpace_replaceFirst (s pat rep : string) :
  noSpace s = true -> noSpace rep = true ->
  noSpace (Js.replaceFirst s pat rep) = true.
Proof.
  intros Hs Hrep. induction s as [|c s IH].
  - rewrite replaceFirst_unfold. destruct (Js.startsWith _ _); [|reflexivity].
    now rewrite noSpace_app, Hrep, noSpace_dropChars.
  - rewrite replaceFirst_unfold. destruct (Js.startsWith _ _).
    + now rewrite noSpace_app, Hrep, noSpace_dropChars.
    + simpl in *. apply andb_prop in Hs as [-> Hs]. now rewrite IH.
Qed.

(** X19: a template key never contains whitespace, whatever the product
    title, in all three spellings of the key. *)
Theorem template_key_without_whitespace (title variant_title : string) :
  noSpace (Live.templateKey title variant_title) = true /\
  noSpace (Recovery.templateKey title variant_title) = true /\
  noSpace (LivePng.templateKey title variant_title) = true.
Proof.
  unfold Live.templateKey, Recovery.templateKey, LivePng.templateKey, templateKeyFor,
    Live.baseFilename, Recovery.baseFilename, LivePng.baseFilename.
  cbv zeta.
  destruct (_ || _); rewrite !noSpace_app, ?noSpace_replaceFirst,
    ?noSpace_replaceSpaceRuns; auto using noSpace_replaceSpaceRuns.
Qed.

Lemma string_app_inv_l (a x y : string) : a ++ x = a ++ y -> x = y.
Proof.
  induction a as [|c a IH]; [auto|]. rewrite !app_cons. intros [= H]. auto.
Qed.

Lemma string_app_inv_r (x y z : string) : x ++ z = y ++ z -> x = y.
Proof.
  revert y. induction x as [|c x IH]; intros [|d y]; rewrite ?app_cons, ?app_empty_l.
  - reflexivity.
  - intros H. apply (f_equal String.length) in H. simpl in H.
    rewrite string_length_app in H. lia.
  - intros H. apply (f_equal String.length) in H. simpl in H.
    rewrite string_length_app in H. lia.
  - intros [= -> H]. f_equal. auto.
Qed.

Lemma includes_char_app (c : ascii) (a b : string) :
  Js.includes (a ++ b) (String c EmptyString)
  = Js.includes a (String c EmptyString) || Js.includes b (String c EmptyString).
Proof.
  induction a as [|x a IH]; [reflexivity|].
  rewrite app_cons, !includes_char_cons, IH. now rewrite orb_assoc.
Qed.

(** What follows the last occurrence of a character is determined by the
    whole string. *)
Lemma after_last_char (c : ascii) (a b x y : string) :
  Js.includes x (String c EmptyString) = false ->
  Js.includes y (String c EmptyString) = false ->
  a ++ String c x = b ++ String c y -> x = y.
Proof.
  intros Hx Hy. revert b.
  induction a as [|p a IH]; intros [|q b]; rewrite ?app_cons, ?app_empty_l.
  - now intros [= ->].
  - intros [= -> ->]. rewrite includes_char_app, includes_char_cons, Ascii.eqb_refl in Hx.
    now rewrite orb_true_r in Hx.
  - intros [= <- <-]. rewrite includes_char_app, includes_char_cons, Ascii.eqb_refl in Hy.
    now rewrite orb_true_r in Hy.
  - intros [= _ H]. eauto.
Qed.

Lemma pretty_go_no_hyphen (x : N) (s : string) :
  Js.includes (pretty_N_go x s) "-" = Js.includes s "-".
Proof.
  revert s. induction (N.lt_wf_0 x) as [x _ IH]; intros s.
  destruct (N.eq_dec x 0%N) as [->|Hx]; [reflexivity|].
  rewrite pretty_N_go_step by lia.
  rewrite IH by (apply N.div_lt; lia).
  change "-" with (String "-" EmptyString). rewrite includes_char_cons.
  replace (Ascii.eqb "-" (pretty_N_char (x `mod` 10))) with false; [reflexivity|].
  unfold pretty_N_char. now repeat case_match.
Qed.

Lemma pretty_no_hyphen (z : Z) : (0 <= z)%Z -> Js.includes (pretty z) "-" = false.
Proof.
  intros Hz. destruct z as [|p|p]; [reflexivity| |lia].
  change (pretty (Z.pos p)) with (pretty (N.pos p)).
  unfold pretty, pretty_N. destruct (decide (N.pos p = 0%N)); [reflexivity|].
  now rewrite pretty_go_no_hyphen.
Qed.

(** The time stamp of a design key can be read back from the key. *)
Lemma designKey_time (name1 name2 : string) (id1 id2 : JsNumber) (t1 t2 : Z) :
  (0 <= t1)%Z -> (0 <= t2)%Z ->
  designKey name1 id1 t1 = designKey name2 id2 t2 -> t1 = t2.
Proof.
  intros H1 H2 Hkey. unfold designKey in Hkey.
  assert (Hshape : forall n i t,
             "designs/" ++ n ++ "-" ++ i ++ "-" ++ t ++ ".zip"
             = ("designs/" ++ n ++ "-" ++ i) ++ String "-" (t ++ ".zip")).
  { intros n i t. now rewrite !string_app_assoc. }
  rewrite !Hshape in Hkey.
  apply after_last_char in Hkey.
  - apply string_app_inv_r in Hkey. now apply (inj pretty).
  - change (Js.includes (pretty t1 ++ ".zip") (String "-" EmptyString) = false).
    rewrite includes_char_app. change (String "-" EmptyString) with "-".
    now rewrite pretty_no_hyphen.
  - rewrite includes_char_app. change (String "-" EmptyString) with "-".
    now rewrite pretty_no_hyphen.
Qed.

Lemma expectedKeys_In (E : Env) (orderName : string) (items : list LineItem)
    (clock : nat) (key : string) :
  In key (expectedKeys E orderName clock items) ->
  exists id n, (clock <= n)%nat /\ key = designKey orderName id (dateNow E n).
Proof.
  revert clock. induction items as [|item items IH]; intros clock; simpl; [tauto|].
  destruct (callSignValue item).
  - intros [<-|Hin]; [eauto|].
    apply IH in Hin as (id & n & Hn & ->). exists id, n. split; [lia|reflexivity].
  - apply IH.
Qed.

Lemma expectedKeys_NoDup (E : Env) (orderName : string) (items : list LineItem)
    (clock : nat) :
  (forall m n, dateNow E m = dateNow E n -> m = n) ->
  (forall n, (0 <= dateNow E n)%Z) ->
  List.NoDup (expectedKeys E orderName clock items).
Proof.
  intros Hinj Hpos. revert clock.
  induction items as [|item items IH]; intros clock; simpl; [constructor|].
  destruct (callSignValue item); [|apply IH].
  constructor; [|apply IH].
  intros (id & n & Hn & Hkey)%expectedKeys_In.
  apply designKey_time in Hkey; [|apply Hpos..].
  apply Hinj in Hkey. lia.
Qed.

(** X20: as long as the clock never shows the same time twice (and no time
    before 1970), the archives of one run do not overwrite one another: the
    keys a loop that goes through has uploaded to are pairwise different,
    even for line items that share an id. *)
Theorem uploads_do_not_collide (E : Env) (payload : Payload) (w w1 : World)
    (l : Locals) :
  (forall m n, dateNow E m = dateNow E n -> m = n) ->
  (forall n, (0 <= dateNow E n)%Z) ->
  Live.itemLoop E payload (Live.initLocals, w) = (Ok tt, (l, w1)) \/
  Recovery.itemLoop E payload (Recovery.initLocals, w) = (Ok tt, (l, w1)) \/
  RecoveryV1.itemLoop E payload (RecoveryV1.initLocals, w) = (Ok tt, (l, w1)) ->
  exists keys,
    uploadedKeys (calls w1) = (uploadedKeys (calls w) ++ keys)%list /\
    length keys = length (designLinks l) /\
    List.NoDup keys.
Proof.
  intros Hinj Hpos Hloop.
  exists (expectedKeys E (pl_name payload) (clockReads w) (pl_line_items payload)).
  assert (Hlen : forall {A} (f : nat -> string -> A) a (ks : list string),
             length ks = length (zip_with f (seq a (length ks)) ks)).
  { intros A f a ks. revert a. induction ks as [|k ks IH]; intros a; simpl; auto. }
  destruct Hloop as [Hloop|[Hloop|Hloop]].
  - apply Live_loop_through in Hloop as (Hlinks & _ & Hup).
    rewrite Hlinks. simpl. split; [exact Hup|].
    split; [apply Hlen | now apply expectedKeys_NoDup].
  - apply Recovery_loop_through in Hloop as (Hlinks & _ & _ & Hup).
    rewrite Hlinks. simpl. split; [exact Hup|].
    split; [apply Hlen | now apply expectedKeys_NoDup].
  - change (RecoveryV1.itemLoop E payload (RecoveryV1.initLocals, w))
      with (Live.itemLoop E payload (Live.initLocals, w)) in Hloop.
    apply Live_loop_through in Hloop as (Hlinks & _ & Hup).
    rewrite Hlinks. simpl. split; [exact Hup|].
    split; [apply Hlen | now apply expectedKeys_NoDup].
Qed.

Lemma uploads_do_not_collide_witness :
  exists keys,
    uploadedKeys (calls (snd (snd (Recovery.itemLoop Scenario.env Scenario.twoAndAnEmpty
                                     (Recovery.initLocals, Scenario.world)))))
    = keys /\ length keys = 2%nat /\ List.NoDup keys.
Proof.
  pose (run := Recovery.itemLoop Scenario.env Scenario.twoAndAnEmpty
                 (Recovery.initLocals, Scenario.world)).
  destruct (uploads_do_not_collide Scenario.env Scenario.twoAndAnEmpty Scenario.world
              (snd (snd run)) (fst (snd run))) as (keys & Hup & Hlen & Hnd).
  - simpl. intros m n. lia.
  - simpl. intros n. lia.
  - right. left. vm_compute. reflexivity.
  - exists keys. split; [exact Hup|]. split; [|exact Hnd].
    rewrite Hlen. vm_compute. reflexivity.
Defined.

(** ** Registration of the webhook *)

Section RegistrationFacts.

Import Registration.

Lemma filter_all {A} (p : A -> bool) (l : list A) :
  (forall x, p x = true) -> List.filter p l = l.
Proof.
  intros Hp. induction l as [|x l IH]; [reflexivity|]. simpl. now rewrite Hp, IH.
Qed.

Lemma in_take {A} (x : A) (n : nat) (l : list A) : In x (take n l) -> In x l.
Proof.
  revert n. induction l as [|y l IH]; intros [|n]; simpl; try tauto.
  intros [->|Hin]; eauto.
Qed.

Lemma filter_commute {A} (p q : A -> bool) (l : list A) :
  List.filter p (List.filter q l) = List.filter q (List.filter p l).
Proof.
  induction l as [|x l IH]; [reflexivity|]. simpl.
  destruct (q x) eqn:Hq, (p x) eqn:Hp; simpl; rewrite ?Hq, ?Hp, IH; reflexivity.
Qed.

Lemma filter_filter {A} (p q : A -> bool) (l : list A) :
  List.filter p (List.filter q l) = List.filter (fun x => q x && p x) l.
Proof.
  induction l as [|x l IH]; [reflexivity|]. simpl.
  destruct (q x); simpl; [destruct (p x)|]; now rewrite IH.
Qed.

Lemma NoDup_map_filter {A B} (f : A -> B) (p : A -> bool) (l : list A) :
  List.NoDup (map f l) -> List.NoDup (map f (List.filter p l)).
Proof.
  induction l as [|x l IH]; simpl; [auto|].
  intros Hnd. apply List.NoDup_cons_iff in Hnd as [Hx Hnd].
  destruct (p x); simpl; [|auto]. constructor; [|auto].
  intros (y & Hy & Hin)%in_map_iff. apply filter_In in Hin as [Hin _].
  apply Hx. rewrite <- Hy. now apply in_map.
Qed.

Lemma NoDup_map_eq {A B} (f : A -> B) (l : list A) (x y : A) :
  List.NoDup (map f l) -> In x l -> In y l -> f x = f y -> x = y.
Proof.
  induction l as [|z l IH]; simpl; [tauto|].
  intros Hnd. apply List.NoDup_cons_iff in Hnd as [Hz Hnd].
  intros [->|Hx] [->|Hy] Heq; auto.
  - destruct Hz. rewrite Heq. now apply in_map.
  - destruct Hz. rewrite <- Heq. now apply in_map.
Qed.

(** The subscriptions whose id is not among [ids]. *)
Lemma existsb_id (x : Subscription) (ids : list string) :
  existsb (String.eqb (sub_id x)) ids = true <-> In (sub_id x) ids.
Proof.
  rewrite existsb_exists. split.
  - intros (y & Hy & ->%String.eqb_eq). exact Hy.
  - intros Hin. exists (sub_id x). split; [exact Hin | apply String.eqb_refl].
Qed.

Lemma removes_prefix (L : list Subscription) (n : nat) :
  List.NoDup (map sub_id L) ->
  List.filter (fun x => negb (existsb (String.eqb (sub_id x)) (map sub_id (take n L)))) L
  = drop n L.
Proof.
  revert n. induction L as [|x L IH]; intros n Hnd; [now destruct n|].
  destruct n as [|n].
  - simpl. f_equal. now apply filter_all.
  - apply List.NoDup_cons_iff in Hnd as [Hx Hnd]. simpl.
    rewrite String.eqb_refl. simpl. rewrite <- (IH n Hnd).
    apply List.filter_ext_in. intros y Hy.
    replace (sub_id y =? sub_id x) with false; [reflexivity|].
    symmetry. apply String.eqb_neq. intros Heq. apply Hx. rewrite <- Heq.
    now apply in_map.
Qed.

(** The deletion loop: how far it gets and what it leaves. *)
Lemma deleteEdges_run (P : Platform) (ids : list string) (s : Shop) :
  exists done,
    let after :=
      mkShop (List.filter (fun x => negb (existsb (String.eqb (sub_id x)) done))
                (subscriptions s))
        (sent s ++ map DeleteSubscription done)
        (console s ++ map Deleted done) in
    (forOf (deleteEdge P) ids s = (Ok tt, after) /\ done = ids /\
     Forall (fun id => rejects P (DeleteSubscription id) = false) ids) \/
    (exists id,
       forOf (deleteEdge P) ids s
       = (Throw GqlError,
          mkShop (subscriptions after) (sent after ++ [DeleteSubscription id])
            (console after)) /\
       rejects P (DeleteSubscription id) = true /\
       exists rest, ids = (done ++ id :: rest)%list).
Proof.
  revert s. induction ids as [|id ids IH]; intros s.
  - exists []. left. simpl. rewrite !app_nil_r, filter_all by reflexivity.
    split; [|auto]. now destruct s.
  - simpl. unfold deleteEdge, deleteSubscription, request, bind, modify. simpl.
    destruct (rejects P (DeleteSubscription id)) eqn:Hrej.
    + exists []. right. exists id. simpl. rewrite !app_nil_r.
      split; [|split; [exact Hrej | now exists ids]].
      rewrite filter_all by reflexivity. reflexivity.
    + unfold ret. simpl.
      match goal with |- context [forOf _ ids ?s1] => destruct (IH s1) as (done & Hrun) end.
      exists (id :: done). simpl in Hrun |- *.
      assert (Hsubs : forall L : list Subscription,
                 List.filter (fun x => negb (existsb (String.eqb (sub_id x)) done))
                   (List.filter (fun x => negb (sub_id x =? id)) L)
                 = List.filter
                     (fun x => negb ((sub_id x =? id) || existsb (String.eqb (sub_id x)) done))
                     L).
      { intros L. rewrite filter_filter. apply List.filter_ext. intros x.
        now rewrite negb_orb. }
      rewrite Hsubs in Hrun. rewrite <- !app_assoc in Hrun. simpl in Hrun.
      destruct Hrun as [(Hrun & -> & Hok)|(id' & Hrun & Hrej' & rest & ->)].
      * left. split; [exact Hrun|]. split; [reflexivity|]. now constructor.
      * right. exists id'. split; [exact Hrun|]. split; [exact Hrej'|]. now exists rest.
Qed.


Lemma listSubscriptions_run (P : Platform) (s : Shop) :
  rejects P (ListSubscriptions 5 "ORDERS_CREATE") = false ->
  listSubscriptions P 5 "ORDERS_CREATE" s
  = (Ok (map sub_id (take 5 (List.filter (hasTopic "ORDERS_CREATE") (subscriptions s)))),
     mkShop (subscriptions s) (sent s ++ [ListSubscriptions 5 "ORDERS_CREATE"])
       (console s)).
Proof.
  intros Hok. unfold listSubscriptions, request, bind, modify, gets. simpl.
  now rewrite Hok.
Qed.

(** What the deletions leave of the subscriptions to order creation and of
    the others, when ids are unique. *)
Lemma deleted_first_five (subs : list Subscription) :
  List.NoDup (map sub_id subs) ->
  let old := List.filter (hasTopic "ORDERS_CREATE") subs in
  let left := List.filter
                (fun x => negb (existsb (String.eqb (sub_id x)) (map sub_id (take 5 old))))
                subs in
  List.filter (hasTopic "ORDERS_CREATE") left = drop 5 old /\
  List.filter (fun x => negb (hasTopic "ORDERS_CREATE" x)) left
  = List.filter (fun x => negb (hasTopic "ORDERS_CREATE" x)) subs.
Proof.
  intros Hnd old left. subst left. split.
  - rewrite filter_commute. fold old. apply removes_prefix.
    now apply NoDup_map_filter.
  - rewrite filter_filter. apply List.filter_ext_in. intros x Hx.
    destruct (hasTopic "ORDERS_CREATE" x) eqn:Htopic; simpl; [now rewrite andb_false_r|].
    rewrite andb_true_r.
    destruct (existsb _ _) eqn:Hex; [|reflexivity].
    apply existsb_id, in_map_iff in Hex as (y & Hid & Hy).
    apply in_take in Hy. apply filter_In in Hy as [Hy Hty].
    rewrite (NoDup_map_eq sub_id subs y x Hnd Hy Hx Hid) in Hty. congruence.
Qed.

(** A run in which no request is rejected. *)
Lemma registerWebhook_run (P : Platform) (s : Shop) :
  (forall r, rejects P r = false) ->
  let old := List.filter (hasTopic "ORDERS_CREATE") (subscriptions s) in
  let left := List.filter
                (fun x => negb (existsb (String.eqb (sub_id x)) (map sub_id (take 5 old))))
                (subscriptions s) in
  exists requests,
    registerWebhook P s
    = (Ok tt,
       match creation P left with
       | inl id =>
           mkShop (left ++ [ownSubscription P id]) requests
             (console s ++ map Deleted (map sub_id (take 5 old)) ++ [Created])
       | inr userErrors =>
           mkShop left requests
             (console s ++ map Deleted (map sub_id (take 5 old))
              ++ [CreateFailed userErrors])
       end).
Proof.
  intros Hok old left.
  unfold registerWebhook, bind. rewrite listSubscriptions_run by apply Hok.
  fold old.
  match goal with |- context [forOf _ ?ids ?s1] =>
    destruct (deleteEdges_run P ids s1) as (done & [(Hrun & -> & _)|(bad & _ & Hrej & _)])
  end; [|now rewrite Hok in Hrej].
  rewrite Hrun. clear Hrun.
  unfold createSubscription, request, bind, modify, gets. simpl.
  rewrite Hok. simpl. fold left.
  eexists. destruct (creation P left); simpl; unfold say, setSubscriptions; simpl;
    rewrite <- !app_assoc; reflexivity.
Qed.

(** X21: when no request is rejected and the platform accepts the
    creation, [registerWebhook] returns normally; it has deleted the first
    five subscriptions to order creation and no other (a sixth and later
    ones stay), has left the subscriptions to other topics as they were, and
    has added one subscription to order creation that points at
    [HOST/webhooks] in JSON format.  Ids are assumed unique. *)
Theorem registerWebhook_replaces (P : Platform) (s : Shop) (id : string) :
  (forall r, rejects P r = false) ->
  (forall subs, creation P subs = inl id) ->
  List.NoDup (map sub_id (subscriptions s)) ->
  let old := List.filter (hasTopic "ORDERS_CREATE") (subscriptions s) in
  let final := snd (registerWebhook P s) in
  fst (registerWebhook P s) = Ok tt /\
  List.filter (hasTopic "ORDERS_CREATE") (subscriptions final)
  = (drop 5 old ++ [ownSubscription P id])%list /\
  List.filter (fun x => negb (hasTopic "ORDERS_CREATE" x)) (subscriptions final)
  = List.filter (fun x => negb (hasTopic "ORDERS_CREATE" x)) (subscriptions s) /\
  console final = (console s ++ map Deleted (map sub_id (take 5 old)) ++ [Created])%list.
Proof.
  intros Hok Hcreate Hnd old final. subst final old.
  destruct (registerWebhook_run P s Hok) as (requests & ->).
  rewrite Hcreate. cbn [fst snd subscriptions console].
  destruct (deleted_first_five (subscriptions s) Hnd) as [Hold Hothers].
  rewrite !List.filter_app, Hold, Hothers. cbn.
  rewrite app_nil_r. auto.
Qed.

Lemma registerWebhook_replaces_witness :
  subscriptions (snd (registerWebhook obliging exampleShop))
  = [mkSubscription "w2" "ORDERS_PAID" "https://other.example/paid" "JSON";
     mkSubscription "w4" "ORDERS_CREATE" "https://app.example/webhooks" "JSON"] /\
  List.filter (hasTopic "ORDERS_CREATE")
    (subscriptions (snd (registerWebhook obliging exampleShop)))
  = [ownSubscription obliging "w4"].
Proof.
  split; [reflexivity|].
  destruct (registerWebhook_replaces obliging exampleShop "w4") as (_ & H & _).
  - reflexivity.
  - reflexivity.
  - simpl. repeat constructor; simpl; intuition discriminate.
  - exact H.
Defined.

(** X22: the registration is not atomic.  When the platform answers the
    creation with user errors, the function still returns normally, the old
    subscriptions are gone all the same, nothing has been added, and the
    errors are on the console; a shop that had at most five subscriptions to
    order creation is left with none. *)
Theorem registerWebhook_creation_refused (P : Platform) (s : Shop)
    (userErrors : list string) :
  (forall r, rejects P r = false) ->
  (forall subs, creation P subs = inr userErrors) ->
  List.NoDup (map sub_id (subscriptions s)) ->
  let old := List.filter (hasTopic "ORDERS_CREATE") (subscriptions s) in
  let final := snd (registerWebhook P s) in
  fst (registerWebhook P s) = Ok tt /\
  List.filter (hasTopic "ORDERS_CREATE") (subscriptions final) = drop 5 old /\
  (length old <= 5 -> List.filter (hasTopic "ORDERS_CREATE") (subscriptions final) = [])%nat /\
  console final
  = (console s ++ map Deleted (map sub_id (take 5 old)) ++ [CreateFailed userErrors])%list.
Proof.
  intros Hok Hcreate Hnd old final. subst final old.
  destruct (registerWebhook_run P s Hok) as (requests & ->).
  rewrite Hcreate. cbn [fst snd subscriptions console].
  destruct (deleted_first_five (subscriptions s) Hnd) as [Hold _].
  rewrite Hold.
  repeat split. intros Hlen. now apply drop_ge.
Qed.

Lemma registerWebhook_creation_refused_witness :
  List.filter (hasTopic "ORDERS_CREATE")
    (subscriptions (snd (registerWebhook refusing exampleShop))) = [] /\
  console (snd (registerWebhook refusing exampleShop))
  = [Deleted "w1"; Deleted "w3"; CreateFailed ["Address is invalid"]].
Proof.
  destruct (registerWebhook_creation_refused refusing exampleShop ["Address is invalid"])
    as (_ & _ & Hnone & Hconsole).
  - reflexivity.
  - reflexivity.
  - simpl. repeat constructor; simpl; intuition discriminate.
  - split; [apply Hnone; simpl; lia | exact Hconsole].
Defined.

(** X23: a rejected request ends the registration with that rejection,
    which nothing catches.  Whenever [registerWebhook] throws, the request
    sent last is one the client rejected, no subscription has been added
    (every subscription left was there before), and the console has gained
    nothing but lines about deletions. *)
Theorem registerWebhook_rejected (P : Platform) (s : Shop) (e : Exn) :
  fst (registerWebhook P s) = Throw e ->
  let final := snd (registerWebhook P s) in
  e = GqlError /\
  (exists r, rejects P r = true /\ last (sent final) = Some r) /\
  (forall x, In x (subscriptions final) -> In x (subscriptions s)) /\
  (forall line, In line (console final) ->
                In line (console s) \/ exists id, line = Deleted id).
Proof.
  cbv zeta. unfold registerWebhook, bind.
  destruct (rejects P (ListSubscriptions 5 "ORDERS_CREATE")) eqn:Hlist.
  - unfold listSubscriptions, request, bind, modify. simpl. rewrite Hlist. simpl.
    intros [= <-]. split; [reflexivity|]. split; [|auto].
    eexists. split; [exact Hlist | apply last_snoc].
  - rewrite listSubscriptions_run by exact Hlist.
    match goal with |- context [forOf _ ?ids ?s1] =>
      destruct (deleteEdges_run P ids s1)
        as (done & [(Hrun & -> & _)|(bad & Hrun & Hrej & _)])
    end; rewrite Hrun; clear Hrun.
    + unfold createSubscription, request, bind, modify, gets. simpl.
      destruct (rejects P (CreateSubscription _ _ _)) eqn:Hcreate; simpl.
      * intros [= <-]. split; [reflexivity|]. split; [|split].
        -- eexists. split; [exact Hcreate | apply last_snoc].
        -- intros x [Hx _]%filter_In. exact Hx.
        -- intros line [Hin|(id & <- & _)%in_map_iff]%in_app_or; eauto.
      * destruct (creation P _); discriminate.
    + simpl. intros [= <-]. split; [reflexivity|]. split; [|split].
      * eexists. split; [exact Hrej | apply last_snoc].
      * intros x [Hx _]%filter_In. exact Hx.
      * intros line [Hin|(id & <- & _)%in_map_iff]%in_app_or; eauto.
Qed.

Lemma registerWebhook_rejected_witness :
  sent (snd (registerWebhook unreachable exampleShop))
  = [ListSubscriptions 5 "ORDERS_CREATE"; DeleteSubscription "w1";
     DeleteSubscription "w3"] /\
  forall x, In x (subscriptions (snd (registerWebhook unreachable exampleShop))) ->
            In x (subscriptions exampleShop).
Proof.
  split; [reflexivity|].
  destruct (registerWebhook_rejected unreachable exampleShop GqlError) as (_ & _ & H & _).
  - reflexivity.
  - exact H.
Defined.

End RegistrationFacts.

(** ** The calls of the PNG revision *)

Lemma endsWith_app_r (a s p : string) :
  Js.endsWith s p = true -> Js.endsWith (a ++ s) p = true.
Proof.
  rewrite !endsWith_spec. intros [pre ->]. exists (a ++ pre).
  symmetry. apply string_app_assoc.
Qed.

Section PngPipeline.

Context (E : Env) (payload : Payload)
        (composite : bytes -> string -> option bytes).

Lemma buildImage_triple (item : LineItem) (callSign : string) :
  In item (pl_line_items payload) ->
  triple (fun w => w) (evolves (pngCall E payload))
    (LivePng.buildImage E composite payload item callSign) anyValue.
Proof.
  intros Hin. unfold LivePng.buildImage.
  triple_step; [triple_step|].
  triple_step.
  { apply getObject_triple. split; [reflexivity|]. exists item. split; [exact Hin|].
    unfold LivePng.templateKey. cbv zeta. destruct (_ || _); auto. }
  triple_step; [triple_step|].
  triple_step; [triple_step|].
  triple_step; [|triple_step].
  apply putObject_triple. repeat split.
  unfold LivePng.imageKey. do 5 apply endsWith_app_r.
  apply endsWith_spec. now eexists.
Qed.

Lemma LivePng_processItem_triple (total : nat) (item : LineItem) :
  In item (pl_line_items payload) ->
  triple snd (evolves (pngCall E payload))
    (LivePng.processItem E composite payload total item) anyValue.
Proof.
  intros Hin. unfold LivePng.processItem.
  destruct (callSignValue item) as [callSign|]; [|triple_step].
  triple_step; [triple_step|].
  triple_step; [triple_step; now apply buildImage_triple|].
  triple_step; [triple_step|].
  triple_step.
Qed.

End PngPipeline.

(** X24: the PNG revision of the live handler, whatever the payload and
    whatever fails: it only adds calls; each fetch reads the light or the
    dark PNG of a product of the payload from the templates bucket, each
    upload puts an image/png object under designs/....png into the designs
    bucket, each mutation sends the marker tag alone to the order of the
    payload; it never queries the platform and never reports user errors,
    since it does not read the answer to its mutation. *)
Theorem png_revision_calls (E : Env) (composite : bytes -> string -> option bytes)
    (shop : string) (payload : Payload) (w : World) :
  evolves (pngCall E payload) w
    (snd (LivePng.webhookHandler E composite shop payload w)).
Proof.
  assert (H : triple (fun w => w) (evolves (pngCall E payload))
                (LivePng.webhookHandler E composite shop payload) anyValue).
  { unfold LivePng.webhookHandler. apply triple_withLocals.
    apply triple_tryCatch; [apply evolves_trans | |].
    - triple_step.
      + apply triple_forOf; [apply evolves_refl | apply evolves_trans|].
        intros item Hin. now apply LivePng_processItem_triple.
      + unfold LivePng.annotate. triple_step; [triple_step|].
        destruct (0 <? length (designLinks _))%nat; [|triple_step].
        triple_step; [|triple_step].
        triple_step. apply gqlMutation_triple. now split.
    - intros e. triple_step. apply consoleError_triple. exact I. }
  apply H.
Qed.

(** ** A line item that fails *)

Lemma templatePngFile_none (zip : gmap string bytes) :
  templatePngFile zip = None ->
  forall k, is_Some (zip !! k) -> Js.endsWith k "template.png" = false.
Proof.
  unfold templatePngFile. intros Hnone k [v Hk].
  destruct (map_to_list _) as [|kv l] eqn:Hlist; [|discriminate].
  apply map_to_list_empty_iff in Hlist.
  destruct (Js.endsWith k "template.png") eqn:Hends; [|reflexivity].
  now destruct (map_filter_empty_not_lookup _ _ k v Hlist).
Qed.

(** X25: a line item that fails has stored nothing.  When the steps of a
    customised line item throw, no bucket and no order has changed, and the
    outcome is one of three.  For a line item whose variant_title is null
    (a product without variants) it is a TypeError before any call: the
    world is untouched.  Otherwise either the fetch of the template is the
    only call made, the clock has not been read and the exception is that of
    the fetch, of the archive codec, of the missing template.png or of the
    compositor; or the upload itself was rejected.  The template.png
    exception means that the template archive was fetched and opened and
    that none of its entries has a name ending in template.png. *)
Theorem failed_item_stores_nothing (E : Env) (payload : Payload) (item : LineItem)
    (callSign base : string) (w w' : World) (e : Exn) :
  buildDesign E payload item callSign base w = (Throw e, w') ->
  s3 w' = s3 w /\ shopOrders w' = shopOrders w /\
  match item_variant_title item with
  | None => e = TypeError /\ w' = w
  | Some variant_title =>
      let templateKey := templateKeyFor base variant_title in
      let fetch := GetObject (AWS_TEMPLATES_BUCKET E) templateKey in
      let newZipKey :=
        designKey (pl_name payload) (item_id item) (dateNow E (clockReads w)) in
      ((calls w' = (calls w ++ [fetch])%list /\ clockReads w' = clockReads w /\
        (e = S3Error (AWS_TEMPLATES_BUCKET E) templateKey \/ e = ZipError \/
         e = TemplateMissing templateKey \/ e = SharpError)) \/
       (exists body,
          calls w' = (calls w ++ [fetch; PutObject (AWS_DESIGNS_BUCKET E) newZipKey body
                                           "application/zip"])%list /\
          e = S3Error (AWS_DESIGNS_BUCKET E) newZipKey /\
          s3PutFails E (AWS_DESIGNS_BUCKET E) newZipKey = true)) /\
      (e = TemplateMissing templateKey ->
       exists buffer zip,
         s3 w !! (AWS_TEMPLATES_BUCKET E, templateKey) = Some buffer /\
         loadAsync E buffer = Some zip /\
         forall k, is_Some (zip !! k) -> Js.endsWith k "template.png" = false)
  end.
Proof.
  unfold buildDesign, bind, getObject, orThrow, DateNow, putObject, ret, throw.
  destruct (item_variant_title item) as [variant_title|]; [|now intros [= <- <-]].
  cbv zeta.
  set (templateKey := templateKeyFor base variant_title).
  assert (Hfetch : forall (e' : Exn) (P : Prop),
             (e' = S3Error (AWS_TEMPLATES_BUCKET E) templateKey \/ e' = ZipError \/
              e' = TemplateMissing templateKey \/ e' = SharpError) ->
             P ->
             let w1 := logCall (GetObject (AWS_TEMPLATES_BUCKET E) templateKey) w in
             s3 w1 = s3 w /\ shopOrders w1 = shopOrders w /\
             ((calls w1
               = (calls w ++ [GetObject (AWS_TEMPLATES_BUCKET E) templateKey])%list /\
               clockReads w1 = clockReads w /\
               (e' = S3Error (AWS_TEMPLATES_BUCKET E) templateKey \/ e' = ZipError \/
                e' = TemplateMissing templateKey \/ e' = SharpError)) \/
              (exists body,
                 calls w1
                 = (calls w ++ [GetObject (AWS_TEMPLATES_BUCKET E) templateKey;
                                PutObject (AWS_DESIGNS_BUCKET E)
                                  (designKey (pl_name payload) (item_id item)
                                     (dateNow E (clockReads w)))
                                  body "application/zip"])%list /\
                 e' = S3Error (AWS_DESIGNS_BUCKET E)
                        (designKey (pl_name payload) (item_id item)
                           (dateNow E (clockReads w))) /\
                 s3PutFails E (AWS_DESIGNS_BUCKET E)
                   (designKey (pl_name payload) (item_id item)
                      (dateNow E (clockReads w))) = true)) /\ P).
  { intros e' P He HP. simpl. auto 10. }
  destruct (s3GetFails E _ _).
  { intros [= <- <-]. apply Hfetch; [auto|discriminate]. }
  destruct (s3 w !! _) as [buf|] eqn:Hbuf.
  2:{ intros [= <- <-]. apply Hfetch; [auto|discriminate]. }
  destruct (loadAsync E buf) as [zip|] eqn:Hzip.
  2:{ intros [= <- <-]. apply Hfetch; [auto|discriminate]. }
  destruct (templatePngFile zip) as [png|] eqn:Hpng.
  2:{ intros [= <- <-]. apply Hfetch; [auto|].
      intros _. exists buf, zip. split; [reflexivity|].
      split; [first [exact Hzip | reflexivity]|].
      now apply templatePngFile_none. }
  destruct (sharpComposite E png callSign) as [img|].
  2:{ intros [= <- <-]. apply Hfetch; [auto|discriminate]. }
  simpl. destruct (s3PutFails E _ _) eqn:Hput; [|discriminate].
  intros [= <- <-]. simpl.
  split; [reflexivity|]. split; [reflexivity|]. split; [|discriminate].
  right. eexists. rewrite <- app_assoc. simpl. auto.
Qed.

Lemma failed_item_stores_nothing_witness :
  s3 (snd (buildDesign Scenario.env Scenario.oneCustomItem
             (Scenario.noVariant 77 "N1ABC") "N1ABC" "CLASSIC_CAP" Scenario.world))
  = s3 Scenario.world /\
  s3 (snd (buildDesign Scenario.env Scenario.failingFirst (Scenario.mug 76 "N1ABC")
             "N1ABC" "MUG" Scenario.world)) = s3 Scenario.world.
Proof.
  split.
  - destruct (failed_item_stores_nothing Scenario.env Scenario.oneCustomItem
                (Scenario.noVariant 77 "N1ABC") "N1ABC" "CLASSIC_CAP" Scenario.world
                Scenario.world TypeError) as (H & _).
    + reflexivity.
    + exact H.
  - destruct (failed_item_stores_nothing Scenario.env Scenario.failingFirst
                (Scenario.mug 76 "N1ABC") "N1ABC" "MUG" Scenario.world
                (logCall (GetObject "tpl" "MUG_FOR_DARK.zip") Scenario.world)
                (S3Error "tpl" "MUG_FOR_DARK.zip")) as (H & _).
    + reflexivity.
    + exact H.
Defined.
